(** * Buddy-system page allocator and scheduler picker of the kernel

    A shallow embedding of [buddysystem.c] and [scheduler_algorithm.c],
    followed by the properties of the two subsystems.

    Conventions of the embedding:
    - machine integers are [Z] with the wrap-around of their C type written
      out ([uint32], [int32]);
    - a pointer to a page descriptor is the index of the descriptor in the
      page array of the instance (the address is
      [base_page + pgs_size * index]); a pointer to a task is the position of
      the task in the run queue; [NULL] is [None];
    - C code that stops the kernel, or that runs into undefined behaviour,
      returns a [result] other than [Ok]. *)

From Stdlib Require Import ZArith Lia.
From stdpp Require Import base option list strings.

Local Open Scope Z_scope.

(** ** Outcomes of kernel code *)

(** Modelled from the spec: [kernel_panic] and [assert], whose headers are
    not among the sources, stop the kernel; neither returns. *)
Inductive result (A : Type) : Type :=
  | Ok (a : A)                (* the function returns normally *)
  | Panic (msg : string)      (* kernel_panic(msg): the kernel stops *)
  | AssertFail (msg : string) (* assert(e) with e false: the kernel stops *)
  | Fault (msg : string).     (* access outside the modelled memory *)

Arguments Ok {A} a.
Arguments Panic {A} msg.
Arguments AssertFail {A} msg.
Arguments Fault {A} msg.

#[global] Instance result_bind : MBind result := λ A B f m,
  match m with
  | Ok a => f a
  | Panic s => Panic s
  | AssertFail s => AssertFail s
  | Fault s => Fault s
  end.

#[global] Instance result_ret : MRet result := λ A a, Ok a.

Definition assert (e : bool) (msg : string) : result unit :=
  if e then Ok () else AssertFail msg.

(** ** Machine integers *)

Definition UINT_MAX : Z := 4294967295.

(** Value of an [unsigned int] / [unsigned long] / [uint32_t] / [time_t]
    expression (all 32 bits wide on the target). *)
Definition uint32 (x : Z) : Z := x mod 4294967296.

(** Value of an expression converted to [int]. *)
Definition int32 (x : Z) : Z := (x + 2147483648) mod 4294967296 - 2147483648.

(** Modelled from the spec: the bit operations of the kernel's bitops header
    ([set_bit], [clear_bit], [test_bit]), which is not among the sources;
    they act on bit [nr] of a flags word. *)
Definition set_bit (nr : Z) (word : Z) : Z := Z.setbit word nr.
Definition clear_bit (nr : Z) (word : Z) : Z := Z.clearbit word nr.
Definition test_bit (nr : Z) (word : Z) : bool := Z.testbit word nr.

(** * Part I: the buddy system ([buddysystem.c]) *)

Module Buddy.

(** Modelled from the spec: the structures [bb_page_t], [bb_free_area_t]
    and [bb_instance_t], declared in a header that is not among the sources;
    the fields are the ones the code reads and writes.

    Page descriptor. Its list links ([location.siblings],
    [location.cache]) are represented by the membership of the descriptor's
    index in a free-area list or in the cache list. *)
Record bb_page_t := mk_page {
  flags : Z;
  order : Z
}.

(** Free area of one order: the list of free block heads, front first, and
    the counter kept next to it. *)
Record bb_free_area_t := mk_area {
  free_list : list Z;
  nr_free : Z
}.

Record bb_instance_t := mk_instance {
  name : string;
  bbpg_offset : Z;
  pgs_size : Z;
  size : Z;
  (** the page descriptors reachable from [base_page], by index *)
  pages : list bb_page_t;
  free_area : list bb_free_area_t;
  free_pages_cache_list : list Z;
  free_pages_cache_size : Z
}.

Definition LOW_WATERMARK_LEVEL : Z := 10.
Definition HIGH_WATERMARK_LEVEL : Z := 70.
Definition MID_WATERMARK_LEVEL : Z :=
  (LOW_WATERMARK_LEVEL + HIGH_WATERMARK_LEVEL) / 2.

(** [enum bb_flag] *)
Definition FREE_PAGE : Z := 0.
Definition ROOT_PAGE : Z := 1.

Definition __bb_set_flag (page : bb_page_t) (flag : Z) : bb_page_t :=
  mk_page (set_bit flag (flags page)) (Buddy.order page).

Definition __bb_clear_flag (page : bb_page_t) (flag : Z) : bb_page_t :=
  mk_page (clear_bit flag (flags page)) (Buddy.order page).

Definition __bb_test_flag (page : bb_page_t) (flag : Z) : bool :=
  test_bit flag (flags page).

Definition set_order (page : bb_page_t) (order : Z) : bb_page_t :=
  mk_page (flags page) order.

(** Pointer arithmetic on descriptors, in index space. *)
Definition __get_page_from_base (base : Z) (index : Z) : Z := base + index.

Definition __get_buddy_at_index (page_idx : Z) (order : Z) : Z :=
  Z.lxor page_idx (uint32 (Z.shiftl 1 order)).

Definition __page_is_buddy (page : bb_page_t) (order : Z) : bool :=
  __bb_test_flag page FREE_PAGE && (Buddy.order page =? order).

(** Reads and writes through a descriptor pointer. *)
Definition load_page (instance : bb_instance_t) (page : Z) : result bb_page_t :=
  if page <? 0 then Fault "page descriptor out of range"
  else match pages instance !! Z.to_nat page with
       | Some d => Ok d
       | None => Fault "page descriptor out of range"
       end.

Definition store_page (instance : bb_instance_t) (page : Z) (d : bb_page_t)
  : bb_instance_t :=
  mk_instance (name instance) (bbpg_offset instance) (pgs_size instance)
    (size instance) (<[Z.to_nat page := d]> (pages instance))
    (free_area instance) (free_pages_cache_list instance)
    (free_pages_cache_size instance).

Definition with_free_area (instance : bb_instance_t)
    (areas : list bb_free_area_t) : bb_instance_t :=
  mk_instance (name instance) (bbpg_offset instance) (pgs_size instance)
    (size instance) (pages instance) areas
    (free_pages_cache_list instance) (free_pages_cache_size instance).

Definition with_cache (instance : bb_instance_t) (cache : list Z)
    (cache_size : Z) : bb_instance_t :=
  mk_instance (name instance) (bbpg_offset instance) (pgs_size instance)
    (size instance) (pages instance) (free_area instance) cache cache_size.

(** Modelled from the spec: the intrusive doubly-linked list primitive
    ([list_head_empty], [list_head_remove], [list_head_insert_after],
    [list_head_insert_before], [list_head_pop]), which is not among the
    sources. A list is the sequence of the descriptors linked after its head;
    a descriptor is linked in at most one list, so unlinking it removes its
    index wherever it occurs. *)
Definition list_head_empty (l : list Z) : bool :=
  match l with [] => true | _ => false end.

Definition list_head_insert_after (page : Z) (l : list Z) : list Z := page :: l.

Definition list_head_insert_before (page : Z) (l : list Z) : list Z := l ++ [page].

Definition list_head_pop (l : list Z) : option Z * list Z :=
  match l with [] => (None, []) | page :: l' => (Some page, l') end.

(** Modelled from the spec: [list_entry], the container-of macro of the
    list header, which is not among the sources. From a node it computes
    the descriptor that embeds the node; from the null node that
    [list_head_pop] returns on an empty list it computes the address
    [offsetof(bb_page_t, location.cache)] bytes below null, which is neither
    null nor a descriptor. *)
Inductive entry_ptr : Type :=
  | entry_at (page : Z)
  | entry_of_null.

Definition list_entry (node : option Z) : entry_ptr :=
  match node with Some page => entry_at page | None => entry_of_null end.

Definition unlink (page : Z) (l : list Z) : list Z :=
  filter (λ q, q ≠ page) l.

Definition list_head_remove (instance : bb_instance_t) (page : Z)
  : bb_instance_t :=
  with_free_area instance
    ((λ a, mk_area (unlink page (free_list a)) (nr_free a)) <$> free_area instance).

Section Code.

(** Build constants; their header is not among the sources.
    [sizeof_bb_page_t] is the size in bytes of a descriptor. *)
Variable MAX_BUDDYSYSTEM_GFP_ORDER : Z.
Variable PAGE_SIZE : Z.
Variable sizeof_bb_page_t : Z.

(** [__get_area_of_order], followed by a read or a write of the area. *)
Definition load_area (instance : bb_instance_t) (order : Z)
  : result bb_free_area_t :=
  if (0 <=? order) && (order <? MAX_BUDDYSYSTEM_GFP_ORDER) then
    match free_area instance !! Z.to_nat order with
    | Some a => Ok a
    | None => Fault "free area out of range"
    end
  else Fault "free area out of range".

Definition store_area (instance : bb_instance_t) (order : Z)
    (a : bb_free_area_t) : bb_instance_t :=
  with_free_area instance (<[Z.to_nat order := a]> (free_area instance)).

(** The upward scan of [bb_alloc_pages]; [n] counts the orders left to
    visit, [MAX_BUDDYSYSTEM_GFP_ORDER - current_order]. *)
Fixpoint find_block (instance : bb_instance_t) (n : nat) (current_order : Z)
  : result (option Z) :=
  match n with
  | O => Ok None
  | S n' =>
      area ← load_area instance current_order;
      if negb (list_head_empty (free_list area)) then Ok (Some current_order)
      else find_block instance n' (current_order + 1)
  end.

(** The splitting loop of [bb_alloc_pages]; [n] is
    [current_order - order]. *)
Fixpoint split_block (n : nat) (instance : bb_instance_t) (page : Z)
    (current_order size : Z) : result bb_instance_t :=
  match n with
  | O => Ok instance
  | S n' =>
      let current_order := current_order - 1 in
      let size := size / 2 in
      let buddy := __get_page_from_base page size in
      b ← load_page instance buddy;
      _ ← assert (__bb_test_flag b FREE_PAGE && negb (__bb_test_flag b ROOT_PAGE))
            "__bb_test_flag(buddy, FREE_PAGE) && !__bb_test_flag(buddy, ROOT_PAGE)";
      let b := set_order b current_order in
      let b := __bb_set_flag b ROOT_PAGE in
      let instance := store_page instance buddy b in
      area ← load_area instance current_order;
      let instance :=
        store_area instance current_order
          (mk_area (list_head_insert_after buddy (free_list area))
                   (int32 (nr_free area + 1))) in
      split_block n' instance page current_order size
  end.

Definition bb_alloc_pages (instance : bb_instance_t) (order : Z)
  : result (option Z * bb_instance_t) :=
  found ← find_block instance (Z.to_nat (MAX_BUDDYSYSTEM_GFP_ORDER - order)) order;
  match found with
  | None => Ok (None, instance)
  | Some current_order =>
      area ← load_area instance current_order;
      match free_list area with
      | [] => Fault "empty free list"
      | page :: _ =>
          let instance := list_head_remove instance page in
          area ← load_area instance current_order;
          let instance :=
            store_area instance current_order
              (mk_area (free_list area) (int32 (nr_free area - 1))) in
          d ← load_page instance page;
          _ ← assert (__bb_test_flag d FREE_PAGE && __bb_test_flag d ROOT_PAGE)
                "__bb_test_flag(page, FREE_PAGE) && __bb_test_flag(page, ROOT_PAGE)";
          let instance := store_page instance page (__bb_clear_flag d FREE_PAGE) in
          let size := uint32 (Z.shiftl 1 current_order) in
          instance ← split_block (Z.to_nat (current_order - order))
                                  instance page current_order size;
          d ← load_page instance page;
          Ok (Some page, store_page instance page (set_order d order))
      end
  end.

(** The coalescing loop of [bb_free_pages]; [n] is
    [MAX_BUDDYSYSTEM_GFP_ORDER - 1 - order]. Returns the instance with the
    final [page_idx] and [order]. *)
Fixpoint merge_blocks (n : nat) (instance : bb_instance_t)
    (page_idx order : Z) : result (bb_instance_t * Z * Z) :=
  match n with
  | O => Ok (instance, page_idx, order)
  | S n' =>
      let page := __get_page_from_base 0 page_idx in
      let buddy_idx := __get_buddy_at_index page_idx order in
      let buddy := __get_page_from_base 0 buddy_idx in
      b ← load_page instance buddy;
      if negb (__page_is_buddy b order) then Ok (instance, page_idx, order)
      else
        let instance := list_head_remove instance buddy in
        area ← load_area instance order;
        let instance :=
          store_area instance order
            (mk_area (free_list area) (int32 (nr_free area - 1))) in
        b ← load_page instance buddy;
        let instance := store_page instance buddy (__bb_clear_flag b ROOT_PAGE) in
        p ← load_page instance page;
        let instance := store_page instance page (__bb_clear_flag p ROOT_PAGE) in
        merge_blocks n' instance (Z.land page_idx buddy_idx) (order + 1)
  end.

Definition bb_free_pages (instance : bb_instance_t) (page : Z)
  : result bb_instance_t :=
  d ← load_page instance page;
  let page_idx := page in
  let order := Buddy.order d in
  if __bb_test_flag d FREE_PAGE || negb (__bb_test_flag d ROOT_PAGE) then
    Panic "Double deallocation in buddy system!"
  else
    let instance := store_page instance page (__bb_set_flag d FREE_PAGE) in
    '(instance, page_idx, order) ←
      merge_blocks (Z.to_nat (MAX_BUDDYSYSTEM_GFP_ORDER - 1 - order))
                   instance page_idx order;
    let page := __get_page_from_base 0 page_idx in
    d ← load_page instance page;
    let d := __bb_set_flag d ROOT_PAGE in
    let d := __bb_set_flag d ROOT_PAGE in
    let instance := store_page instance page (set_order d order) in
    area ← load_area instance order;
    Ok (store_area instance order
          (mk_area (list_head_insert_after page (free_list area)) (nr_free area))).

(** First loop of [buddy_system_init]: [n] descriptors from [index] on. *)
Fixpoint init_pages (n : nat) (instance : bb_instance_t) (index : Z)
  : result bb_instance_t :=
  match n with
  | O => Ok instance
  | S n' =>
      d ← load_page instance index;
      let d := mk_page 0 (Buddy.order d) in
      let instance := store_page instance index (__bb_set_flag d FREE_PAGE) in
      init_pages n' instance (index + 1)
  end.

(** Last loop of [buddy_system_init]. The test [(page + block_size) <=
    last_page] advances [page] by [block_size] descriptors of
    [sizeof_bb_page_t] bytes and compares addresses, while the blocks are
    [pgs_size] bytes per page apart; [fuel] bounds the iterations. *)
Fixpoint init_blocks (fuel : nat) (instance : bb_instance_t)
    (page last_page max_order block_size : Z) : result (bb_instance_t * Z) :=
  if page * pgs_size instance + block_size * sizeof_bb_page_t
       <=? last_page * pgs_size instance then
    match fuel with
    | O => Fault "buddy_system_init does not terminate"
    | S fuel' =>
        d ← load_page instance page;
        let d := set_order d max_order in
        let instance := store_page instance page (__bb_set_flag d ROOT_PAGE) in
        area ← load_area instance max_order;
        let instance :=
          store_area instance max_order
            (mk_area (list_head_insert_before page (free_list area))
                     (int32 (nr_free area + 1))) in
        init_blocks fuel' instance (__get_page_from_base page block_size)
                    last_page max_order block_size
    end
  else Ok (instance, page).

(** [instance] is the instance as the caller hands it over, [pages_start]
    the content of the descriptor array before the call. The function
    writes the base page, the four page fields, the descriptors and the
    [MAX_BUDDYSYSTEM_GFP_ORDER] free areas; it does not write the cache
    list nor its counter. *)
Definition buddy_system_init (instance : bb_instance_t) (name : string)
    (pages_start : list bb_page_t)
    (bbpage_offset pages_stride pages_count : Z) : result bb_instance_t :=
  let instance :=
    mk_instance name bbpage_offset pages_stride pages_count pages_start
      (free_area instance) (free_pages_cache_list instance)
      (free_pages_cache_size instance) in
  instance ← init_pages (Z.to_nat pages_count) instance 0;
  let instance :=
    with_free_area instance
      (replicate (Z.to_nat MAX_BUDDYSYSTEM_GFP_ORDER) (mk_area [] 0)) in
  let page := 0 in
  let last_page := __get_page_from_base page (size instance) in
  let max_order := MAX_BUDDYSYSTEM_GFP_ORDER - 1 in
  let block_size := uint32 (Z.shiftl 1 max_order) in
  '(instance, page) ←
    init_blocks (S (Z.to_nat pages_count)) instance page last_page
                max_order block_size;
  _ ← assert (page =? last_page) "page == last_page";
  Ok instance.

Definition buddy_system_get_total_space (instance : bb_instance_t) : Z :=
  uint32 (size instance * PAGE_SIZE).

(** Loop of [buddy_system_get_free_space]: [n] orders from [order] on. *)
Fixpoint free_space_loop (n : nat) (instance : bb_instance_t)
    (order : Z) (size : Z) : result Z :=
  match n with
  | O => Ok size
  | S n' =>
      area ← load_area instance order;
      free_space_loop n' instance (order + 1)
        (uint32 (size + uint32 (uint32 (nr_free area * uint32 (Z.shiftl 1 order))
                                * PAGE_SIZE)))
  end.

Definition buddy_system_get_free_space (instance : bb_instance_t) : result Z :=
  free_space_loop (Z.to_nat MAX_BUDDYSYSTEM_GFP_ORDER) instance 0 0.

(** Loop of [buddy_system_get_cached_space]. *)
Fixpoint cached_space_loop (n : nat) (instance : bb_instance_t) (size : Z) : Z :=
  match n with
  | O => size
  | S n' =>
      cached_space_loop n' instance
        (uint32 (size + uint32 (free_pages_cache_size instance * PAGE_SIZE)))
  end.

Definition buddy_system_get_cached_space (instance : bb_instance_t) : Z :=
  cached_space_loop (Z.to_nat MAX_BUDDYSYSTEM_GFP_ORDER) instance 0.

(** [__cache_extend]: [n] is the number of iterations, [count] when it is
    positive. A null [page] is dereferenced by the list insertion. *)
Fixpoint __cache_extend_loop (n : nat) (instance : bb_instance_t)
  : result bb_instance_t :=
  match n with
  | O => Ok instance
  | S n' =>
      '(page, instance) ← bb_alloc_pages instance 0;
      match page with
      | None => Fault "null page descriptor"
      | Some page =>
          _ ← load_page instance page;
          let instance :=
            with_cache instance
              (list_head_insert_after page (free_pages_cache_list instance))
              (uint32 (free_pages_cache_size instance + 1)) in
          __cache_extend_loop n' instance
      end
  end.

Definition __cache_extend (instance : bb_instance_t) (count : Z)
  : result bb_instance_t :=
  __cache_extend_loop (Z.to_nat count) instance.

(** [__cache_shrink]; the entry of the null node of an empty list is not a
    descriptor, and [bb_free_pages] reads through it. *)
Fixpoint __cache_shrink_loop (n : nat) (instance : bb_instance_t)
  : result bb_instance_t :=
  match n with
  | O => Ok instance
  | S n' =>
      let '(page_list, cache) :=
        list_head_pop (free_pages_cache_list instance) in
      match list_entry page_list with
      | entry_of_null => Fault "page descriptor out of range"
      | entry_at page =>
          let instance := with_cache instance cache (free_pages_cache_size instance) in
          instance ← bb_free_pages instance page;
          let instance :=
            with_cache instance (free_pages_cache_list instance)
              (uint32 (free_pages_cache_size instance - 1)) in
          __cache_shrink_loop n' instance
      end
  end.

Definition __cache_shrink (instance : bb_instance_t) (count : Z)
  : result bb_instance_t :=
  __cache_shrink_loop (Z.to_nat count) instance.

(** [__cached_alloc] returns what [list_entry] makes of the node popped,
    without testing it. *)
Definition __cached_alloc (instance : bb_instance_t)
  : result (entry_ptr * bb_instance_t) :=
  instance ←
    (if free_pages_cache_size instance <? LOW_WATERMARK_LEVEL then
       let pages_to_request :=
         uint32 (MID_WATERMARK_LEVEL - free_pages_cache_size instance) in
       __cache_extend instance (int32 pages_to_request)
     else Ok instance);
  let '(page_list, cache) := list_head_pop (free_pages_cache_list instance) in
  Ok (list_entry page_list,
      with_cache instance cache (free_pages_cache_size instance)).

Definition __cached_free (instance : bb_instance_t) (page : Z)
  : result bb_instance_t :=
  _ ← load_page instance page;
  let instance :=
    with_cache instance
      (list_head_insert_after page (free_pages_cache_list instance))
      (free_pages_cache_size instance) in
  if free_pages_cache_size instance >? HIGH_WATERMARK_LEVEL then
    let pages_to_free :=
      uint32 (free_pages_cache_size instance - MID_WATERMARK_LEVEL) in
    __cache_shrink instance (int32 pages_to_free)
  else Ok instance.

Definition bb_alloc_page_cached (instance : bb_instance_t)
  : result (entry_ptr * bb_instance_t) :=
  __cached_alloc instance.

Definition bb_free_page_cached (instance : bb_instance_t) (page : Z)
  : result bb_instance_t :=
  __cached_free instance page.

End Code.

(** ** Invariants of the instance *)

(** The descriptor [p] exists and is FREE. *)
Definition is_free (instance : bb_instance_t) (p : Z) : Prop :=
  ∃ d, load_page instance p = Ok d ∧ __bb_test_flag d FREE_PAGE = true.

(** I-A.3 for a block of order [k] whose head is at [i]: the descriptors
    after the head lie in the descriptor array and are FREE and not ROOT. *)
Definition free_block (instance : bb_instance_t) (k i : Z) : Prop :=
  ∀ j, i < j < i + 2 ^ k →
       ∃ d, load_page instance j = Ok d ∧
            __bb_test_flag d FREE_PAGE = true ∧ __bb_test_flag d ROOT_PAGE = false.

Section Invariants.

Variable MAX_BUDDYSYSTEM_GFP_ORDER : Z.

(** Every block on a free list is a [free_block] of the order of its
    list. *)
Definition free_lists_wf (instance : bb_instance_t) : Prop :=
  ∀ k a i,
    0 ≤ k < MAX_BUDDYSYSTEM_GFP_ORDER →
    free_area instance !! Z.to_nat k = Some a →
    i ∈ free_list a → free_block instance k i.

(** The instance has its [MAX_BUDDYSYSTEM_GFP_ORDER] free areas. *)
Definition areas_present (instance : bb_instance_t) : Prop :=
  length (free_area instance) = Z.to_nat MAX_BUDDYSYSTEM_GFP_ORDER.

(** I-A.2 for the flags: the heads on the free lists are FREE and ROOT. *)
Definition free_heads_flagged (instance : bb_instance_t) : Prop :=
  ∀ k a i,
    0 ≤ k < MAX_BUDDYSYSTEM_GFP_ORDER →
    free_area instance !! Z.to_nat k = Some a →
    i ∈ free_list a →
    ∃ d, load_page instance i = Ok d ∧
         __bb_test_flag d FREE_PAGE = true ∧ __bb_test_flag d ROOT_PAGE = true.

(** The number of descriptors is a multiple of the largest block size. *)
Definition pages_aligned (instance : bb_instance_t) : Prop :=
  (2 ^ (MAX_BUDDYSYSTEM_GFP_ORDER - 1) | Z.of_nat (length (pages instance))).

End Invariants.

(** ** Scenarios *)

(** The instance handed to [buddy_system_init] in the scenarios: its owner
    has initialised the cache to the empty list and the count 0, and
    nothing else is set. *)
Definition empty_cache_instance : bb_instance_t :=
  mk_instance "" 0 0 0 [] [] [] 0.

(** A descriptor array as the boot code hands it over: [n] zeroed
    descriptors. *)
Definition zeroed (n : nat) : list bb_page_t := replicate n (mk_page 0 0).

(** [k] calls of [bb_alloc_page_cached] in a row; the pages returned, first
    call first, and the instance left. *)
Fixpoint alloc_cached_times (MAX : Z) (k : nat) (instance : bb_instance_t)
  : result (list entry_ptr * bb_instance_t) :=
  match k with
  | O => Ok ([], instance)
  | S k' =>
      '(page, instance) ← bb_alloc_page_cached MAX instance;
      '(got, instance) ← alloc_cached_times MAX k' instance;
      Ok (page :: got, instance)
  end.

(** [bb_free_page_cached] on each page of a list, in order. *)
Fixpoint free_cached_all (MAX : Z) (l : list Z) (instance : bb_instance_t)
  : result bb_instance_t :=
  match l with
  | [] => Ok instance
  | page :: l' =>
      instance ← bb_free_page_cached MAX instance page;
      free_cached_all MAX l' instance
  end.

(** [k] calls of [bb_alloc_pages] of order 0 in a row. *)
Fixpoint alloc_times (MAX : Z) (k : nat) (instance : bb_instance_t)
  : result (list (option Z) * bb_instance_t) :=
  match k with
  | O => Ok ([], instance)
  | S k' =>
      '(page, instance) ← bb_alloc_pages MAX instance 0;
      '(got, instance) ← alloc_times MAX k' instance;
      Ok (page :: got, instance)
  end.

(** Scenario S1 of the specification: [MAX_ORDER = 4] and eight pages. The
    instance after initialisation, after [alloc(0)], which returns
    descriptor 0, and after [free(0)]. *)
Definition S1_fresh : bb_instance_t :=
  mk_instance "zone" 0 32 8
    [mk_page 3 3; mk_page 1 0; mk_page 1 0; mk_page 1 0;
     mk_page 1 0; mk_page 1 0; mk_page 1 0; mk_page 1 0]
    [mk_area [] 0; mk_area [] 0; mk_area [] 0; mk_area [0] 1] [] 0.

Definition S1_allocated : bb_instance_t :=
  mk_instance "zone" 0 32 8
    [mk_page 2 0; mk_page 3 0; mk_page 3 1; mk_page 1 0;
     mk_page 3 2; mk_page 1 0; mk_page 1 0; mk_page 1 0]
    [mk_area [1] 1; mk_area [2] 1; mk_area [4] 1; mk_area [] 0] [] 0.

Definition S1_freed : bb_instance_t :=
  mk_instance "zone" 0 32 8
    [mk_page 3 3; mk_page 1 0; mk_page 1 1; mk_page 1 0;
     mk_page 1 2; mk_page 1 0; mk_page 1 0; mk_page 1 0]
    [mk_area [] 0; mk_area [] 0; mk_area [] 0; mk_area [0] 0] [] 0.

(** The pages handed to the 71 calls of [bb_free_page_cached] in scenario
    S2: the five pages the cache returned and 66 pages allocated from the
    buddy system. *)
Definition S2_pages : list Z :=
  [39; 38; 37; 36; 35] ++ (Z.of_nat <$> seq 40 66).

(** The counters and the free lists of an instance, by order. *)
Definition counters (instance : bb_instance_t) : list Z :=
  nr_free <$> free_area instance.

Definition free_lists (instance : bb_instance_t) : list (list Z) :=
  free_list <$> free_area instance.

(** Scenario S1 after the whole zone was allocated as one block of order
    3: every free area is empty. *)
Definition S1_exhausted : bb_instance_t :=
  mk_instance "zone" 0 32 8
    [mk_page 2 3; mk_page 1 0; mk_page 1 0; mk_page 1 0;
     mk_page 1 0; mk_page 1 0; mk_page 1 0; mk_page 1 0]
    [mk_area [] 0; mk_area [] 0; mk_area [] 0; mk_area [] 0] [] 0.

(** Scenario S1 after [__cache_extend] took three pages, and after
    [__cache_shrink] gave two of them back. *)
Definition S1_refilled : bb_instance_t :=
  mk_instance "zone" 0 32 8
    [mk_page 2 0; mk_page 2 0; mk_page 2 0; mk_page 3 0;
     mk_page 3 2; mk_page 1 0; mk_page 1 0; mk_page 1 0]
    [mk_area [3] 1; mk_area [] 0; mk_area [4] 1; mk_area [] 0] [2; 1; 0] 3.

Definition S1_drained : bb_instance_t :=
  mk_instance "zone" 0 32 8
    [mk_page 2 0; mk_page 3 0; mk_page 3 1; mk_page 1 0;
     mk_page 3 2; mk_page 1 0; mk_page 1 0; mk_page 1 0]
    [mk_area [1] 0; mk_area [2] 0; mk_area [4] 1; mk_area [] 0] [0] 1.

(** ** Vocabulary of the further properties *)

(** The heads of [m] consecutive blocks of [block_size] descriptors, the
    first at [page]. *)
Definition block_heads (page block_size : Z) (m : nat) : list Z :=
  (λ i, page + Z.of_nat i * block_size) <$> seq 0 m.

(** The free pages the counters stand for: the sum of [nr_free * 2^k] over
    the areas [l], the first of which has order [k]. *)
Fixpoint counted_pages (l : list bb_free_area_t) (k : Z) : Z :=
  match l with
  | [] => 0
  | a :: l' => nr_free a * 2 ^ k + counted_pages l' (k + 1)
  end.

(** Two values of a 32-bit register are the same. *)
Definition same32 (x y : Z) : Prop := uint32 x = uint32 y.

End Buddy.

(** * Part II: the scheduler picker ([scheduler_algorithm.c]) *)

Module Sched.

(** Modelled from the spec: the structures [sched_entity_t], [task_struct]
    and [runqueue_t] and the type [time_t], declared in headers that are not
    among the sources; the fields are the ones the code reads and writes.
    The tick counter is an unsigned 32-bit value, and the code initialises
    its [time_t] minima with [UINT_MAX]; [prio] is an [int].

    Scheduling entity of a task. The fields of type [time_t] hold tick
    counts. *)
Record sched_entity_t := mk_se {
  prio : Z;
  exec_start : Z;
  exec_runtime : Z;
  sum_exec_runtime : Z;
  vruntime : Z;
  period : Z;
  deadline : Z;
  next_period : Z;
  executed : bool;
  is_periodic : bool;
  is_under_analysis : bool
}.

Record task_struct := mk_task {
  state : Z;
  se : sched_entity_t
}.

(** The run queue: the tasks linked after the list head [queue], in list
    order, and the position of [curr] among them. *)
Record runqueue_t := mk_rq {
  queue : list task_struct;
  curr : nat
}.

(** The scheduling algorithm enabled at build time. *)
Inductive policy :=
  | SCHEDULER_RR
  | SCHEDULER_PRIORITY
  | SCHEDULER_CFS
  | SCHEDULER_EDF
  | SCHEDULER_RM
  | SCHEDULER_AEDF
  | SCHEDULER_LLF.

Definition with_se (task : task_struct) (e : sched_entity_t) : task_struct :=
  mk_task (state task) e.

Definition set_exec_start (v : Z) (task : task_struct) : task_struct :=
  let e := se task in
  with_se task
    (mk_se (prio e) v (exec_runtime e) (sum_exec_runtime e) (vruntime e)
           (period e) (deadline e) (next_period e) (executed e)
           (is_periodic e) (is_under_analysis e)).

Definition set_exec_runtime (v : Z) (task : task_struct) : task_struct :=
  let e := se task in
  with_se task
    (mk_se (prio e) (exec_start e) v (sum_exec_runtime e) (vruntime e)
           (period e) (deadline e) (next_period e) (executed e)
           (is_periodic e) (is_under_analysis e)).

Definition set_sum_exec_runtime (v : Z) (task : task_struct) : task_struct :=
  let e := se task in
  with_se task
    (mk_se (prio e) (exec_start e) (exec_runtime e) v (vruntime e)
           (period e) (deadline e) (next_period e) (executed e)
           (is_periodic e) (is_under_analysis e)).

Definition set_vruntime (v : Z) (task : task_struct) : task_struct :=
  let e := se task in
  with_se task
    (mk_se (prio e) (exec_start e) (exec_runtime e) (sum_exec_runtime e) v
           (period e) (deadline e) (next_period e) (executed e)
           (is_periodic e) (is_under_analysis e)).

(** The three writes of the period rollover in EDF, RM and LLF:
    [executed = false; deadline += period; next_period += period]. *)
Definition start_next_period (entry : task_struct) : task_struct :=
  let e := se entry in
  with_se entry
    (mk_se (prio e) (exec_start e) (exec_runtime e) (sum_exec_runtime e)
           (vruntime e) (period e)
           (uint32 (deadline e + period e))
           (uint32 (next_period e + period e))
           false (is_periodic e) (is_under_analysis e)).

Definition __is_periodic_task (task : task_struct) : bool :=
  is_periodic (se task) && negb (is_under_analysis (se task)).

(** [list_for_each_decl(it, &runqueue->curr->run_list)] visits the nodes
    linked after [curr], up to [curr] itself excluded: the tasks after
    [curr], the list head, the tasks before [curr]. *)
Definition after_curr (runqueue : runqueue_t) : list task_struct :=
  drop (S (curr runqueue)) (queue runqueue).

Definition before_curr (runqueue : runqueue_t) : list task_struct :=
  take (curr runqueue) (queue runqueue).

(** Modelled from the spec: [list_head_size] belongs to the list primitive,
    which is not among the sources; called on [curr]'s node it counts the
    other nodes of the circular list, the list head included. *)
Definition list_head_size (runqueue : runqueue_t) : nat :=
  (length (after_curr runqueue) + 1 + length (before_curr runqueue))%nat.

Section Code.

(** Constants and functions of headers that are not among the sources. *)
Variable TASK_RUNNING : Z.
Variable NICE_0_LOAD : Z.
Variable GET_WEIGHT : Z → Z.
Variable update_process_profiling_timer : task_struct → task_struct.
(** [(int)(((double)exec_runtime) * (((double)NICE_0_LOAD) / ((double)weight)))]
    as a function of [weight] and [exec_runtime]. *)
Variable weighted_exec_runtime : Z → Z → Z.

(** Loop body of [__scheduler_rr] over the tasks [l], the first of which
    is at position [it]. *)
Fixpoint rr_loop (skip_periodic : bool) (l : list task_struct) (it : nat)
  : option nat :=
  match l with
  | [] => None
  | entry :: l' =>
      if negb (state entry =? TASK_RUNNING) then rr_loop skip_periodic l' (S it)
      else if __is_periodic_task entry && skip_periodic then
        rr_loop skip_periodic l' (S it)
      else Some it
  end.

Definition __scheduler_rr (runqueue : runqueue_t) (skip_periodic : bool)
  : option nat :=
  if (list_head_size runqueue <=? 1)%nat then Some (curr runqueue)
  else
    match rr_loop skip_periodic (after_curr runqueue) (S (curr runqueue)) with
    | Some entry => Some entry
    | None => rr_loop skip_periodic (before_curr runqueue) 0
    end.

(** Loop body of [__scheduler_priority] (when [SCHEDULER_PRIORITY] is
    defined); [min] is a [time_t]. *)
Fixpoint priority_loop (skip_periodic : bool) (l : list task_struct) (it : nat)
    (next : nat) (min : Z) : nat * Z :=
  match l with
  | [] => (next, min)
  | entry :: l' =>
      if negb (state entry =? TASK_RUNNING) then
        priority_loop skip_periodic l' (S it) next min
      else if __is_periodic_task entry && skip_periodic then
        priority_loop skip_periodic l' (S it) next min
      else if uint32 (prio (se entry)) <=? min then
        priority_loop skip_periodic l' (S it) it (uint32 (prio (se entry)))
      else priority_loop skip_periodic l' (S it) next min
  end.

Definition __scheduler_priority (defined : policy) (runqueue : runqueue_t)
    (skip_periodic : bool) : option nat :=
  match defined with
  | SCHEDULER_PRIORITY =>
      match queue runqueue with
      | [] => None
      | first :: _ =>
          let next := 0%nat in
          let min := uint32 (prio (se first)) in
          if (list_head_size runqueue <=? 1)%nat then Some (curr runqueue)
          else
            let '(next, min) :=
              priority_loop skip_periodic (after_curr runqueue)
                            (S (curr runqueue)) next min in
            let '(next, min) :=
              priority_loop skip_periodic (before_curr runqueue) 0 next min in
            Some next
      end
  | _ => __scheduler_rr runqueue skip_periodic
  end.

(** Loop body of [__scheduler_cfs]. *)
Fixpoint cfs_loop (skip_periodic : bool) (l : list task_struct) (it : nat)
    (next : nat) (min : Z) : nat * Z :=
  match l with
  | [] => (next, min)
  | entry :: l' =>
      if negb (state entry =? TASK_RUNNING) then
        cfs_loop skip_periodic l' (S it) next min
      else if __is_periodic_task entry && skip_periodic then
        cfs_loop skip_periodic l' (S it) next min
      else if vruntime (se entry) <? min then
        cfs_loop skip_periodic l' (S it) it (vruntime (se entry))
      else cfs_loop skip_periodic l' (S it) next min
  end.

(** [next] starts as the first task linked after the list head; with [curr]
    linked in the queue there is one. *)
Definition __scheduler_cfs (runqueue : runqueue_t) (skip_periodic : bool)
  : option nat :=
  match queue runqueue with
  | [] => None
  | first :: _ =>
      let next := 0%nat in
      let min := vruntime (se first) in
      if (list_head_size runqueue <=? 1)%nat then Some (curr runqueue)
      else
        let '(next, min) :=
          cfs_loop skip_periodic (after_curr runqueue)
                   (S (curr runqueue)) next min in
        let '(next, min) :=
          cfs_loop skip_periodic (before_curr runqueue) 0 next min in
        Some next
  end.

(** Loop of [__scheduler_aedf]. *)
Fixpoint aedf_loop (l : list task_struct) (it : nat)
    (next : option nat) (next_dl : Z) : option nat :=
  match l with
  | [] => next
  | entry :: l' =>
      if negb (deadline (se entry) =? 0) then
        if deadline (se entry) <=? next_dl then
          aedf_loop l' (S it) (Some it) (deadline (se entry))
        else aedf_loop l' (S it) next next_dl
      else aedf_loop l' (S it) next next_dl
  end.

Definition __scheduler_aedf (runqueue : runqueue_t) : option nat :=
  match aedf_loop (queue runqueue) 0 None UINT_MAX with
  | Some next => Some next
  | None => __scheduler_cfs runqueue true
  end.

(** Loop of [__scheduler_edf]: returns [next] and the tasks as the loop
    leaves them. [ticks] is the value of [timer_get_ticks()]. *)
Fixpoint edf_loop (ticks : Z) (l : list task_struct) (it : nat)
    (next : option nat) (next_dl : Z) : option nat * list task_struct :=
  match l with
  | [] => (next, [])
  | entry :: l' =>
      if negb (is_periodic (se entry)) || is_under_analysis (se entry) then
        let '(next, l') := edf_loop ticks l' (S it) next next_dl in
        (next, entry :: l')
      else if executed (se entry) && (next_period (se entry) <=? ticks) then
        let '(next, l') := edf_loop ticks l' (S it) next next_dl in
        (next, start_next_period entry :: l')
      else if negb (executed (se entry)) && (deadline (se entry) <? next_dl) then
        let '(next, l') :=
          edf_loop ticks l' (S it) (Some it) (deadline (se entry)) in
        (next, entry :: l')
      else
        let '(next, l') := edf_loop ticks l' (S it) next next_dl in
        (next, entry :: l')
  end.

Definition __scheduler_edf (ticks : Z) (runqueue : runqueue_t)
  : option nat * runqueue_t :=
  let '(next, q) := edf_loop ticks (queue runqueue) 0 None UINT_MAX in
  let runqueue := mk_rq q (curr runqueue) in
  match next with
  | Some next => (Some next, runqueue)
  | None => (__scheduler_cfs runqueue true, runqueue)
  end.

(** Loop of [__scheduler_rm]. *)
Fixpoint rm_loop (ticks : Z) (l : list task_struct) (it : nat)
    (next : option nat) (next_np : Z) : option nat * list task_struct :=
  match l with
  | [] => (next, [])
  | entry :: l' =>
      if negb (is_periodic (se entry)) || is_under_analysis (se entry) then
        let '(next, l') := rm_loop ticks l' (S it) next next_np in
        (next, entry :: l')
      else if executed (se entry) && (next_period (se entry) <=? ticks) then
        let '(next, l') := rm_loop ticks l' (S it) next next_np in
        (next, start_next_period entry :: l')
      else if negb (executed (se entry)) && (next_period (se entry) <? next_np) then
        let '(next, l') :=
          rm_loop ticks l' (S it) (Some it) (next_period (se entry)) in
        (next, entry :: l')
      else
        let '(next, l') := rm_loop ticks l' (S it) next next_np in
        (next, entry :: l')
  end.

Definition __scheduler_rm (ticks : Z) (runqueue : runqueue_t)
  : option nat * runqueue_t :=
  let '(next, q) := rm_loop ticks (queue runqueue) 0 None UINT_MAX in
  let runqueue := mk_rq q (curr runqueue) in
  match next with
  | Some next => (Some next, runqueue)
  | None => (__scheduler_cfs runqueue true, runqueue)
  end.

(** [int this_lax = (deadline - timer_get_ticks()) - sum_exec_runtime]:
    the subtraction is done on unsigned 32-bit values and the result is
    converted to [int]. *)
Definition this_lax (ticks : Z) (entry : task_struct) : Z :=
  int32 (uint32 (uint32 (deadline (se entry) - ticks)
                 - sum_exec_runtime (se entry))).

(** Loop of [__scheduler_llf]. [min_lax] is a [time_t]: in
    [this_lax < min_lax] the [int] is converted to unsigned, and
    [min_lax = this_lax] stores the converted value. *)
Fixpoint llf_loop (ticks : Z) (l : list task_struct) (it : nat)
    (next : option nat) (min_lax : Z) : option nat * list task_struct :=
  match l with
  | [] => (next, [])
  | entry :: l' =>
      if negb (is_periodic (se entry)) || is_under_analysis (se entry) then
        let '(next, l') := llf_loop ticks l' (S it) next min_lax in
        (next, entry :: l')
      else if executed (se entry) && (next_period (se entry) <=? ticks) then
        let '(next, l') := llf_loop ticks l' (S it) next min_lax in
        (next, start_next_period entry :: l')
      else if negb (executed (se entry)) then
        let this_lax := this_lax ticks entry in
        if uint32 this_lax <? min_lax then
          let '(next, l') :=
            llf_loop ticks l' (S it) (Some it) (uint32 this_lax) in
          (next, entry :: l')
        else
          let '(next, l') := llf_loop ticks l' (S it) next min_lax in
          (next, entry :: l')
      else
        let '(next, l') := llf_loop ticks l' (S it) next min_lax in
        (next, entry :: l')
  end.

Definition __scheduler_llf (ticks : Z) (runqueue : runqueue_t)
  : option nat * runqueue_t :=
  let '(next, q) := llf_loop ticks (queue runqueue) 0 None UINT_MAX in
  let runqueue := mk_rq q (curr runqueue) in
  match next with
  | Some next => (Some next, runqueue)
  | None => (__scheduler_cfs runqueue true, runqueue)
  end.

Definition __update_task_statistics (ticks : Z) (task : task_struct)
  : task_struct :=
  let task := set_exec_runtime (uint32 (ticks - exec_start (se task))) task in
  let task := update_process_profiling_timer task in
  let task :=
    set_sum_exec_runtime
      (uint32 (sum_exec_runtime (se task) + exec_runtime (se task))) task in
  if negb (is_periodic (se task)) then
    let weight := GET_WEIGHT (prio (se task)) in
    let task :=
      if negb (weight =? NICE_0_LOAD) then
        set_exec_runtime (weighted_exec_runtime weight (exec_runtime (se task))) task
      else task in
    set_vruntime (uint32 (vruntime (se task) + exec_runtime (se task))) task
  else task.

Definition updates_statistics (defined : policy) : bool :=
  match defined with
  | SCHEDULER_CFS | SCHEDULER_EDF | SCHEDULER_RM | SCHEDULER_AEDF
  | SCHEDULER_LLF => true
  | _ => false
  end.

(** [scheduler_pick_next_task] with the algorithm [defined] enabled. The
    statistics update is applied to the task at position [curr]; its
    assertion [task] fails when there is no such task. *)
Definition scheduler_pick_next_task (defined : policy) (ticks : Z)
    (runqueue : runqueue_t) : result (nat * runqueue_t) :=
  runqueue ←
    (if updates_statistics defined then
       match queue runqueue !! curr runqueue with
       | None => AssertFail "Current task is not valid."
       | Some task =>
           Ok (mk_rq (<[curr runqueue := __update_task_statistics ticks task]>
                        (queue runqueue))
                     (curr runqueue))
       end
     else Ok runqueue);
  let '(next, runqueue) :=
    match defined with
    | SCHEDULER_RR => (__scheduler_rr runqueue false, runqueue)
    | SCHEDULER_PRIORITY => (__scheduler_priority defined runqueue false, runqueue)
    | SCHEDULER_CFS => (__scheduler_cfs runqueue false, runqueue)
    | SCHEDULER_EDF => __scheduler_edf ticks runqueue
    | SCHEDULER_RM => __scheduler_rm ticks runqueue
    | SCHEDULER_AEDF => (__scheduler_aedf runqueue, runqueue)
    | SCHEDULER_LLF => __scheduler_llf ticks runqueue
    end in
  match next with
  | None => AssertFail "No valid task selected by the scheduling algorithm."
  | Some next =>
      match queue runqueue !! next with
      | None => Fault "task out of range"
      | Some task =>
          Ok (next,
              mk_rq (<[next := set_exec_start ticks task]> (queue runqueue))
                    (curr runqueue))
      end
  end.

End Code.

(** ** What the picker writes *)

(** The period rollover applies to [entry] at [ticks]. *)
Definition rolls_over (ticks : Z) (entry : task_struct) : bool :=
  __is_periodic_task entry && executed (se entry)
  && (next_period (se entry) <=? ticks).

Definition roll (ticks : Z) (entry : task_struct) : task_struct :=
  if rolls_over ticks entry then start_next_period entry else entry.

Definition rolls_periods (defined : policy) : bool :=
  match defined with
  | SCHEDULER_EDF | SCHEDULER_RM | SCHEDULER_LLF => true
  | _ => false
  end.

Section Writes.

Variable TASK_RUNNING : Z.
Variable NICE_0_LOAD : Z.
Variable GET_WEIGHT : Z → Z.
Variable update_process_profiling_timer : task_struct → task_struct.
Variable weighted_exec_runtime : Z → Z → Z.

(** The task [t] is passed over by the Round-Robin traversal. *)
Definition rr_skips (skip_periodic : bool) (t : task_struct) : Prop :=
  state t ≠ TASK_RUNNING ∨ (__is_periodic_task t = true ∧ skip_periodic = true).

(** What a call that selects [next] leaves in the task at position [i]:
    under CFS, EDF, RM, AEDF and LLF the statistics of [curr] are updated
    first; under EDF, RM and LLF the period of the periodic tasks whose
    period has restarted is rolled over; the task selected gets
    [exec_start]. *)
Definition picker_writes (defined : policy) (ticks : Z) (runqueue : runqueue_t)
    (next i : nat) (t : task_struct) : task_struct :=
  let t :=
    if updates_statistics defined && bool_decide (i = curr runqueue) then
      __update_task_statistics NICE_0_LOAD GET_WEIGHT
        update_process_profiling_timer weighted_exec_runtime ticks t
    else t in
  let t := if rolls_periods defined then roll ticks t else t in
  if bool_decide (i = next) then set_exec_start ticks t else t.

End Writes.

(** ** Scenarios *)

(** Tasks of the scenarios. [TASK_RUNNING] is 0 there, and 1 stands for a
    state of a task that is not runnable. *)
Definition RUNNING : Z := 0.
Definition SLEEPING : Z := 1.

(** A task that is not periodic, with its state, priority and virtual
    runtime. *)
Definition aperiodic (state prio vruntime : Z) : task_struct :=
  mk_task state (mk_se prio 0 0 0 vruntime 0 0 0 false false false).

(** A periodic task that is not under analysis. *)
Definition periodic (state period deadline next_period sum_exec_runtime : Z)
    (executed : bool) : task_struct :=
  mk_task state
    (mk_se 120 0 0 sum_exec_runtime 0 period deadline next_period executed
           true false).

(** The functions of the missing headers, for the scenarios: every weight
    is [NICE_0_LOAD] and the profiling timer is off. *)
Definition NICE_0_LOAD : Z := 1024.
Definition GET_WEIGHT (prio : Z) : Z := 1024.
Definition no_profiling (task : task_struct) : task_struct := task.
Definition weighted (weight exec_runtime : Z) : Z := exec_runtime.

Definition pick_next_task (defined : policy) (ticks : Z) (runqueue : runqueue_t)
  : result (nat * runqueue_t) :=
  scheduler_pick_next_task RUNNING NICE_0_LOAD GET_WEIGHT no_profiling weighted
    defined ticks runqueue.

(** Scenario S4: the periodic task T, alone with a task that is not
    periodic; and T after the rollover. *)
Definition S4_T : task_struct := periodic RUNNING 100 150 100 0 true.
Definition S4_T_rolled : task_struct := periodic RUNNING 100 250 200 0 false.
Definition S4_runqueue : runqueue_t := mk_rq [aperiodic RUNNING 120 7; S4_T] 0.

(** The run queue of S4 after [scheduler_pick_next_task] under EDF at
    [ticks = 105]. *)
Definition S4_picked : runqueue_t :=
  mk_rq [mk_task RUNNING (mk_se 120 105 105 105 112 0 0 0 false false false);
         S4_T_rolled] 0.

(** Periodic tasks for the laxity comparison, at [ticks = 100]: laxity 70,
    laxity -10 (deadline missed) and laxity -1. *)
Definition lax_70 : task_struct := periodic RUNNING 1000 200 1000 30 false.
Definition lax_minus_10 : task_struct := periodic RUNNING 1000 90 1000 0 false.
Definition lax_minus_1 : task_struct := periodic RUNNING 1000 99 1000 0 false.

(** Run queues whose first task is not runnable and has the smallest key. *)
Definition sleeper_first : runqueue_t :=
  mk_rq [aperiodic SLEEPING 100 0; aperiodic RUNNING 120 10;
         aperiodic RUNNING 120 20] 1.

Definition periodic_sleeper_first : runqueue_t :=
  mk_rq [periodic SLEEPING 1000 50 40 0 false;
         periodic RUNNING 1000 100 90 0 false] 1.

(** Scenario S4 with a second periodic task U, not executed, whose
    deadline 300 is later than the deadline 250 of T after its rollover. *)
Definition S4_U : task_struct := periodic RUNNING 1000 300 1000 0 false.
Definition S4_with_U : runqueue_t :=
  mk_rq [aperiodic RUNNING 120 7; S4_T; S4_U] 0.

(** ** Vocabulary of the policies *)

(** The external [update_process_profiling_timer], whose source is not
    given, writes none of the fields below: it may write [exec_runtime],
    [sum_exec_runtime] and [vruntime] only. *)
Definition profiling_timer_frame (update : task_struct → task_struct) : Prop :=
  ∀ t, state (update t) = state t ∧
       prio (se (update t)) = prio (se t) ∧
       exec_start (se (update t)) = exec_start (se t) ∧
       period (se (update t)) = period (se t) ∧
       deadline (se (update t)) = deadline (se t) ∧
       next_period (se (update t)) = next_period (se t) ∧
       executed (se (update t)) = executed (se t) ∧
       is_periodic (se (update t)) = is_periodic (se t) ∧
       is_under_analysis (se (update t)) = is_under_analysis (se t).

(** The task passes the tests of the Round-Robin, Priority and CFS loops:
    it is RUNNING and is not a periodic task to be skipped. *)
Definition eligible (TASK_RUNNING : Z) (skip_periodic : bool)
    (t : task_struct) : bool :=
  (state t =? TASK_RUNNING) && negb (__is_periodic_task t && skip_periodic).

(** Position [j] is visited after [c] and before [n] by a traversal that
    starts after [c] and wraps around the end of the queue. *)
Definition circ_between (c j n : nat) : Prop :=
  (c < j < n)%nat ∨ (n < c ∧ (c < j ∨ j < n))%nat.

(** The task is compared by the loops of EDF, RM and LLF: it is periodic,
    not under analysis and not executed. *)
Definition rt_candidate (t : task_struct) : bool :=
  __is_periodic_task t && negb (executed (se t)).

(** The common shape of the loops of EDF, RM and LLF, with the key that is
    minimised as a parameter. *)
Fixpoint rt_loop (key : task_struct → Z) (ticks : Z) (l : list task_struct)
    (it : nat) (next : option nat) (min : Z) : option nat * list task_struct :=
  match l with
  | [] => (next, [])
  | entry :: l' =>
      if negb (is_periodic (se entry)) || is_under_analysis (se entry) then
        let '(next, l') := rt_loop key ticks l' (S it) next min in
        (next, entry :: l')
      else if executed (se entry) && (next_period (se entry) <=? ticks) then
        let '(next, l') := rt_loop key ticks l' (S it) next min in
        (next, start_next_period entry :: l')
      else if negb (executed (se entry)) && (key entry <? min) then
        let '(next, l') := rt_loop key ticks l' (S it) (Some it) (key entry) in
        (next, entry :: l')
      else
        let '(next, l') := rt_loop key ticks l' (S it) next min in
        (next, entry :: l')
  end.

(** The run queue as the loops of EDF, RM and LLF leave it. *)
Definition rolled (ticks : Z) (runqueue : runqueue_t) : runqueue_t :=
  mk_rq (roll ticks <$> queue runqueue) (curr runqueue).

End Sched.

(** * Reading the results of kernel code *)

Lemma bind_Ok {A B} (m : result A) (f : A → result B) (b : B) :
  m ≫= f = Ok b → ∃ a, m = Ok a ∧ f a = Ok b.
Proof. destruct m as [a| | |]; simpl; intros H; try discriminate. eauto. Qed.

Lemma bind_Ok_l {A B} (a : A) (f : A → result B) : Ok a ≫= f = f a.
Proof. done. Qed.

Lemma assert_Ok (e : bool) (msg : string) (u : unit) :
  assert e msg = Ok u → e = true.
Proof. destruct e; simpl; [done | discriminate]. Qed.

Tactic Notation "bind_inv" hyp(H) "as" ident(x) ident(Hx) :=
  apply bind_Ok in H; destruct H as (x & Hx & H).

(** * Part III: properties of the buddy system *)

Module BuddySpec.
Import Buddy.

(** ** Flags *)

Lemma test_clear_other (d : bb_page_t) (f g : Z) :
  f ≠ g → __bb_test_flag (__bb_clear_flag d f) g = __bb_test_flag d g.
Proof. intros. unfold __bb_test_flag, __bb_clear_flag, test_bit, clear_bit; simpl.
  by apply Z.clearbit_neq. Qed.

Lemma test_clear_same (d : bb_page_t) (f : Z) :
  __bb_test_flag (__bb_clear_flag d f) f = false.
Proof. apply Z.clearbit_eq. Qed.

Lemma test_set_other (d : bb_page_t) (f g : Z) :
  0 ≤ f → f ≠ g → __bb_test_flag (__bb_set_flag d f) g = __bb_test_flag d g.
Proof. intros. unfold __bb_test_flag, __bb_set_flag, test_bit, set_bit; simpl.
  by apply Z.setbit_neq. Qed.

Lemma test_set_same (d : bb_page_t) (f : Z) :
  0 ≤ f → __bb_test_flag (__bb_set_flag d f) f = true.
Proof. intros. by apply Z.setbit_eq. Qed.

Lemma test_set_order (d : bb_page_t) (o f : Z) :
  __bb_test_flag (set_order d o) f = __bb_test_flag d f.
Proof. done. Qed.

(** ** Descriptor reads and writes *)

Lemma load_page_Ok (instance : bb_instance_t) (p : Z) (d : bb_page_t) :
  load_page instance p = Ok d ↔ 0 ≤ p ∧ pages instance !! Z.to_nat p = Some d.
Proof.
  unfold load_page. destruct (Z.ltb_spec p 0).
  - split; [discriminate | lia].
  - destruct (pages instance !! Z.to_nat p) as [d'|]; split.
    + intros [= ->]. done.
    + intros [_ [= ->]]. done.
    + discriminate.
    + intros [_ ?]. discriminate.
Qed.

Lemma load_store_same (instance : bb_instance_t) (p : Z) (d0 d : bb_page_t) :
  load_page instance p = Ok d0 → load_page (store_page instance p d) p = Ok d.
Proof.
  rewrite !load_page_Ok. intros [Hp Hl]. split; [done|]. simpl.
  apply list_lookup_insert_eq. by eapply lookup_lt_Some.
Qed.

Lemma load_store_other (instance : bb_instance_t) (p q : Z) (d : bb_page_t) :
  0 ≤ p → p ≠ q → load_page (store_page instance p d) q = load_page instance q.
Proof.
  intros Hp Hne. unfold load_page. destruct (Z.ltb_spec q 0); [done|]. simpl.
  rewrite list_lookup_insert_ne; [done|]. intros E. apply Z2Nat.inj in E; lia.
Qed.

Lemma load_store (instance : bb_instance_t) (p q : Z) (d0 d : bb_page_t) :
  load_page instance p = Ok d0 →
  load_page (store_page instance p d) q =
    if decide (p = q) then Ok d else load_page instance q.
Proof.
  intros Hl. destruct (decide (p = q)) as [<-|Hne].
  - by eapply load_store_same.
  - apply load_store_other; [|done]. by apply load_page_Ok in Hl as [? _].
Qed.

(** ** The descriptor that was freed stays FREE *)

Lemma is_free_store (instance : bb_instance_t) (p q : Z) (dq d : bb_page_t) :
  is_free instance p →
  load_page instance q = Ok dq →
  __bb_test_flag d FREE_PAGE = __bb_test_flag dq FREE_PAGE →
  is_free (store_page instance q d) p.
Proof.
  intros (dp & Hp & Hfree) Hq Hd. unfold is_free.
  rewrite (load_store _ _ _ _ _ Hq). destruct (decide (q = p)) as [->|].
  - exists d. split; [done|]. rewrite Hd. congruence.
  - eauto.
Qed.

Section Proofs.

Variable MAX_BUDDYSYSTEM_GFP_ORDER : Z.
Local Abbreviation MAX := MAX_BUDDYSYSTEM_GFP_ORDER.

Lemma merge_blocks_is_free (n : nat) :
  ∀ (instance instance' : bb_instance_t) (page_idx order page_idx' order' p : Z),
    is_free instance p →
    merge_blocks MAX n instance page_idx order = Ok (instance', page_idx', order') →
    is_free instance' p.
Proof.
  induction n as [|n IH];
    intros instance instance' page_idx order page_idx' order' p Hfree H;
    simpl in H.
  - by inversion H; subst.
  - bind_inv H as b Hb. destruct (negb (__page_is_buddy b order)).
    + by inversion H; subst.
    + bind_inv H as area Harea. bind_inv H as b' Hb'. bind_inv H as d Hd.
      eapply IH; [|exact H].
      eapply is_free_store; [|exact Hd|by apply test_clear_other].
      eapply is_free_store; [|exact Hb'|by apply test_clear_other].
      exact Hfree.
Qed.

Lemma bb_free_pages_is_free (instance instance' : bb_instance_t) (page : Z) :
  bb_free_pages MAX instance page = Ok instance' → is_free instance' page.
Proof.
  unfold bb_free_pages. intros H. bind_inv H as d0 Hd0.
  destruct (__bb_test_flag d0 FREE_PAGE || negb (__bb_test_flag d0 ROOT_PAGE));
    [discriminate|].
  bind_inv H as merged Hmerged. destruct merged as [[instance1 page_idx] order1].
  bind_inv H as d1 Hd1. bind_inv H as area Harea. inversion H; subst; clear H.
  assert (Hfree : is_free instance1 page).
  { eapply merge_blocks_is_free; [|exact Hmerged].
    exists (__bb_set_flag d0 FREE_PAGE). split.
    - by eapply load_store_same.
    - by apply test_set_same. }
  unfold store_area.
  destruct (is_free_store instance1 page (__get_page_from_base 0 page_idx) d1
              (set_order (__bb_set_flag (__bb_set_flag d1 ROOT_PAGE) ROOT_PAGE)
                         order1)
              Hfree Hd1) as (d & Hd & Hf).
  { rewrite test_set_order, !test_set_other; done. }
  exists d. split; [exact Hd | exact Hf].
Qed.

(** ** Allocation *)

Lemma load_area_Ok (instance : bb_instance_t) (order : Z) (a : bb_free_area_t) :
  load_area MAX instance order = Ok a ↔
  0 ≤ order < MAX ∧ free_area instance !! Z.to_nat order = Some a.
Proof.
  unfold load_area.
  destruct (Z.leb_spec 0 order), (Z.ltb_spec order MAX); simpl;
    try (split; [discriminate | lia]).
  destruct (free_area instance !! Z.to_nat order) as [a'|]; split.
  - intros [= ->]. done.
  - intros [_ [= ->]]. done.
  - discriminate.
  - intros [_ ?]. discriminate.
Qed.

Lemma load_page_store_area (instance : bb_instance_t) (order q : Z)
    (a : bb_free_area_t) :
  load_page (store_area instance order a) q = load_page instance q.
Proof. done. Qed.

Lemma load_page_list_head_remove (instance : bb_instance_t) (p q : Z) :
  load_page (list_head_remove instance p) q = load_page instance q.
Proof. done. Qed.

Lemma find_block_None (n : nat) :
  ∀ (instance : bb_instance_t) (order : Z),
    0 ≤ order →
    (∀ k, order ≤ k < order + Z.of_nat n →
          k < MAX ∧ ∃ a, free_area instance !! Z.to_nat k = Some a ∧ free_list a = []) →
    find_block MAX instance n order = Ok None.
Proof.
  induction n as [|n IH]; intros instance order Hpos Hempty; simpl; [done|].
  destruct (Hempty order) as (Hlt & a & Ha & Hnil); [lia|].
  assert (Hload : load_area MAX instance order = Ok a) by (apply load_area_Ok; auto with lia).
  rewrite Hload, bind_Ok_l, Hnil. simpl.
  apply IH; [lia|]. intros k Hk. apply Hempty. lia.
Qed.

Lemma find_block_Some (n : nat) :
  ∀ (instance : bb_instance_t) (order current_order : Z),
    find_block MAX instance n order = Ok (Some current_order) →
    order ≤ current_order < order + Z.of_nat n ∧
    ∃ a page l, load_area MAX instance current_order = Ok a ∧ free_list a = page :: l.
Proof.
  induction n as [|n IH]; intros instance order current_order H; simpl in H;
    [discriminate|].
  bind_inv H as a Ha. destruct (free_list a) as [|page l] eqn:Hl; simpl in H.
  - apply IH in H as (? & ?). split; [lia | done].
  - inversion H; subst. split; [lia|]. eauto.
Qed.

(** What the splitting loop leaves alone: a descriptor it writes was FREE
    and not ROOT, and lies at least [size / 2^n] descriptors after [page]. *)
Lemma split_block_frame (n : nat) :
  ∀ (instance instance' : bb_instance_t) (page current_order size : Z),
    0 ≤ size →
    split_block MAX n instance page current_order size = Ok instance' →
    ∀ q, load_page instance' q = load_page instance q ∨
         (page + size / 2 ^ Z.of_nat n ≤ q ∧
          ∃ d, load_page instance q = Ok d ∧
               __bb_test_flag d FREE_PAGE = true ∧
               __bb_test_flag d ROOT_PAGE = false).
Proof.
  induction n as [|n IH]; intros instance instance' page current_order size Hsize H q;
    simpl in H.
  - inversion H; subst. by left.
  - bind_inv H as a Ha. bind_inv H as u Hu. apply assert_Ok in Hu.
    apply andb_true_iff in Hu as [Hfree Hroot]. apply negb_true_iff in Hroot.
    bind_inv H as area Harea.
    assert (Hdiv : size / 2 / 2 ^ Z.of_nat n = size / 2 ^ Z.of_nat (S n)).
    { rewrite Nat2Z.inj_succ, Z.pow_succ_r by lia. rewrite Z.div_div by lia. done. }
    assert (Hle : size / 2 ^ Z.of_nat (S n) ≤ size / 2).
    { rewrite <- Hdiv. apply Z.div_le_upper_bound; [lia|].
      assert (0 ≤ size / 2) by (apply Z.div_pos; lia).
      assert (1 ≤ 2 ^ Z.of_nat n) by (apply Z.pow_le_mono_r with (b := 0); lia).
      nia. }
    destruct (IH _ _ _ _ _ (Z.div_pos size 2 Hsize ltac:(lia)) H q) as [Heq | (Hq & d & Hd & Hflags)].
    + rewrite Heq, load_page_store_area, (load_store _ _ _ _ _ Ha).
      destruct (decide (__get_page_from_base page (size / 2) = q)) as [<-|]; [|by left].
      right. split; [unfold __get_page_from_base; lia|]. eauto.
    + right. split; [lia|].
      rewrite load_page_store_area, (load_store _ _ _ _ _ Ha) in Hd.
      destruct (decide (__get_page_from_base page (size / 2) = q)) as [<-|]; [|eauto].
      inversion Hd; subst. destruct Hflags as [_ Hr].
      rewrite test_set_same in Hr; done.
Qed.

Lemma shiftl_1_uint32 (k : Z) : 0 ≤ k < 32 → uint32 (Z.shiftl 1 k) = 2 ^ k.
Proof.
  intros Hk. rewrite Z.shiftl_1_l. unfold uint32. apply Z.mod_small.
  split; [apply Z.pow_nonneg; lia|].
  change 4294967296 with (2 ^ 32). apply Z.pow_lt_mono_r; lia.
Qed.

Lemma bb_alloc_pages_success (instance instance' : bb_instance_t) (order page : Z) :
  bb_alloc_pages MAX instance order = Ok (Some page, instance') →
  ∃ current_order a l d0,
    order ≤ current_order < MAX ∧
    load_area MAX instance current_order = Ok a ∧ free_list a = page :: l ∧
    load_page instance page = Ok d0 ∧
    (∃ d, load_page instance' page = Ok d ∧
          __bb_test_flag d FREE_PAGE = false ∧ __bb_test_flag d ROOT_PAGE = true ∧
          Buddy.order d = order) ∧
    ∀ q, q ≠ page →
         load_page instance' q = load_page instance q ∨
         (page + uint32 (Z.shiftl 1 current_order)
                   / 2 ^ Z.of_nat (Z.to_nat (current_order - order)) ≤ q).
Proof.
  unfold bb_alloc_pages. intros H. bind_inv H as found Hfound.
  destruct found as [current_order|]; [|by inversion H].
  apply find_block_Some in Hfound as (Hrange & a & page0 & l & Harea & Hlist).
  rewrite Harea, bind_Ok_l, Hlist in H.
  bind_inv H as a1 Ha1. bind_inv H as d0 Hd0. bind_inv H as u Hu.
  apply assert_Ok in Hu. apply andb_true_iff in Hu as [Hfree Hroot].
  bind_inv H as i3 Hsplit. bind_inv H as d3 Hd3.
  inversion H; subst page0 instance'; clear H.
  set (i1 := store_area (list_head_remove instance page) current_order
               (mk_area (free_list a1) (int32 (nr_free a1 - 1)))) in *.
  assert (Hi1 : ∀ q, load_page i1 q = load_page instance q) by done.
  set (i2 := store_page i1 page (__bb_clear_flag d0 FREE_PAGE)) in *.
  assert (Hsize : 0 ≤ uint32 (Z.shiftl 1 current_order)) by (apply Z.mod_pos_bound; lia).
  pose proof (split_block_frame _ _ _ _ _ _ Hsize Hsplit) as Hframe.
  assert (Hhead : load_page i3 page = Ok (__bb_clear_flag d0 FREE_PAGE)).
  { destruct (Hframe page) as [-> | (_ & d & Hd & Hf & _)].
    - by eapply load_store_same.
    - unfold i2 in Hd. rewrite (load_store_same _ _ _ _ Hd0) in Hd.
      inversion Hd; subst. by rewrite test_clear_same in Hf. }
  rewrite Hhead in Hd3. inversion Hd3; subst d3; clear Hd3.
  apply load_area_Ok in Harea as Harea'. destruct Harea' as [Hco _].
  exists current_order, a, l, d0.
  split; [lia|]. split; [done|]. split; [done|].
  split; [by rewrite <- Hi1|]. split.
  - eexists. split; [by eapply load_store_same|].
    rewrite !test_set_order, test_clear_same, test_clear_other by done. done.
  - intros q Hq. rewrite (load_store _ _ _ _ _ Hhead).
    destruct (decide (page = q)); [congruence|].
    destruct (Hframe q) as [Heq | (Hle & _)]; [left | right; done].
    rewrite Heq. unfold i2. rewrite (load_store _ _ _ _ _ Hd0).
    destruct (decide (page = q)); [congruence|]. apply Hi1.
Qed.

(** ** Allocation succeeds on a well-formed instance *)

Lemma areas_present_load (instance : bb_instance_t) (k : Z) :
  areas_present MAX instance → 0 ≤ k < MAX →
  ∃ a, load_area MAX instance k = Ok a.
Proof.
  intros Hlen Hk. destruct (lookup_lt_is_Some_2 (free_area instance) (Z.to_nat k))
    as [a Ha]; [unfold areas_present in Hlen; lia|].
  exists a. by apply load_area_Ok.
Qed.

Lemma find_block_finds (instance : bb_instance_t) (n : nat) :
  ∀ order,
    areas_present MAX instance → 0 ≤ order → order + Z.of_nat n ≤ MAX →
    (∃ k a, order ≤ k < order + Z.of_nat n ∧
            free_area instance !! Z.to_nat k = Some a ∧ free_list a ≠ []) →
    ∃ current_order, find_block MAX instance n order = Ok (Some current_order).
Proof.
  induction n as [|n IH]; intros order Hlen Hpos Hmax (k & a & Hk & Ha & Hne);
    [lia|]. simpl.
  destruct (areas_present_load instance order Hlen) as [a0 Ha0]; [lia|].
  rewrite Ha0, bind_Ok_l.
  destruct (free_list a0) as [|page l] eqn:Hl0; simpl; [|by eexists].
  apply IH; [done | lia | lia |]. exists k, a. split; [|done].
  destruct (decide (k = order)) as [->|]; [|lia].
  apply load_area_Ok in Ha0 as [_ Ha0]. congruence.
Qed.

Lemma split_block_succeeds (n : nat) :
  ∀ (instance : bb_instance_t) (page current_order : Z),
    areas_present MAX instance → 0 ≤ page →
    Z.of_nat n ≤ current_order < MAX →
    (∀ j, page < j < page + 2 ^ current_order →
          ∃ d, load_page instance j = Ok d ∧
               __bb_test_flag d FREE_PAGE = true ∧
               __bb_test_flag d ROOT_PAGE = false) →
    ∃ instance',
      split_block MAX n instance page current_order (2 ^ current_order)
        = Ok instance'.
Proof.
  induction n as [|n IH]; intros instance page co Hlen Hpage Hco Hinterior;
    cbn [split_block]; [by eexists|].
  assert (Hhalf : 2 ^ co / 2 = 2 ^ (co - 1)).
  { replace co with (co - 1 + 1) at 1 by lia.
    rewrite Z.pow_add_r by lia. apply Z.div_mul. lia. }
  assert (Hpos : 0 < 2 ^ (co - 1)) by (apply Z.pow_pos_nonneg; lia).
  assert (Hdouble : 2 ^ co = 2 * 2 ^ (co - 1)).
  { replace co with (co - 1 + 1) at 1 by lia. rewrite Z.pow_add_r by lia. lia. }
  rewrite Hhalf. unfold __get_page_from_base.
  destruct (Hinterior (page + 2 ^ (co - 1))) as (b & Hb & Hfree & Hroot); [lia|].
  rewrite Hb, bind_Ok_l, Hfree, Hroot. simpl.
  set (i1 := store_page instance (page + 2 ^ (co - 1))
               (__bb_set_flag (set_order b (co - 1)) ROOT_PAGE)).
  destruct (areas_present_load i1 (co - 1)) as [a Ha]; [done | lia|].
  rewrite Ha, bind_Ok_l. apply IH; [|done|lia|].
  - unfold areas_present, store_area. simpl. by rewrite length_insert.
  - intros j Hj. rewrite load_page_store_area. unfold i1.
    rewrite load_store_other by lia. apply Hinterior. lia.
Qed.

(** On an instance whose listed blocks are well formed, [bb_alloc_pages]
    returns a block whenever a free area of the requested order or of a
    larger one is not empty. *)
Lemma bb_alloc_pages_succeeds (instance : bb_instance_t) (order : Z) :
  MAX ≤ 32 → 0 ≤ order →
  areas_present MAX instance → free_heads_flagged MAX instance → free_lists_wf MAX instance →
  (∃ k a, order ≤ k < MAX ∧
          free_area instance !! Z.to_nat k = Some a ∧ free_list a ≠ []) →
  ∃ page instance', bb_alloc_pages MAX instance order = Ok (Some page, instance').
Proof.
  intros Hmax Hpos Hlen Hflags Hwf (k & a & Hk & Ha & Hne).
  destruct (find_block_finds instance (Z.to_nat (MAX - order)) order)
    as [co Hfind]; [done | done | lia | |].
  { exists k, a. split; [lia | done]. }
  unfold bb_alloc_pages. rewrite Hfind, bind_Ok_l.
  apply find_block_Some in Hfind as (Hco & a0 & page & l & Ha0 & Hl0).
  rewrite Ha0, bind_Ok_l, Hl0.
  apply load_area_Ok in Ha0 as Ha0'. destruct Ha0' as [Hco' Ha0'].
  destruct (Hflags co a0 page) as (d0 & Hd0 & Hfree & Hroot);
    [done | done | rewrite Hl0; left |].
  assert (Hblock : free_block instance co page).
  { eapply Hwf; [exact Hco' | exact Ha0' |]. rewrite Hl0. left. }
  destruct (areas_present_load (list_head_remove instance page) co)
    as [a1 Ha1]; [|done|].
  { unfold areas_present, list_head_remove. simpl. by rewrite length_fmap. }
  rewrite Ha1, bind_Ok_l, load_page_store_area, load_page_list_head_remove.
  rewrite Hd0, bind_Ok_l, Hfree, Hroot. simpl.
  set (i1 := store_area (list_head_remove instance page) co
               (mk_area (free_list a1) (int32 (nr_free a1 - 1)))).
  set (i2 := store_page i1 page (__bb_clear_flag d0 FREE_PAGE)).
  assert (Hpage : 0 ≤ page) by (by apply load_page_Ok in Hd0 as [? _]).
  rewrite shiftl_1_uint32 by lia.
  destruct (split_block_succeeds (Z.to_nat (co - order)) i2 page co)
    as [i3 Hsplit]; [|done|lia| |].
  { unfold areas_present, i2, i1, store_area, list_head_remove. simpl.
    by rewrite length_insert, length_fmap. }
  { intros j Hj. unfold i2. rewrite load_store_other by lia. by apply Hblock. }
  rewrite Hsplit, bind_Ok_l.
  assert (Hhead : load_page i3 page = Ok (__bb_clear_flag d0 FREE_PAGE)).
  { assert (Hsize : 0 ≤ 2 ^ co) by (apply Z.pow_nonneg; lia).
    assert (Hd1 : load_page i1 page = Ok d0) by exact Hd0.
    destruct (split_block_frame _ _ _ _ _ _ Hsize Hsplit page)
      as [-> | (_ & d & Hd & Hf & _)].
    - by eapply load_store_same.
    - unfold i2 in Hd. rewrite (load_store_same _ _ _ _ Hd1) in Hd.
      inversion Hd; subst. by rewrite test_clear_same in Hf. }
  rewrite Hhead, bind_Ok_l. by eexists _, _.
Qed.

(** C9: exhaustion and success of [bb_alloc_pages]. (1) When every free
    area from the requested order up to the largest one has an empty list,
    the call returns null and the instance is the one it was given. (2) On
    success the head returned has FREE clear, ROOT set and the requested
    order. (3) When the blocks on the free lists lie inside the descriptor
    array with interior descriptors that are not ROOT, the head returned is
    followed by [2^order - 1] descriptors of the array, none of them a block
    head: it heads [2^order] contiguous frames. (4) On such an instance,
    with its free areas present and the listed heads FREE and ROOT, the call
    does succeed whenever a free area of the requested order or of a larger
    one is not empty. *)
Theorem C9_alloc_exhaustion_and_success (instance : bb_instance_t) (order : Z) :
  (0 ≤ order →
   (∀ k, order ≤ k < MAX →
         ∃ a, free_area instance !! Z.to_nat k = Some a ∧ free_list a = []) →
   bb_alloc_pages MAX instance order = Ok (None, instance)) ∧
  (∀ page instance',
     bb_alloc_pages MAX instance order = Ok (Some page, instance') →
     ∃ d, load_page instance' page = Ok d ∧
          __bb_test_flag d FREE_PAGE = false ∧
          __bb_test_flag d ROOT_PAGE = true ∧
          Buddy.order d = order) ∧
  (∀ page instance',
     MAX ≤ 32 → 0 ≤ order → free_lists_wf MAX instance →
     bb_alloc_pages MAX instance order = Ok (Some page, instance') →
     ∀ j, page < j < page + 2 ^ order →
          ∃ d, load_page instance' j = Ok d ∧ __bb_test_flag d ROOT_PAGE = false) ∧
  (MAX ≤ 32 → 0 ≤ order →
   areas_present MAX instance → free_heads_flagged MAX instance →
   free_lists_wf MAX instance →
   (∃ k a, order ≤ k < MAX ∧
           free_area instance !! Z.to_nat k = Some a ∧ free_list a ≠ []) →
   ∃ page instance',
     bb_alloc_pages MAX instance order = Ok (Some page, instance')).
Proof.
  split; [|split; [|split; [|by apply bb_alloc_pages_succeeds]]].
  - intros Hpos Hempty. unfold bb_alloc_pages.
    rewrite find_block_None; [done | done |].
    intros k Hk. split; [lia|]. apply Hempty. lia.
  - intros page instance' H.
    apply bb_alloc_pages_success in H as (_ & _ & _ & _ & _ & _ & _ & _ & H & _).
    exact H.
  - intros page instance' Hmax Hpos Hwf H j Hj.
    apply bb_alloc_pages_success
      in H as (co & a & l & d0 & Hco & Harea & Hlist & _ & _ & Hframe).
    apply load_area_Ok in Harea as [Hco' Ha].
    assert (Hblock : free_block instance co page).
    { eapply Hwf; [exact Hco' | exact Ha |]. rewrite Hlist. left. }
    assert (Hpow : 2 ^ order ≤ 2 ^ co) by (apply Z.pow_le_mono_r; lia).
    destruct (Hblock j) as (d & Hd & _ & Hroot); [lia|].
    destruct (Hframe j) as [Heq | Hle]; [lia | |].
    + exists d. by rewrite Heq.
    + rewrite shiftl_1_uint32, Z2Nat.id in Hle by lia.
      rewrite <- Z.pow_sub_r in Hle by lia.
      replace (co - (co - order)) with order in Hle by lia. lia.
Qed.

(** ** Freeing returns on a well-formed instance *)

Lemma load_page_in_range (instance : bb_instance_t) (p : Z) :
  0 ≤ p < Z.of_nat (length (pages instance)) →
  ∃ d, load_page instance p = Ok d.
Proof.
  intros Hp. destruct (lookup_lt_is_Some_2 (pages instance) (Z.to_nat p))
    as [d Hd]; [lia|].
  exists d. apply load_page_Ok. split; [lia | done].
Qed.

(** Two indices in the same block of [2^m] descriptors. *)
Lemma same_chunk_bound (m x y len : Z) :
  0 ≤ m → (2 ^ m | len) → 0 ≤ x < len → y / 2 ^ m = x / 2 ^ m → y < len.
Proof.
  intros Hm [c ->] Hx Hy.
  assert (Hpow : 0 < 2 ^ m) by (apply Z.pow_pos_nonneg; lia).
  assert (Hq : x / 2 ^ m < c) by (apply Z.div_lt_upper_bound; lia).
  pose proof (Z.div_mod y (2 ^ m) ltac:(lia)) as Hdm.
  pose proof (Z.mod_pos_bound y (2 ^ m) Hpow) as Hmod.
  rewrite Hy in Hdm. nia.
Qed.

Lemma buddy_same_chunk (m x k : Z) :
  0 ≤ k < m → Z.lxor x (2 ^ k) / 2 ^ m = x / 2 ^ m.
Proof.
  intros Hk. rewrite <- !Z.shiftr_div_pow2 by lia.
  rewrite Z.shiftr_lxor, (Z.shiftr_div_pow2 (2 ^ k)) by lia.
  rewrite Z.div_small, Z.lxor_0_r; [done|].
  split; [apply Z.pow_nonneg; lia | apply Z.pow_lt_mono_r; lia].
Qed.

Lemma merged_same_chunk (m x k : Z) :
  0 ≤ k < m → Z.land x (Z.lxor x (2 ^ k)) / 2 ^ m = x / 2 ^ m.
Proof.
  intros Hk. rewrite <- !Z.shiftr_div_pow2 by lia.
  rewrite Z.shiftr_land, !Z.shiftr_div_pow2, buddy_same_chunk by lia.
  apply Z.land_diag.
Qed.

Lemma merge_blocks_returns (n : nat) :
  ∀ (instance : bb_instance_t) (page_idx order : Z),
    1 ≤ MAX ≤ 32 →
    areas_present MAX instance → pages_aligned MAX instance →
    0 ≤ page_idx < Z.of_nat (length (pages instance)) →
    0 ≤ order → order + Z.of_nat n ≤ MAX - 1 →
    ∃ instance' page_idx' order',
      merge_blocks MAX n instance page_idx order
        = Ok (instance', page_idx', order') ∧
      areas_present MAX instance' ∧
      length (pages instance') = length (pages instance) ∧
      0 ≤ page_idx' < Z.of_nat (length (pages instance)) ∧
      0 ≤ order' ≤ MAX - 1.
Proof.
  induction n as [|n IH];
    intros instance page_idx order Hmax Hareas Haligned Hidx Horder Hn;
    cbn [merge_blocks].
  - exists instance, page_idx, order. repeat split; try done; lia.
  - unfold __get_page_from_base, __get_buddy_at_index.
    rewrite shiftl_1_uint32, !Z.add_0_l by lia.
    set (buddy := Z.lxor page_idx (2 ^ order)).
    assert (Hbuddy : 0 ≤ buddy < Z.of_nat (length (pages instance))).
    { split.
      - apply Z.lxor_nonneg. split; intros _; [apply Z.pow_nonneg|]; lia.
      - apply (same_chunk_bound (MAX - 1) page_idx); [lia | done | done |].
        apply buddy_same_chunk. lia. }
    destruct (load_page_in_range instance buddy Hbuddy) as [b Hb].
    rewrite Hb, bind_Ok_l.
    destruct (negb (__page_is_buddy b order)).
    { exists instance, page_idx, order. repeat split; try done; lia. }
    set (i1 := list_head_remove instance buddy).
    assert (Hareas1 : areas_present MAX i1).
    { unfold areas_present, i1, list_head_remove. simpl. by rewrite length_fmap. }
    destruct (areas_present_load i1 order Hareas1) as [a Ha]; [lia|].
    assert (Hb1 : load_page i1 buddy = Ok b) by exact Hb.
    rewrite Ha, bind_Ok_l, load_page_store_area, Hb1, bind_Ok_l.
    set (i2 := store_page (store_area i1 order
                             (mk_area (free_list a) (int32 (nr_free a - 1))))
                          buddy (__bb_clear_flag b ROOT_PAGE)).
    assert (Hlen2 : length (pages i2) = length (pages instance)).
    { unfold i2. simpl. by rewrite length_insert. }
    destruct (load_page_in_range i2 page_idx) as [d Hd]; [by rewrite Hlen2|].
    rewrite Hd, bind_Ok_l.
    set (i3 := store_page i2 page_idx (__bb_clear_flag d ROOT_PAGE)).
    assert (Hlen3 : length (pages i3) = length (pages instance)).
    { unfold i3. simpl. by rewrite length_insert. }
    destruct (IH i3 (Z.land page_idx buddy) (order + 1)) as
      (instance' & page_idx' & order' & Hmerge & Hareas' & Hlen' & Hidx' & Horder');
      [done | | | | lia | lia |].
    + unfold areas_present, i3, i2, i1, store_area, list_head_remove. simpl.
      by rewrite length_insert, length_fmap.
    + unfold pages_aligned. by rewrite Hlen3.
    + rewrite Hlen3. split.
      * apply Z.land_nonneg. lia.
      * apply (same_chunk_bound (MAX - 1) page_idx); [lia | done | done |].
        apply merged_same_chunk. lia.
    + exists instance', page_idx', order'.
      split; [done|]. split; [done|]. split; [congruence|].
      split; [by rewrite <- Hlen3 | done].
Qed.

(** On an instance with its free areas and a descriptor array of aligned
    size, [bb_free_pages] returns for every descriptor that is not FREE,
    is ROOT and has an order below [MAX_BUDDYSYSTEM_GFP_ORDER]. *)
Lemma bb_free_pages_returns (instance : bb_instance_t) (page : Z)
    (d : bb_page_t) :
  1 ≤ MAX ≤ 32 →
  areas_present MAX instance → pages_aligned MAX instance →
  load_page instance page = Ok d →
  __bb_test_flag d FREE_PAGE = false →
  __bb_test_flag d ROOT_PAGE = true →
  0 ≤ Buddy.order d < MAX →
  ∃ instance', bb_free_pages MAX instance page = Ok instance'.
Proof.
  intros Hmax Hareas Haligned Hd Hfree Hroot Horder.
  unfold bb_free_pages. rewrite Hd, bind_Ok_l, Hfree, Hroot. simpl.
  set (i1 := store_page instance page (__bb_set_flag d FREE_PAGE)).
  assert (Hlen1 : length (pages i1) = length (pages instance)).
  { unfold i1. simpl. by rewrite length_insert. }
  assert (Hpage : 0 ≤ page < Z.of_nat (length (pages instance))).
  { apply load_page_Ok in Hd as [Hpos Hl]. apply lookup_lt_Some in Hl. lia. }
  destruct (merge_blocks_returns
              (Z.to_nat (MAX - 1 - Buddy.order d)) i1 page (Buddy.order d))
    as (i2 & page_idx & order' & Hmerge & Hareas2 & Hlen2 & Hidx & Horder');
    [done | done | | | lia | lia |].
  { unfold pages_aligned. by rewrite Hlen1. }
  { by rewrite Hlen1. }
  rewrite Hmerge, bind_Ok_l. unfold __get_page_from_base.
  change (0 + page_idx) with page_idx.
  destruct (load_page_in_range i2 page_idx) as [d2 Hd2];
    [rewrite Hlen2; lia|].
  rewrite Hd2, bind_Ok_l.
  set (i3 := store_page i2 page_idx _).
  destruct (areas_present_load i3 order') as [a Ha]; [done | lia|].
  rewrite Ha, bind_Ok_l. by eexists.
Qed.

(** C8: [bb_free_pages] on a descriptor whose FREE flag is set, or whose
    ROOT flag is clear, stops the kernel with the panic message
    "Double deallocation in buddy system!"; it does not return. In
    particular, when a call of [bb_free_pages] on [page] has returned, a
    second call on the same [page] panics with that message; and on an
    instance with its free areas and a descriptor array of aligned size, the
    first call on an allocated head does return, so that freeing the head
    twice panics on the second call. *)
Theorem C8_double_free_panics (instance : bb_instance_t) (page : Z) :
  (∀ d, load_page instance page = Ok d →
        __bb_test_flag d FREE_PAGE = true ∨ __bb_test_flag d ROOT_PAGE = false →
        bb_free_pages MAX instance page
          = Panic "Double deallocation in buddy system!") ∧
  (∀ instance', bb_free_pages MAX instance page = Ok instance' →
        bb_free_pages MAX instance' page
          = Panic "Double deallocation in buddy system!") ∧
  (∀ d, 1 ≤ MAX ≤ 32 →
        areas_present MAX instance → pages_aligned MAX instance →
        load_page instance page = Ok d →
        __bb_test_flag d FREE_PAGE = false →
        __bb_test_flag d ROOT_PAGE = true →
        0 ≤ Buddy.order d < MAX →
        ∃ instance',
          bb_free_pages MAX instance page = Ok instance' ∧
          bb_free_pages MAX instance' page
            = Panic "Double deallocation in buddy system!") ∧
  String.prefix "Double deallocation" "Double deallocation in buddy system!"
    = true.
Proof.
  assert (Hpanic : ∀ i d, load_page i page = Ok d →
            __bb_test_flag d FREE_PAGE = true ∨ __bb_test_flag d ROOT_PAGE = false →
            bb_free_pages MAX i page = Panic "Double deallocation in buddy system!").
  { intros i d Hd Hflags. unfold bb_free_pages. rewrite Hd, bind_Ok_l.
    destruct Hflags as [-> | ->]; [done|]. by rewrite orb_true_r. }
  assert (Hsecond : ∀ instance', bb_free_pages MAX instance page = Ok instance' →
            bb_free_pages MAX instance' page
              = Panic "Double deallocation in buddy system!").
  { intros instance' Hfree.
    apply bb_free_pages_is_free in Hfree as (d & Hd & Hf). eapply Hpanic; eauto. }
  split; [by apply Hpanic|]. split; [exact Hsecond|]. split; [|done].
  intros d Hmax Hareas Haligned Hd Hfree Hroot Horder.
  destruct (bb_free_pages_returns instance page d) as [instance' Hfirst];
    try done.
  exists instance'. split; [done | by apply Hsecond].
Qed.

(** ** The single-page cache *)

(** Above the low watermark [__cached_alloc] pops the front of the cache
    list and leaves [free_pages_cache_size] as it found it. *)
Lemma __cached_alloc_keeps_size (instance : bb_instance_t) :
  LOW_WATERMARK_LEVEL ≤ free_pages_cache_size instance →
  __cached_alloc MAX instance =
    Ok (list_entry (fst (list_head_pop (free_pages_cache_list instance))),
        with_cache instance
          (snd (list_head_pop (free_pages_cache_list instance)))
          (free_pages_cache_size instance)).
Proof.
  intros Hlow. unfold __cached_alloc.
  destruct (Z.ltb_spec (free_pages_cache_size instance) LOW_WATERMARK_LEVEL);
    [lia|].
  rewrite bind_Ok_l. by destruct (list_head_pop (free_pages_cache_list instance)).
Qed.

(** Up to the high watermark [__cached_free] pushes the page on the cache
    list and leaves [free_pages_cache_size] as it found it. *)
Lemma __cached_free_keeps_size (instance : bb_instance_t) (page : Z)
    (d : bb_page_t) :
  free_pages_cache_size instance ≤ HIGH_WATERMARK_LEVEL →
  load_page instance page = Ok d →
  __cached_free MAX instance page =
    Ok (with_cache instance (page :: free_pages_cache_list instance)
                   (free_pages_cache_size instance)).
Proof.
  intros Hhigh Hd. unfold __cached_free. rewrite Hd, bind_Ok_l. simpl.
  by destruct (Z.gtb_spec (free_pages_cache_size instance) HIGH_WATERMARK_LEVEL);
    [lia|].
Qed.

End Proofs.

(** ** The scenarios of the specification, on the code *)

Lemma S1_fresh_wf : free_lists_wf 4 S1_fresh.
Proof.
  intros k a i Hk Ha Hi j Hj.
  assert (Hcases : k = 0 ∨ k = 1 ∨ k = 2 ∨ k = 3) by lia.
  destruct Hcases as [-> | [-> | [-> | ->]]]; inversion Ha; subst a;
    simpl in Hi; try (by apply elem_of_nil in Hi).
  apply list_elem_of_singleton in Hi as ->.
  assert (Hj' : j = 1 ∨ j = 2 ∨ j = 3 ∨ j = 4 ∨ j = 5 ∨ j = 6 ∨ j = 7)
    by (change (2 ^ 3) with 8 in Hj; lia).
  destruct Hj' as [-> | [-> | [-> | [-> | [-> | [-> | ->]]]]]];
    by exists (mk_page 1 0).
Qed.

Lemma S1_fresh_flagged : free_heads_flagged 4 S1_fresh.
Proof.
  intros k a i Hk Ha Hi.
  assert (Hcases : k = 0 ∨ k = 1 ∨ k = 2 ∨ k = 3) by lia.
  destruct Hcases as [-> | [-> | [-> | ->]]]; inversion Ha; subst a;
    simpl in Hi; try (by apply elem_of_nil in Hi).
  apply list_elem_of_singleton in Hi as ->. by exists (mk_page 3 3).
Qed.

(** The hypotheses of [bb_alloc_pages_succeeds] hold after initialisation. *)
Lemma S1_fresh_alloc_succeeds (order : Z) :
  0 ≤ order < 4 →
  ∃ page instance', bb_alloc_pages 4 S1_fresh order = Ok (Some page, instance').
Proof.
  intros Horder.
  apply bb_alloc_pages_succeeds;
    [lia | lia | reflexivity | exact S1_fresh_flagged | exact S1_fresh_wf |].
  exists 3, (mk_area [0] 1). split; [lia|]. split; [reflexivity | discriminate].
Qed.

(** A block of the largest order is not coalesced: [bb_free_pages] links it
    in front of the list of its area and returns, and the counter of the
    area is the one found. *)
Lemma bb_free_pages_largest_order (MAX : Z) (instance instance' : bb_instance_t)
    (page : Z) (d : bb_page_t) (a : bb_free_area_t) :
  load_page instance page = Ok d →
  Buddy.order d = MAX - 1 →
  load_area MAX instance (MAX - 1) = Ok a →
  bb_free_pages MAX instance page = Ok instance' →
  load_area MAX instance' (MAX - 1) = Ok (mk_area (page :: free_list a) (nr_free a)).
Proof.
  intros Hd Ho Ha. unfold bb_free_pages. rewrite Hd, bind_Ok_l, Ho.
  destruct (__bb_test_flag d FREE_PAGE || negb (__bb_test_flag d ROOT_PAGE));
    [discriminate|].
  replace (MAX - 1 - (MAX - 1)) with 0 by lia. simpl.
  intros H. bind_inv H as d' Hd'. bind_inv H as a' Ha'. inversion H; subst; clear H.
  rewrite load_area_Ok in Ha, Ha'. destruct Ha as [Hr Ha], Ha' as [_ Ha'].
  simpl in Ha'. rewrite Ha in Ha'. inversion Ha'; subst a'.
  apply load_area_Ok. split; [done|]. simpl.
  apply list_lookup_insert_eq. by eapply lookup_lt_Some.
Qed.

(** C1: the round trip of scenario S1 on the code. An instance of eight
    pages with [MAX_ORDER = 4] is initialised, [bb_alloc_pages] of order 0
    returns descriptor 0, and [bb_free_pages] of that descriptor coalesces
    the block back to order 3 and links it in the list of area 3, which then
    holds one block, while the counter of area 3 stays 0:
    [bb_free_pages] does not increment [nr_free] of the destination area, so
    the counter is neither [size / 2^(MAX_ORDER-1) = 1] nor the length of
    the list. *)
Theorem C1_free_pages_leaves_nr_free_behind :
  buddy_system_init 4 16 empty_cache_instance "zone" (zeroed 8) 0 32 8
    = Ok S1_fresh ∧
  counters S1_fresh = [0; 0; 0; 1] ∧
  bb_alloc_pages 4 S1_fresh 0 = Ok (Some 0, S1_allocated) ∧
  counters S1_allocated = [1; 1; 1; 0] ∧
  bb_free_pages 4 S1_allocated 0 = Ok S1_freed ∧
  counters S1_freed = [0; 0; 0; 0] ∧
  free_lists S1_freed = [[]; []; []; [0]] ∧
  size S1_freed / 2 ^ (4 - 1) = 1.
Proof. repeat split; vm_compute; reflexivity. Qed.

(** C2: scenario S2 on the code, on an instance of 128 pages with
    [MAX_ORDER = 4]. The first of five [bb_alloc_page_cached] calls refills
    the cache with 40 pages; the five calls pop five pages, and
    [free_pages_cache_size] is still 40, not 35, with 35 pages in the cache
    list. The 71 calls of [bb_free_page_cached] that follow push 71 pages;
    [free_pages_cache_size] stays 40 throughout, so no call sees it above
    the high watermark and no page goes back to the buddy system: the cache
    list ends with 106 pages. *)
Theorem C2_cache_size_not_maintained :
  ∃ fresh popped direct cached given refilled,
    buddy_system_init 4 16 empty_cache_instance "zone" (zeroed 128) 0 32 128
      = Ok fresh ∧
    free_pages_cache_size fresh = 0 ∧
    alloc_cached_times 4 5 fresh = Ok (popped, cached) ∧
    popped = [entry_at 39; entry_at 38; entry_at 37; entry_at 36;
              entry_at 35] ∧
    free_pages_cache_size cached = 40 ∧
    length (free_pages_cache_list cached) = 35%nat ∧
    alloc_times 4 66 cached = Ok (direct, given) ∧
    popped = entry_at <$> take 5 S2_pages ∧
    direct = Some <$> drop 5 S2_pages ∧
    length S2_pages = 71%nat ∧
    free_cached_all 4 S2_pages given = Ok refilled ∧
    free_pages_cache_size refilled = 40 ∧
    length (free_pages_cache_list refilled) = 106%nat ∧
    counters refilled = counters given.
Proof.
  do 6 eexists.
  split; [vm_compute; reflexivity|]. split; [reflexivity|].
  split; [vm_compute; reflexivity|]. split; [reflexivity|].
  split; [reflexivity|]. split; [reflexivity|].
  split; [vm_compute; reflexivity|]. split; [reflexivity|].
  split; [reflexivity|]. split; [reflexivity|].
  split; [vm_compute; reflexivity|].
  repeat split; reflexivity.
Qed.

Lemma uint32_add (a b : Z) : uint32 (uint32 a + uint32 b) = uint32 (a + b).
Proof. unfold uint32. symmetry. apply Zplus_mod. Qed.

Lemma cached_space_loop_sum (MAX PAGE_SIZE : Z) (instance : bb_instance_t)
    (n : nat) :
  ∀ size,
    cached_space_loop PAGE_SIZE n instance (uint32 size) =
    uint32 (size + Z.of_nat n * (free_pages_cache_size instance * PAGE_SIZE)).
Proof.
  induction n as [|n IH]; intros size0.
  - simpl. f_equal. lia.
  - cbn [cached_space_loop]. rewrite uint32_add, IH. f_equal. lia.
Qed.

(** [buddy_system_get_cached_space] adds [cache_size * PAGE_SIZE] once per
    order. *)
Lemma buddy_system_get_cached_space_eq (MAX PAGE_SIZE : Z)
    (instance : bb_instance_t) :
  0 ≤ MAX →
  buddy_system_get_cached_space MAX PAGE_SIZE instance =
  uint32 (MAX * (free_pages_cache_size instance * PAGE_SIZE)).
Proof.
  intros HMAX. unfold buddy_system_get_cached_space.
  change 0 with (uint32 0) at 1.
  rewrite (cached_space_loop_sum MAX), Z2Nat.id by done. done.
Qed.

(** C6: the three space queries on the code, at the instance of 128 pages
    with [MAX_ORDER = 4] and [PAGE_SIZE = 4096] after one
    [bb_alloc_page_cached], where 40 pages were moved to the cache.
    [buddy_system_get_total_space] is [size * PAGE_SIZE] and
    [buddy_system_get_free_space] is the sum of
    [nr_free[k] * 2^k * PAGE_SIZE], but [buddy_system_get_cached_space]
    is [MAX_ORDER * cache_size * PAGE_SIZE = 655360], four times
    [cache_size * PAGE_SIZE = 163840]. *)
Theorem C6_cached_space_counts_every_order :
  ∃ fresh page cached,
    buddy_system_init 4 16 empty_cache_instance "zone" (zeroed 128) 0 32 128
      = Ok fresh ∧
    bb_alloc_page_cached 4 fresh = Ok (page, cached) ∧
    free_pages_cache_size cached = 40 ∧
    counters cached = [0; 0; 0; 11] ∧
    buddy_system_get_total_space 4096 cached = size cached * 4096 ∧
    buddy_system_get_free_space 4 4096 cached
      = Ok (0 * 1 * 4096 + 0 * 2 * 4096 + 0 * 4 * 4096 + 11 * 8 * 4096) ∧
    buddy_system_get_cached_space 4 4096 cached = 655360 ∧
    free_pages_cache_size cached * 4096 = 163840.
Proof.
  do 3 eexists.
  split; [vm_compute; reflexivity|].
  split; [vm_compute; reflexivity|].
  repeat split; vm_compute; reflexivity.
Qed.

(** C8 on scenario S1: descriptor 0 freed twice, and descriptor 1, which
    is not ROOT. *)
Lemma C8_double_free_panics_witness :
  bb_free_pages 4 S1_allocated 0 = Ok S1_freed ∧
  bb_free_pages 4 S1_freed 0 = Panic "Double deallocation in buddy system!" ∧
  bb_free_pages 4 S1_fresh 1 = Panic "Double deallocation in buddy system!" ∧
  (∃ instance',
     bb_free_pages 4 S1_allocated 0 = Ok instance' ∧
     bb_free_pages 4 instance' 0 = Panic "Double deallocation in buddy system!").
Proof.
  split; [vm_compute; reflexivity|]. split; [|split].
  - apply (proj1 (proj2 (C8_double_free_panics 4 S1_allocated 0)) S1_freed).
    vm_compute; reflexivity.
  - apply (proj1 (C8_double_free_panics 4 S1_fresh 1) (mk_page 1 0)).
    + reflexivity.
    + right. reflexivity.
  - apply (proj1 (proj2 (proj2 (C8_double_free_panics 4 S1_allocated 0)))
             (mk_page 2 0)).
    + lia.
    + reflexivity.
    + exists 1. reflexivity.
    + reflexivity.
    + reflexivity.
    + reflexivity.
    + simpl. lia.
Defined.

(** C9 on scenario S1: order 3 is exhausted after the first allocation;
    the allocations of order 0 and of order 2 on the fresh instance
    succeed. *)
Lemma C9_alloc_exhaustion_and_success_witness :
  bb_alloc_pages 4 S1_allocated 3 = Ok (None, S1_allocated) ∧
  (∃ d, load_page S1_allocated 0 = Ok d ∧
        __bb_test_flag d FREE_PAGE = false ∧
        __bb_test_flag d ROOT_PAGE = true ∧ Buddy.order d = 0) ∧
  (∃ instance',
     bb_alloc_pages 4 S1_fresh 2 = Ok (Some 0, instance') ∧
     ∀ j, 0 < j < 0 + 2 ^ 2 →
          ∃ d, load_page instance' j = Ok d ∧ __bb_test_flag d ROOT_PAGE = false) ∧
  (∃ page instance', bb_alloc_pages 4 S1_fresh 1 = Ok (Some page, instance')).
Proof.
  split; [|split; [|split]].
  - apply (proj1 (C9_alloc_exhaustion_and_success 4 S1_allocated 3)); [lia|].
    intros k Hk. assert (k = 3) as -> by lia.
    exists (mk_area [] 0). split; reflexivity.
  - apply (proj1 (proj2 (C9_alloc_exhaustion_and_success 4 S1_fresh 0)) 0 S1_allocated).
    vm_compute; reflexivity.
  - eexists. split; [vm_compute; reflexivity|].
    apply (proj1 (proj2 (proj2 (C9_alloc_exhaustion_and_success 4 S1_fresh 2))) 0);
      [lia | lia | exact S1_fresh_wf | vm_compute; reflexivity].
  - apply (proj2 (proj2 (proj2 (C9_alloc_exhaustion_and_success 4 S1_fresh 1))));
      [lia | lia | reflexivity | exact S1_fresh_flagged | exact S1_fresh_wf |].
    exists 3, (mk_area [0] 1). split; [lia|]. split; [reflexivity | discriminate].
Defined.

End BuddySpec.

(** * Part IV: properties of the scheduler picker *)

Module SchedSpec.
Import Sched.

Section Proofs.

Variable TASK_RUNNING : Z.
Variable NICE_0_LOAD : Z.
Variable GET_WEIGHT : Z → Z.
Variable update_process_profiling_timer : task_struct → task_struct.
Variable weighted_exec_runtime : Z → Z → Z.

Local Abbreviation pick :=
  (scheduler_pick_next_task TASK_RUNNING NICE_0_LOAD GET_WEIGHT
     update_process_profiling_timer weighted_exec_runtime).

Lemma rr_loop_None (skip_periodic : bool) (l : list task_struct) :
  ∀ it, Forall (rr_skips TASK_RUNNING skip_periodic) l →
        rr_loop TASK_RUNNING skip_periodic l it = None.
Proof.
  induction l as [|entry l IH]; intros it Hall; simpl; [done|].
  apply Forall_cons in Hall as [Hskip Hall].
  destruct Hskip as [Hstate | [Hper ->]].
  - apply Z.eqb_neq in Hstate. rewrite Hstate. simpl. by apply IH.
  - rewrite Hper. simpl. destruct (negb _); by apply IH.
Qed.

Lemma list_head_size_linked (runqueue : runqueue_t) :
  (curr runqueue < length (queue runqueue))%nat →
  list_head_size runqueue = length (queue runqueue).
Proof.
  intros Hcurr. unfold list_head_size, after_curr, before_curr.
  rewrite length_drop, length_take. lia.
Qed.

(** C10: Round-Robin with more than one task linked and no task other than
    [curr] eligible. The traversal starts after [curr]'s node and ends
    before it, so [curr] is not visited: [__scheduler_rr] returns NULL,
    whatever the state of [curr], and [scheduler_pick_next_task] stops on
    its assertion that a task was selected. *)
Theorem C10_rr_excludes_curr (runqueue : runqueue_t) (skip_periodic : bool)
    (ticks : Z) :
  (curr runqueue < length (queue runqueue))%nat →
  (1 < length (queue runqueue))%nat →
  (∀ j t, j ≠ curr runqueue → queue runqueue !! j = Some t →
          rr_skips TASK_RUNNING skip_periodic t) →
  __scheduler_rr TASK_RUNNING runqueue skip_periodic = None ∧
  (skip_periodic = false →
   pick SCHEDULER_RR ticks runqueue
     = AssertFail "No valid task selected by the scheduling algorithm.").
Proof.
  intros Hcurr Hmany Hothers.
  assert (Hrr : __scheduler_rr TASK_RUNNING runqueue skip_periodic = None).
  { unfold __scheduler_rr. rewrite list_head_size_linked by done.
    destruct (Nat.leb_spec (length (queue runqueue)) 1) as [|_]; [lia|].
    rewrite !rr_loop_None; [done | |].
    - apply Forall_lookup. intros i t Hi. unfold before_curr in Hi.
      apply lookup_take_Some in Hi as [Hi Hlt]. apply (Hothers i); [lia | done].
    - apply Forall_lookup. intros i t Hi. unfold after_curr in Hi.
      rewrite lookup_drop in Hi. apply (Hothers (S (curr runqueue) + i)%nat); [lia | done]. }
  split; [exact Hrr|]. intros ->.
  unfold scheduler_pick_next_task. simpl. by rewrite Hrr.
Qed.

(** ** The writes of the picker *)

Lemma roll_skipped (ticks : Z) (entry : task_struct) :
  negb (is_periodic (se entry)) || is_under_analysis (se entry) = true →
  roll ticks entry = entry.
Proof.
  unfold roll, rolls_over, __is_periodic_task.
  by destruct (is_periodic (se entry)), (is_under_analysis (se entry)).
Qed.

Lemma roll_periodic (ticks : Z) (entry : task_struct) :
  negb (is_periodic (se entry)) || is_under_analysis (se entry) = false →
  roll ticks entry =
    if executed (se entry) && (next_period (se entry) <=? ticks)
    then start_next_period entry else entry.
Proof.
  unfold roll, rolls_over, __is_periodic_task.
  by destruct (is_periodic (se entry)), (is_under_analysis (se entry)).
Qed.

Lemma edf_loop_snd (ticks : Z) (l : list task_struct) :
  ∀ it next next_dl, snd (edf_loop ticks l it next next_dl) = roll ticks <$> l.
Proof.
  induction l as [|entry l IH]; intros it next next_dl; simpl; [done|].
  destruct (negb (is_periodic (se entry)) || is_under_analysis (se entry)) eqn:Hskip.
  - specialize (IH (S it) next next_dl).
    destruct (edf_loop ticks l (S it) next next_dl). simpl in *.
    by rewrite roll_skipped, IH.
  - rewrite roll_periodic by done.
    destruct (executed (se entry) && (next_period (se entry) <=? ticks)).
    + specialize (IH (S it) next next_dl).
      destruct (edf_loop ticks l (S it) next next_dl). simpl in *. by rewrite IH.
    + destruct (negb (executed (se entry)) && (deadline (se entry) <? next_dl)).
      * specialize (IH (S it) (Some it) (deadline (se entry))).
        destruct (edf_loop ticks l (S it) (Some it) (deadline (se entry))).
        simpl in *. by rewrite IH.
      * specialize (IH (S it) next next_dl).
        destruct (edf_loop ticks l (S it) next next_dl). simpl in *. by rewrite IH.
Qed.

Lemma rm_loop_snd (ticks : Z) (l : list task_struct) :
  ∀ it next next_np, snd (rm_loop ticks l it next next_np) = roll ticks <$> l.
Proof.
  induction l as [|entry l IH]; intros it next next_np; simpl; [done|].
  destruct (negb (is_periodic (se entry)) || is_under_analysis (se entry)) eqn:Hskip.
  - specialize (IH (S it) next next_np).
    destruct (rm_loop ticks l (S it) next next_np). simpl in *.
    by rewrite roll_skipped, IH.
  - rewrite roll_periodic by done.
    destruct (executed (se entry) && (next_period (se entry) <=? ticks)).
    + specialize (IH (S it) next next_np).
      destruct (rm_loop ticks l (S it) next next_np). simpl in *. by rewrite IH.
    + destruct (negb (executed (se entry)) && (next_period (se entry) <? next_np)).
      * specialize (IH (S it) (Some it) (next_period (se entry))).
        destruct (rm_loop ticks l (S it) (Some it) (next_period (se entry))).
        simpl in *. by rewrite IH.
      * specialize (IH (S it) next next_np).
        destruct (rm_loop ticks l (S it) next next_np). simpl in *. by rewrite IH.
Qed.

Lemma llf_loop_snd (ticks : Z) (l : list task_struct) :
  ∀ it next min_lax, snd (llf_loop ticks l it next min_lax) = roll ticks <$> l.
Proof.
  induction l as [|entry l IH]; intros it next min_lax; simpl; [done|].
  destruct (negb (is_periodic (se entry)) || is_under_analysis (se entry)) eqn:Hskip.
  - specialize (IH (S it) next min_lax).
    destruct (llf_loop ticks l (S it) next min_lax). simpl in *.
    by rewrite roll_skipped, IH.
  - rewrite roll_periodic by done.
    destruct (executed (se entry) && (next_period (se entry) <=? ticks)).
    + specialize (IH (S it) next min_lax).
      destruct (llf_loop ticks l (S it) next min_lax). simpl in *. by rewrite IH.
    + destruct (negb (executed (se entry))).
      * destruct (uint32 (this_lax ticks entry) <? min_lax).
        -- specialize (IH (S it) (Some it) (uint32 (this_lax ticks entry))).
           destruct (llf_loop ticks l (S it) (Some it) (uint32 (this_lax ticks entry))).
           simpl in *. by rewrite IH.
        -- specialize (IH (S it) next min_lax).
           destruct (llf_loop ticks l (S it) next min_lax). simpl in *. by rewrite IH.
      * specialize (IH (S it) next min_lax).
        destruct (llf_loop ticks l (S it) next min_lax). simpl in *. by rewrite IH.
Qed.

Lemma policy_step (defined : policy) (ticks : Z) (runqueue : runqueue_t) :
  ∃ next,
    match defined with
    | SCHEDULER_RR => (__scheduler_rr TASK_RUNNING runqueue false, runqueue)
    | SCHEDULER_PRIORITY =>
        (__scheduler_priority TASK_RUNNING defined runqueue false, runqueue)
    | SCHEDULER_CFS => (__scheduler_cfs TASK_RUNNING runqueue false, runqueue)
    | SCHEDULER_EDF => __scheduler_edf TASK_RUNNING ticks runqueue
    | SCHEDULER_RM => __scheduler_rm TASK_RUNNING ticks runqueue
    | SCHEDULER_AEDF => (__scheduler_aedf TASK_RUNNING runqueue, runqueue)
    | SCHEDULER_LLF => __scheduler_llf TASK_RUNNING ticks runqueue
    end
    = (next,
       mk_rq (if rolls_periods defined then roll ticks <$> queue runqueue
              else queue runqueue)
             (curr runqueue)).
Proof.
  destruct runqueue as [q c]. destruct defined; simpl; try (by eexists).
  - unfold __scheduler_edf. simpl.
    pose proof (edf_loop_snd ticks q 0 None UINT_MAX) as Hsnd.
    destruct (edf_loop ticks q 0 None UINT_MAX) as [[next|] q']; simpl in Hsnd;
      subst q'; by eexists.
  - unfold __scheduler_rm. simpl.
    pose proof (rm_loop_snd ticks q 0 None UINT_MAX) as Hsnd.
    destruct (rm_loop ticks q 0 None UINT_MAX) as [[next|] q']; simpl in Hsnd;
      subst q'; by eexists.
  - unfold __scheduler_llf. simpl.
    pose proof (llf_loop_snd ticks q 0 None UINT_MAX) as Hsnd.
    destruct (llf_loop ticks q 0 None UINT_MAX) as [[next|] q']; simpl in Hsnd;
      subst q'; by eexists.
Qed.

Lemma set_exec_start_frame (v : Z) (t : task_struct) :
  state (set_exec_start v t) = state t ∧
  prio (se (set_exec_start v t)) = prio (se t) ∧
  exec_runtime (se (set_exec_start v t)) = exec_runtime (se t) ∧
  sum_exec_runtime (se (set_exec_start v t)) = sum_exec_runtime (se t) ∧
  vruntime (se (set_exec_start v t)) = vruntime (se t) ∧
  period (se (set_exec_start v t)) = period (se t) ∧
  deadline (se (set_exec_start v t)) = deadline (se t) ∧
  next_period (se (set_exec_start v t)) = next_period (se t) ∧
  executed (se (set_exec_start v t)) = executed (se t) ∧
  is_periodic (se (set_exec_start v t)) = is_periodic (se t) ∧
  is_under_analysis (se (set_exec_start v t)) = is_under_analysis (se t).
Proof. done. Qed.

Lemma roll_frame (ticks : Z) (t : task_struct) :
  state (roll ticks t) = state t ∧
  prio (se (roll ticks t)) = prio (se t) ∧
  exec_start (se (roll ticks t)) = exec_start (se t) ∧
  exec_runtime (se (roll ticks t)) = exec_runtime (se t) ∧
  sum_exec_runtime (se (roll ticks t)) = sum_exec_runtime (se t) ∧
  vruntime (se (roll ticks t)) = vruntime (se t) ∧
  period (se (roll ticks t)) = period (se t) ∧
  is_periodic (se (roll ticks t)) = is_periodic (se t) ∧
  is_under_analysis (se (roll ticks t)) = is_under_analysis (se t).
Proof. unfold roll. by destruct (rolls_over ticks t). Qed.

Lemma update_task_statistics_frame (ticks : Z) (t : task_struct) :
  profiling_timer_frame update_process_profiling_timer →
  let t' := __update_task_statistics NICE_0_LOAD GET_WEIGHT
              update_process_profiling_timer weighted_exec_runtime ticks t in
  state t' = state t ∧
  prio (se t') = prio (se t) ∧
  exec_start (se t') = exec_start (se t) ∧
  period (se t') = period (se t) ∧
  deadline (se t') = deadline (se t) ∧
  next_period (se t') = next_period (se t) ∧
  executed (se t') = executed (se t) ∧
  is_periodic (se t') = is_periodic (se t) ∧
  is_under_analysis (se t') = is_under_analysis (se t).
Proof.
  intros Hframe. unfold __update_task_statistics.
  destruct (Hframe (set_exec_runtime (uint32 (ticks - exec_start (se t))) t))
    as (F1 & F2 & F3 & F4 & F5 & F6 & F7 & F8 & F9).
  simpl in F1, F2, F3, F4, F5, F6, F7, F8, F9.
  set (u := update_process_profiling_timer
              (set_exec_runtime (uint32 (ticks - exec_start (se t))) t)) in *.
  cbv zeta.
  destruct (negb (is_periodic (se (set_sum_exec_runtime
              (uint32 (sum_exec_runtime (se u) + exec_runtime (se u))) u))));
    [|done].
  by destruct (negb (GET_WEIGHT (prio (se (set_sum_exec_runtime
              (uint32 (sum_exec_runtime (se u) + exec_runtime (se u))) u)))
              =? NICE_0_LOAD)).
Qed.

(** C4 (as amended): the writes of [scheduler_pick_next_task]. A call that
    returns leaves [curr] and the links of the run queue as they were, and
    the task at every position [i] is the task found there after
    [picker_writes]: the statistics update of [curr] (under CFS, EDF, RM,
    AEDF and LLF), the rollover of [executed], [deadline] and [next_period]
    of the periodic tasks whose period has restarted (under EDF, RM and
    LLF), and [exec_start := ticks] on the task selected. Nothing else is
    written: in a task other than [curr], and in every task under RR and
    Priority, [state], [prio], [exec_runtime], [sum_exec_runtime],
    [vruntime], [period], [is_periodic] and [is_under_analysis] are
    unchanged; [deadline], [next_period] and [executed] are unchanged under
    RR, Priority, CFS and AEDF; [exec_start] is unchanged unless the task
    is the one selected; and under RR and Priority the write of
    [exec_start] is the only change. In [curr] under the other policies,
    provided the external [update_process_profiling_timer] writes none of
    them, [state], [prio], [period], [is_periodic] and [is_under_analysis]
    are unchanged, [exec_start] is unchanged unless [curr] is the task
    selected, and [deadline], [next_period] and [executed] are unchanged
    under CFS and AEDF. *)
Theorem C4_picker_writes (defined : policy) (ticks : Z)
    (runqueue runqueue' : runqueue_t) (next : nat) :
  pick defined ticks runqueue = Ok (next, runqueue') →
  curr runqueue' = curr runqueue ∧
  (∀ i, queue runqueue' !! i
        = picker_writes NICE_0_LOAD GET_WEIGHT update_process_profiling_timer
            weighted_exec_runtime defined ticks runqueue next i <$> queue runqueue !! i) ∧
  (∃ chosen, queue runqueue' !! next = Some chosen ∧
             exec_start (se chosen) = ticks) ∧
  (∀ i t t',
     queue runqueue !! i = Some t → queue runqueue' !! i = Some t' →
     (i ≠ curr runqueue ∨ updates_statistics defined = false →
      state t' = state t ∧
      prio (se t') = prio (se t) ∧
      exec_runtime (se t') = exec_runtime (se t) ∧
      sum_exec_runtime (se t') = sum_exec_runtime (se t) ∧
      vruntime (se t') = vruntime (se t) ∧
      period (se t') = period (se t) ∧
      is_periodic (se t') = is_periodic (se t) ∧
      is_under_analysis (se t') = is_under_analysis (se t) ∧
      (i ≠ next → exec_start (se t') = exec_start (se t)) ∧
      (rolls_periods defined = false →
       deadline (se t') = deadline (se t) ∧
       next_period (se t') = next_period (se t) ∧
       executed (se t') = executed (se t))) ∧
     (updates_statistics defined = false →
      t' = if bool_decide (i = next) then set_exec_start ticks t else t)) ∧
  (profiling_timer_frame update_process_profiling_timer →
   ∀ t t',
     queue runqueue !! curr runqueue = Some t →
     queue runqueue' !! curr runqueue = Some t' →
     state t' = state t ∧
     prio (se t') = prio (se t) ∧
     period (se t') = period (se t) ∧
     is_periodic (se t') = is_periodic (se t) ∧
     is_under_analysis (se t') = is_under_analysis (se t) ∧
     (curr runqueue ≠ next → exec_start (se t') = exec_start (se t)) ∧
     (rolls_periods defined = false →
      deadline (se t') = deadline (se t) ∧
      next_period (se t') = next_period (se t) ∧
      executed (se t') = executed (se t))).
Proof.
  intros H. unfold scheduler_pick_next_task in H.
  bind_inv H as rq1 Hstats.
  destruct (policy_step defined ticks rq1) as [chosen Hstep].
  rewrite Hstep in H. clear Hstep.
  destruct chosen as [next0|]; [|discriminate].
  set (q2 := if rolls_periods defined then roll ticks <$> queue rq1 else queue rq1) in *.
  simpl in H. destruct (q2 !! next0) as [task|] eqn:Htask; [|discriminate].
  inversion H; subst next0 runqueue'; clear H. simpl.
  assert (Hrq1 : curr rq1 = curr runqueue ∧
            ∀ i, queue rq1 !! i =
                 (λ t, if updates_statistics defined && bool_decide (i = curr runqueue)
                       then __update_task_statistics NICE_0_LOAD GET_WEIGHT
                              update_process_profiling_timer weighted_exec_runtime ticks t
                       else t) <$> queue runqueue !! i).
  { destruct (updates_statistics defined).
    - destruct (queue runqueue !! curr runqueue) as [task0|] eqn:Hcurr; [|discriminate].
      inversion Hstats; subst rq1; clear Hstats. simpl. split; [done|]. intros i.
      rewrite list_lookup_insert. case_decide as Hi.
      + destruct Hi as [<- _]. rewrite Hcurr. simpl. by rewrite bool_decide_eq_true_2.
      + case_bool_decide as Hic; [|by destruct (queue runqueue !! i)].
        subst i. rewrite Hcurr in *. apply lookup_lt_Some in Hcurr. tauto.
    - inversion Hstats; subst rq1. split; [done|]. intros i. simpl.
      by destruct (queue runqueue !! i). }
  destruct Hrq1 as [Hcurr1 Hq1].
  assert (Hq2 : ∀ i, q2 !! i =
            (λ t, if rolls_periods defined then roll ticks t else t) <$> queue rq1 !! i).
  { intros i. unfold q2. destruct (rolls_periods defined).
    - by rewrite list_lookup_fmap.
    - by destruct (queue rq1 !! i). }
  assert (Hall : ∀ i, <[next := set_exec_start ticks task]> q2 !! i
                      = picker_writes NICE_0_LOAD GET_WEIGHT update_process_profiling_timer
            weighted_exec_runtime defined ticks runqueue next i <$> queue runqueue !! i).
  { intros i. rewrite list_lookup_insert. unfold picker_writes. case_decide as Hi.
    - destruct Hi as [<- _]. rewrite bool_decide_eq_true_2 by done.
      rewrite Hq2, Hq1 in Htask. destruct (queue runqueue !! next); [|done].
      simpl in *. by inversion Htask.
    - case_bool_decide as Hin.
      + subst i. apply lookup_lt_Some in Htask. tauto.
      + rewrite Hq2, Hq1. by destruct (queue runqueue !! i). }
  split; [done|]. split; [exact Hall|]. split; [|split].
  - exists (set_exec_start ticks task). split; [|done].
    apply list_lookup_insert_eq. by eapply lookup_lt_Some.
  - intros i t t' Ht Ht'. rewrite Hall, Ht in Ht'. simpl in Ht'.
    inversion Ht'; subst t'; clear Ht'. unfold picker_writes. split.
    + intros Hother.
      assert (Hnostats : updates_statistics defined && bool_decide (i = curr runqueue) = false).
      { destruct Hother as [Hne | ->]; [|done].
        rewrite bool_decide_eq_false_2 by done. apply andb_false_r. }
      rewrite Hnostats. clear Hnostats.
      pose proof (roll_frame ticks t) as (R1 & R2 & R3 & R4 & R5 & R6 & R7 & R8 & R9).
      destruct (rolls_periods defined) eqn:Hrolls; case_bool_decide as Hnext;
        simpl; repeat split; intros; try done; try congruence.
    + intros Hnostats. rewrite Hnostats. simpl.
      by destruct defined.
  - intros Hframe t t' Ht Ht'. rewrite Hall, Ht in Ht'. simpl in Ht'.
    inversion Ht'; subst t'; clear Ht'. unfold picker_writes.
    pose proof (update_task_statistics_frame ticks t Hframe)
      as (U1 & U2 & U3 & U4 & U5 & U6 & U7 & U8 & U9).
    set (u := __update_task_statistics NICE_0_LOAD GET_WEIGHT
                update_process_profiling_timer weighted_exec_runtime ticks t)
      in *.
    assert (Hu : ∃ v, (if updates_statistics defined
                          && bool_decide (curr runqueue = curr runqueue)
                       then u else t) = v ∧
              state v = state t ∧ prio (se v) = prio (se t) ∧
              exec_start (se v) = exec_start (se t) ∧
              period (se v) = period (se t) ∧
              deadline (se v) = deadline (se t) ∧
              next_period (se v) = next_period (se t) ∧
              executed (se v) = executed (se t) ∧
              is_periodic (se v) = is_periodic (se t) ∧
              is_under_analysis (se v) = is_under_analysis (se t)).
    { destruct (updates_statistics defined
                && bool_decide (curr runqueue = curr runqueue));
        eexists; (split; [reflexivity|]); done. }
    destruct Hu as (v & -> & V1 & V2 & V3 & V4 & V5 & V6 & V7 & V8 & V9).
    pose proof (roll_frame ticks v) as (R1 & R2 & R3 & R4 & R5 & R6 & R7 & R8 & R9).
    destruct (rolls_periods defined) eqn:Hrolls; case_bool_decide as Hnext;
      simpl; repeat split; intros; try done; try congruence.
Qed.

End Proofs.

(** C3: the laxity comparison of LLF on the code, at [ticks = 100]. The
    laxity is computed as a signed value (70 and -10), but it is compared
    with the [time_t] minimum as an unsigned value, so -10 counts as
    4294967286: the task that missed its deadline loses against the task
    with laxity 70 wherever it stands in the queue, and a task with laxity
    -1 is not selected even when it is the only periodic task. *)
Theorem C3_llf_negative_laxity_compares_as_large :
  this_lax 100 lax_70 = 70 ∧
  this_lax 100 lax_minus_10 = -10 ∧
  uint32 (this_lax 100 lax_minus_10) = 4294967286 ∧
  fst (__scheduler_llf RUNNING 100 (mk_rq [lax_70; lax_minus_10] 0)) = Some 0%nat ∧
  fst (__scheduler_llf RUNNING 100 (mk_rq [lax_minus_10; lax_70] 0)) = Some 1%nat ∧
  this_lax 100 lax_minus_1 = -1 ∧
  fst (__scheduler_llf RUNNING 100
         (mk_rq [aperiodic RUNNING 120 5; lax_minus_1] 0)) = Some 0%nat.
Proof. repeat split; vm_compute; reflexivity. Qed.

(** C7: the policies on run queues whose first task is not RUNNING and has
    the smallest key. CFS and Priority start with the first task of the
    queue as [next] without looking at its state, and AEDF, EDF, RM and LLF
    do not read [state] at all: each of them returns the task that is not
    RUNNING. Round-Robin returns [curr] when it is the only task linked,
    whatever its state. *)
Theorem C7_policies_return_a_task_that_is_not_running :
  state <$> queue sleeper_first !! 0%nat = Some SLEEPING ∧
  __scheduler_cfs RUNNING sleeper_first false = Some 0%nat ∧
  __scheduler_priority RUNNING SCHEDULER_PRIORITY sleeper_first false = Some 0%nat ∧
  state <$> queue periodic_sleeper_first !! 0%nat = Some SLEEPING ∧
  __scheduler_aedf RUNNING periodic_sleeper_first = Some 0%nat ∧
  fst (__scheduler_edf RUNNING 10 periodic_sleeper_first) = Some 0%nat ∧
  fst (__scheduler_rm RUNNING 10 periodic_sleeper_first) = Some 0%nat ∧
  fst (__scheduler_llf RUNNING 10 periodic_sleeper_first) = Some 0%nat ∧
  __scheduler_rr RUNNING (mk_rq [aperiodic SLEEPING 120 0] 0) false = Some 0%nat ∧
  SLEEPING ≠ RUNNING.
Proof. repeat split; try (vm_compute; reflexivity). discriminate. Qed.

(** C10 on a run queue of three tasks where only [curr] is RUNNING. *)
Lemma C10_rr_excludes_curr_witness :
  __scheduler_rr RUNNING
    (mk_rq [aperiodic SLEEPING 120 0; aperiodic RUNNING 120 10;
            aperiodic SLEEPING 120 20] 1) false = None ∧
  pick_next_task SCHEDULER_RR 5
    (mk_rq [aperiodic SLEEPING 120 0; aperiodic RUNNING 120 10;
            aperiodic SLEEPING 120 20] 1)
    = AssertFail "No valid task selected by the scheduling algorithm.".
Proof.
  assert (Hothers : ∀ (j : nat) (t : task_struct), j ≠ 1%nat →
            [aperiodic SLEEPING 120 0; aperiodic RUNNING 120 10;
             aperiodic SLEEPING 120 20] !! j = Some t →
            rr_skips RUNNING false t).
  { intros j t Hj Ht. left.
    destruct j as [|[|[|j]]]; simpl in Ht; try done;
      inversion Ht; subst t; discriminate. }
  split.
  - apply (C10_rr_excludes_curr RUNNING NICE_0_LOAD GET_WEIGHT no_profiling
             weighted (mk_rq _ 1) false 5); simpl; [lia | lia | exact Hothers].
  - apply (C10_rr_excludes_curr RUNNING NICE_0_LOAD GET_WEIGHT no_profiling
             weighted (mk_rq _ 1) false 5); simpl; [lia | lia | exact Hothers | done].
Defined.

(** The picker under EDF on scenario S4 at [ticks = 105]: the task selected
    is task 0, and besides its [exec_start] the call changes the statistics
    of [curr] and the deadline, next period and executed flag of task 1. *)
Lemma C4_counterexample :
  pick_next_task SCHEDULER_EDF 105 S4_runqueue = Ok (0%nat, S4_picked) ∧
  queue S4_runqueue !! 1%nat = Some S4_T ∧
  queue S4_picked !! 1%nat = Some S4_T_rolled ∧
  deadline (se S4_T) = 150 ∧ deadline (se S4_T_rolled) = 250 ∧
  next_period (se S4_T) = 100 ∧ next_period (se S4_T_rolled) = 200 ∧
  executed (se S4_T) = true ∧ executed (se S4_T_rolled) = false ∧
  sum_exec_runtime ∘ se <$> queue S4_runqueue !! 0%nat = Some 0 ∧
  sum_exec_runtime ∘ se <$> queue S4_picked !! 0%nat = Some 105 ∧
  queue S4_picked !! 1%nat ≠ queue S4_runqueue !! 1%nat.
Proof. repeat split; try (vm_compute; reflexivity). discriminate. Qed.

(** C4 (as amended) on scenario S4 under EDF. *)
Lemma C4_picker_writes_witness :
  curr S4_picked = curr S4_runqueue ∧
  (∀ i, queue S4_picked !! i
        = picker_writes NICE_0_LOAD GET_WEIGHT no_profiling weighted
            SCHEDULER_EDF 105 S4_runqueue 0 i <$> queue S4_runqueue !! i) ∧
  (∃ chosen, queue S4_picked !! 0%nat = Some chosen ∧ exec_start (se chosen) = 105) ∧
  (∀ t t', queue S4_runqueue !! 0%nat = Some t →
           queue S4_picked !! 0%nat = Some t' →
           state t' = state t ∧ prio (se t') = prio (se t)).
Proof.
  assert (Hpick : scheduler_pick_next_task RUNNING NICE_0_LOAD GET_WEIGHT
                    no_profiling weighted SCHEDULER_EDF 105 S4_runqueue
                  = Ok (0%nat, S4_picked)) by (vm_compute; reflexivity).
  destruct (C4_picker_writes RUNNING NICE_0_LOAD GET_WEIGHT no_profiling weighted
              SCHEDULER_EDF 105 S4_runqueue S4_picked 0 Hpick)
    as (Hcurr & Hall & Hchosen & _ & Hframe).
  split; [exact Hcurr|]. split; [exact Hall|]. split; [exact Hchosen|].
  intros t t' Ht Ht'.
  destruct (Hframe (λ t0, ltac:(repeat split; reflexivity)) t t' Ht Ht')
    as (Hstate & Hprio & _).
  exact (conj Hstate Hprio).
Defined.

(** Scenario S4 with T at position 1 and no other periodic task: the call
    of [__scheduler_edf] at [ticks = 105] returns task 0, not T. *)
Lemma C5_counterexample :
  queue S4_runqueue !! 1%nat = Some S4_T ∧
  (∀ j t, j ≠ 1%nat → queue S4_runqueue !! j = Some t →
          __is_periodic_task t = false) ∧
  fst (__scheduler_edf RUNNING 105 S4_runqueue) = Some 0%nat ∧
  fst (__scheduler_edf RUNNING 105 S4_runqueue) ≠ Some 1%nat.
Proof.
  split; [reflexivity|]. split; [|split; [vm_compute; reflexivity | discriminate]].
  intros j t Hj Ht. destruct j as [|[|j]]; simpl in Ht; try done.
  by inversion Ht.
Qed.

End SchedSpec.

(** * Part V: further properties of the buddy system *)

Module BuddyMore.
Import Buddy BuddySpec.

Section Proofs.

Variable MAX_BUDDYSYSTEM_GFP_ORDER : Z.
Variable sizeof_bb_page_t : Z.
Local Abbreviation MAX := MAX_BUDDYSYSTEM_GFP_ORDER.

(** ** Initialisation *)

Lemma init_pages_spec (n : nat) :
  ∀ (instance : bb_instance_t) (index : Z),
    0 ≤ index →
    index + Z.of_nat n ≤ Z.of_nat (length (pages instance)) →
    ∃ instance',
      init_pages n instance index = Ok instance' ∧
      free_area instance' = free_area instance ∧
      free_pages_cache_list instance' = free_pages_cache_list instance ∧
      free_pages_cache_size instance' = free_pages_cache_size instance ∧
      size instance' = size instance ∧
      pgs_size instance' = pgs_size instance ∧
      length (pages instance') = length (pages instance) ∧
      (∀ j d, index ≤ j < index + Z.of_nat n →
              load_page instance j = Ok d →
              load_page instance' j = Ok (mk_page 1 (Buddy.order d))) ∧
      (∀ j, ¬ (index ≤ j < index + Z.of_nat n) →
            load_page instance' j = load_page instance j).
Proof.
  induction n as [|n IH]; intros instance index Hindex Hlen; simpl.
  - exists instance. repeat split; try done. intros j d Hj. lia.
  - destruct (load_page_in_range instance index) as [d Hd]; [lia|].
    rewrite Hd, bind_Ok_l.
    set (i1 := store_page instance index
                 (__bb_set_flag (mk_page 0 (Buddy.order d)) FREE_PAGE)).
    destruct (IH i1 (index + 1)) as
      (instance' & Hinit & Harea & Hcache & Hcsize & Hsize & Hstride & Hlen'
       & Hin & Hout).
    { lia. }
    { unfold i1. simpl. rewrite length_insert. lia. }
    exists instance'. split; [done|]. split; [done|]. split; [done|].
    split; [done|]. split; [done|]. split; [done|]. split.
    { rewrite Hlen'. unfold i1. simpl. by rewrite length_insert. }
    split.
    + intros j dj Hj Hdj. destruct (decide (j = index)) as [->|Hne].
      * rewrite Hout by lia. unfold i1. rewrite (load_store_same _ _ _ _ Hd).
        rewrite Hd in Hdj. by inversion Hdj.
      * apply Hin; [lia|]. unfold i1. by rewrite load_store_other by lia.
    + intros j Hj. rewrite Hout by lia. unfold i1.
      by rewrite load_store_other by lia.
Qed.

Lemma block_heads_S (page block_size : Z) (m : nat) :
  block_heads page block_size (S m)
  = page :: block_heads (page + block_size) block_size m.
Proof.
  unfold block_heads. simpl. f_equal; [lia|].
  rewrite <- fmap_S_seq, <- list_fmap_compose. apply list_fmap_ext.
  intros i x _. simpl. lia.
Qed.

Lemma elem_of_block_heads (page block_size : Z) (m : nat) (j : Z) :
  j ∈ block_heads page block_size m ↔
  ∃ i, (i < m)%nat ∧ j = page + Z.of_nat i * block_size.
Proof.
  unfold block_heads. rewrite list_elem_of_fmap. split.
  - intros (i & -> & Hi). apply elem_of_seq in Hi. exists i. split; [lia | done].
  - intros (i & Hi & ->). exists i. split; [done|]. apply elem_of_seq. lia.
Qed.

(** The last loop of [buddy_system_init], run for the [m] iterations its
    test allows. *)
Lemma init_blocks_spec (m : nat) :
  ∀ (fuel : nat) (instance : bb_instance_t) (page last_page block_size : Z)
    (a : bb_free_area_t),
    (m < fuel)%nat → 0 < block_size → 0 ≤ page →
    (∀ i, (i < m)%nat →
          (page + Z.of_nat i * block_size) * pgs_size instance
            + block_size * sizeof_bb_page_t
          ≤ last_page * pgs_size instance) →
    ¬ ((page + Z.of_nat m * block_size) * pgs_size instance
         + block_size * sizeof_bb_page_t
       ≤ last_page * pgs_size instance) →
    (∀ i, (i < m)%nat →
          page + Z.of_nat i * block_size < Z.of_nat (length (pages instance))) →
    load_area MAX instance (MAX - 1) = Ok a →
    ∃ instance',
      init_blocks MAX sizeof_bb_page_t fuel instance page last_page
                  (MAX - 1) block_size
        = Ok (instance', page + Z.of_nat m * block_size) ∧
      free_area instance'
        = <[Z.to_nat (MAX - 1) :=
              mk_area (free_list a ++ block_heads page block_size m)
                      (Nat.iter m (λ x, int32 (x + 1)) (nr_free a))]>
            (free_area instance) ∧
      free_pages_cache_list instance' = free_pages_cache_list instance ∧
      free_pages_cache_size instance' = free_pages_cache_size instance ∧
      size instance' = size instance ∧
      length (pages instance') = length (pages instance) ∧
      (∀ i d, (i < m)%nat →
              load_page instance (page + Z.of_nat i * block_size) = Ok d →
              load_page instance' (page + Z.of_nat i * block_size)
                = Ok (__bb_set_flag (set_order d (MAX - 1)) ROOT_PAGE)) ∧
      (∀ j, (∀ i, (i < m)%nat → j ≠ page + Z.of_nat i * block_size) →
            load_page instance' j = load_page instance j).
Proof.
  induction m as [|m IH];
    intros fuel instance page last_page block_size a Hfuel Hbs Hpage
           Hrun Hstop Hrange Ha.
  - destruct fuel as [|fuel]; [lia|]. cbn [init_blocks].
    replace (page + Z.of_nat 0 * block_size) with page in * by lia.
    destruct (Z.leb_spec (page * pgs_size instance + block_size * sizeof_bb_page_t)
                (last_page * pgs_size instance)) as [Hle|_]; [done|].
    exists instance. split; [done|]. split.
    { simpl. rewrite app_nil_r. apply load_area_Ok in Ha as [_ Ha].
      rewrite list_insert_id; [done|]. by destruct a. }
    repeat split; try done. intros i d Hi. lia.
  - destruct fuel as [|fuel]; [lia|]. cbn [init_blocks].
    pose proof (Hrun 0%nat ltac:(lia)) as Hrun0.
    replace (page + Z.of_nat 0 * block_size) with page in Hrun0 by lia.
    destruct (Z.leb_spec (page * pgs_size instance + block_size * sizeof_bb_page_t)
                (last_page * pgs_size instance)) as [_|Hgt]; [|lia].
    destruct (load_page_in_range instance page) as [d Hd].
    { specialize (Hrange 0%nat ltac:(lia)). lia. }
    rewrite Hd, bind_Ok_l.
    set (i1 := store_page instance page
                 (__bb_set_flag (set_order d (MAX - 1)) ROOT_PAGE)).
    assert (Ha1 : load_area MAX i1 (MAX - 1) = Ok a) by exact Ha.
    rewrite Ha1, bind_Ok_l.
    set (a2 := mk_area (list_head_insert_before page (free_list a))
                       (int32 (nr_free a + 1))).
    set (i2 := store_area i1 (MAX - 1) a2).
    apply load_area_Ok in Ha as Ha'. destruct Ha' as [Hmo Hlook].
    assert (Ha2 : load_area MAX i2 (MAX - 1) = Ok a2).
    { apply load_area_Ok. split; [done|]. unfold i2, store_area. simpl.
      apply list_lookup_insert_eq. by eapply lookup_lt_Some. }
    unfold __get_page_from_base.
    destruct (IH fuel i2 (page + block_size) last_page block_size a2)
      as (instance' & Hinit & Hareas & Hcache & Hcsize & Hsize & Hlen
          & Hheads & Hothers); [lia | done | lia | | | | done |].
    { intros i Hi. specialize (Hrun (S i) ltac:(lia)).
      replace (page + block_size + Z.of_nat i * block_size)
        with (page + Z.of_nat (S i) * block_size) by lia. exact Hrun. }
    { replace (page + block_size + Z.of_nat m * block_size)
        with (page + Z.of_nat (S m) * block_size) by lia. exact Hstop. }
    { intros i Hi. specialize (Hrange (S i) ltac:(lia)).
      unfold i2, i1. simpl. rewrite length_insert. lia. }
    exists instance'. split.
    { rewrite Hinit. do 2 f_equal. lia. }
    split.
    { rewrite Hareas. unfold i2, store_area. simpl.
      rewrite list_insert_insert_eq. f_equal.
      unfold a2, list_head_insert_before. simpl.
      rewrite block_heads_S, <- app_assoc. simpl. f_equal.
      exact (eq_sym (Nat.iter_succ_r m (λ x, int32 (x + 1)) (nr_free a))). }
    split; [done|]. split; [done|]. split; [done|]. split.
    { rewrite Hlen. unfold i2, i1. simpl. by rewrite length_insert. }
    split.
    + intros [|i] di Hi Hdi.
      * replace (page + Z.of_nat 0 * block_size) with page in * by lia.
        rewrite Hothers by (intros i Hi'; lia).
        unfold i2. rewrite load_page_store_area. unfold i1.
        rewrite (load_store_same _ _ _ _ Hd). rewrite Hd in Hdi.
        by inversion Hdi.
      * replace (page + Z.of_nat (S i) * block_size)
          with (page + block_size + Z.of_nat i * block_size) in * by lia.
        apply Hheads; [lia|]. unfold i2. rewrite load_page_store_area.
        unfold i1. by rewrite load_store_other by lia.
    + intros j Hj. rewrite Hothers.
      * unfold i2. rewrite load_page_store_area. unfold i1.
        rewrite load_store_other; [done | done |].
        specialize (Hj 0%nat ltac:(lia)). lia.
      * intros i Hi. specialize (Hj (S i) ltac:(lia)). lia.
Qed.

Lemma iter_nr_free (m : nat) (x : Z) :
  - 2147483648 ≤ x → x + Z.of_nat m < 2147483648 →
  Nat.iter m (λ x, int32 (x + 1)) x = x + Z.of_nat m.
Proof.
  induction m as [|m IH]; intros Hlo Hhi; simpl; [lia|].
  rewrite IH by lia. unfold int32. rewrite Z.mod_small by lia. lia.
Qed.

Lemma lookup_areas_fresh (k : Z) (a : bb_free_area_t) (x : bb_free_area_t) :
  0 ≤ k < MAX →
  <[Z.to_nat (MAX - 1) := x]> (replicate (Z.to_nat MAX) (mk_area [] 0))
    !! Z.to_nat k = Some a →
  (k = MAX - 1 ∧ a = x) ∨ a = mk_area [] 0.
Proof.
  intros Hk Ha. apply list_lookup_insert_Some in Ha as [(Heq & -> & _)|[_ Ha]].
  - left. split; [lia | done].
  - right. apply lookup_replicate in Ha as [-> _]. done.
Qed.

Lemma block_fits (i block_size stride count : Z) :
  0 < block_size → 0 < sizeof_bb_page_t ≤ stride → 0 ≤ i →
  (i + 1) * block_size ≤ count →
  (0 + i * block_size) * stride + block_size * sizeof_bb_page_t
  ≤ count * stride.
Proof.
  intros Hbs Hsizeof Hi Hfit.
  assert (block_size * sizeof_bb_page_t ≤ block_size * stride)
    by (apply Z.mul_le_mono_nonneg_l; lia).
  assert ((i * block_size + block_size) * stride ≤ count * stride)
    by (apply Z.mul_le_mono_nonneg_r; lia).
  lia.
Qed.

Lemma block_does_not_fit (m block_size stride count : Z) :
  0 < block_size → 0 < sizeof_bb_page_t → 0 < stride →
  count ≤ m * block_size →
  ¬ ((0 + m * block_size) * stride + block_size * sizeof_bb_page_t
     ≤ count * stride).
Proof.
  intros Hbs Hsizeof Hstride Hm.
  assert (0 < block_size * sizeof_bb_page_t) by (apply Z.mul_pos_pos; lia).
  assert (count * stride ≤ m * block_size * stride)
    by (apply Z.mul_le_mono_nonneg_r; lia).
  lia.
Qed.

(** Initialisation of an aligned zone: on a descriptor array of
    [pages_count] descriptors, [pages_count] a multiple of the largest block
    size, [buddy_system_init] returns, whatever the free areas of the
    instance it is given. It leaves the cache list and its counter as the
    caller handed them over; only the area of the largest order is
    populated, with the heads [0], [2^(MAX-1)], ... in address order and a
    counter equal to their number; and the instance satisfies the
    invariants under which allocation and deallocation are verified. *)
Theorem buddy_system_init_establishes_invariants
    (instance0 : bb_instance_t) (name : string) (pages_start : list bb_page_t)
    (bbpage_offset pages_stride pages_count : Z) :
  1 ≤ MAX ≤ 32 →
  0 < sizeof_bb_page_t ≤ pages_stride →
  Z.of_nat (length pages_start) = pages_count →
  (2 ^ (MAX - 1) | pages_count) →
  pages_count / 2 ^ (MAX - 1) < 2147483648 →
  ∃ instance,
    buddy_system_init MAX sizeof_bb_page_t instance0 name pages_start
                      bbpage_offset pages_stride pages_count = Ok instance ∧
    size instance = pages_count ∧
    free_pages_cache_list instance = free_pages_cache_list instance0 ∧
    free_pages_cache_size instance = free_pages_cache_size instance0 ∧
    free_lists instance
      = replicate (Z.to_nat (MAX - 1)) []
        ++ [block_heads 0 (2 ^ (MAX - 1))
                        (Z.to_nat (pages_count / 2 ^ (MAX - 1)))] ∧
    counters instance
      = replicate (Z.to_nat (MAX - 1)) 0 ++ [pages_count / 2 ^ (MAX - 1)] ∧
    areas_present MAX instance ∧
    pages_aligned MAX instance ∧
    free_heads_flagged MAX instance ∧
    free_lists_wf MAX instance.
Proof.
  intros HMAX Hsizeof Hlength [q Hq] Hcount.
  assert (Hbs : 0 < 2 ^ (MAX - 1)) by (apply Z.pow_pos_nonneg; lia).
  set (bs := 2 ^ (MAX - 1)) in *.
  assert (Hdiv : pages_count / bs = q) by (rewrite Hq; apply Z.div_mul; lia).
  rewrite Hdiv in *.
  assert (Hq0 : 0 ≤ q) by nia.
  assert (Hblock : ∀ i, (i < Z.to_nat q)%nat →
            0 ≤ Z.of_nat i * bs ∧ Z.of_nat i * bs + bs ≤ pages_count).
  { intros i Hi. rewrite Hq. split; [apply Z.mul_nonneg_nonneg; lia|].
    replace (Z.of_nat i * bs + bs) with ((Z.of_nat i + 1) * bs) by lia.
    apply Z.mul_le_mono_nonneg_r; lia. }
  unfold buddy_system_init.
  set (i0 := mk_instance name bbpage_offset pages_stride pages_count
                         pages_start (free_area instance0)
                         (free_pages_cache_list instance0)
                         (free_pages_cache_size instance0)).
  destruct (init_pages_spec (Z.to_nat pages_count) i0 0)
    as (i1 & Hinit & Harea1 & Hcache1 & Hcsize1 & Hsize1 & Hstride1 & Hlen1
        & Hin1 & _); [lia | simpl; lia |].
  rewrite Hinit, bind_Ok_l.
  set (i2 := with_free_area i1 (replicate (Z.to_nat MAX) (mk_area [] 0))).
  rewrite shiftl_1_uint32 by lia. fold bs.
  assert (Ha2 : load_area MAX i2 (MAX - 1) = Ok (mk_area [] 0)).
  { apply load_area_Ok. split; [lia|]. unfold i2. simpl.
    apply lookup_replicate. split; [done | lia]. }
  assert (Hstride2 : pgs_size i2 = pages_stride) by (unfold i2; simpl; by rewrite Hstride1).
  assert (Hsize2 : size i2 = pages_count) by (unfold i2; simpl; by rewrite Hsize1).
  assert (Hlen2 : Z.of_nat (length (pages i2)) = pages_count).
  { unfold i2. simpl. rewrite Hlen1. exact Hlength. }
  destruct (init_blocks_spec (Z.to_nat q) (S (Z.to_nat pages_count)) i2 0
              (__get_page_from_base 0 (size i2)) bs (mk_area [] 0))
    as (i3 & Hblocks & Hareas3 & Hcache3 & Hcsize3 & Hsize3 & Hlen3
        & Hheads3 & Hothers3); [nia | done | done | | | | done |].
  { intros i Hi. rewrite Hstride2, Hsize2. unfold __get_page_from_base.
    apply block_fits; [done | done | lia |]. specialize (Hblock i Hi). lia. }
  { rewrite Hstride2, Hsize2. unfold __get_page_from_base.
    apply block_does_not_fit; [done | lia | lia | lia]. }
  { intros i Hi. specialize (Hblock i Hi). lia. }
  rewrite Hblocks, bind_Ok_l. cbn beta iota.
  replace (0 + Z.of_nat (Z.to_nat q) * bs =? __get_page_from_base 0 (size i2))
    with true by (symmetry; apply Z.eqb_eq; unfold __get_page_from_base; lia).
  unfold assert. rewrite bind_Ok_l.
  cbn [nr_free free_list app] in Hareas3.
  rewrite iter_nr_free in Hareas3 by lia.
  replace (0 + Z.of_nat (Z.to_nat q)) with q in Hareas3 by lia.
  assert (Hpage3 : ∀ i, (i < Z.to_nat q)%nat →
            ∃ d, load_page i3 (Z.of_nat i * bs) = Ok d ∧
                 __bb_test_flag d FREE_PAGE = true ∧
                 __bb_test_flag d ROOT_PAGE = true).
  { intros i Hi. pose proof (Hblock i Hi) as Hi'.
    destruct (load_page_in_range i0 (Z.of_nat i * bs)) as [d Hd];
      [simpl; lia|].
    pose proof (Hin1 (Z.of_nat i * bs) d ltac:(lia) Hd) as Hd1.
    assert (Hd2 : load_page i2 (0 + Z.of_nat i * bs)
                  = Ok (mk_page 1 (Buddy.order d))) by exact Hd1.
    apply Hheads3 in Hd2; [|done]. eexists. split; [exact Hd2|].
    split; [|by apply test_set_same].
    by rewrite test_set_other. }
  assert (Hinner3 : ∀ i j, (i < Z.to_nat q)%nat →
            Z.of_nat i * bs < j < Z.of_nat i * bs + bs →
            ∃ d, load_page i3 j = Ok d ∧
                 __bb_test_flag d FREE_PAGE = true ∧
                 __bb_test_flag d ROOT_PAGE = false).
  { intros i j Hi Hj. pose proof (Hblock i Hi) as Hi'.
    destruct (load_page_in_range i0 j) as [d Hd]; [simpl; lia|].
    pose proof (Hin1 j d ltac:(lia) Hd) as Hd1.
    rewrite Hothers3.
    - exists (mk_page 1 (Buddy.order d)). split; [exact Hd1 | done].
    - intros i' Hi'' ->.
      destruct (Nat.lt_trichotomy i i') as [?|[->|?]]; nia. }
  exists i3. split; [done|]. split; [by rewrite Hsize3|].
  split; [rewrite Hcache3; exact Hcache1|].
  split; [rewrite Hcsize3; exact Hcsize1|].
  assert (Hfa : free_area i3
                = replicate (Z.to_nat (MAX - 1)) (mk_area [] 0)
                  ++ [mk_area (block_heads 0 bs (Z.to_nat q)) q]).
  { rewrite Hareas3. unfold i2. simpl.
    replace (Z.to_nat MAX) with (Z.to_nat (MAX - 1) + 1)%nat by lia.
    rewrite replicate_add. simpl.
    rewrite insert_app_r_alt by (rewrite length_replicate; lia).
    rewrite length_replicate, Nat.sub_diag. done. }
  split.
  { unfold free_lists. rewrite Hfa, fmap_app, fmap_replicate. done. }
  split.
  { unfold counters. rewrite Hfa, fmap_app, fmap_replicate. done. }
  split.
  { unfold areas_present. rewrite Hfa, length_app, length_replicate. simpl. lia. }
  split.
  { unfold pages_aligned. fold bs. rewrite Hlen3, Hlen2. by exists q. }
  split.
  - intros k a i Hk Ha Hi. rewrite Hareas3 in Ha. unfold i2 in Ha. simpl in Ha.
    apply lookup_areas_fresh in Ha; [|done].
    destruct Ha as [[-> ->]| ->]; [|by apply elem_of_nil in Hi].
    simpl in Hi. apply elem_of_block_heads in Hi as (i' & Hi' & ->).
    by apply Hpage3.
  - intros k a i Hk Ha Hi. rewrite Hareas3 in Ha. unfold i2 in Ha. simpl in Ha.
    apply lookup_areas_fresh in Ha; [|done].
    destruct Ha as [[-> ->]| ->]; [|by apply elem_of_nil in Hi].
    simpl in Hi. apply elem_of_block_heads in Hi as (i' & Hi' & ->).
    intros j Hj. fold bs in Hj. apply (Hinner3 i'); [done | lia].
Qed.

(** Initialisation of a zone whose size is not a multiple of the largest
    block size fails its final assertion. *)
Theorem buddy_system_init_rejects_unaligned
    (instance0 : bb_instance_t) (name : string) (pages_start : list bb_page_t)
    (bbpage_offset pages_stride pages_count : Z) :
  1 ≤ MAX ≤ 32 →
  0 < sizeof_bb_page_t ≤ pages_stride →
  0 ≤ pages_count ≤ Z.of_nat (length pages_start) →
  pages_count mod 2 ^ (MAX - 1) ≠ 0 →
  buddy_system_init MAX sizeof_bb_page_t instance0 name pages_start
                    bbpage_offset pages_stride pages_count
    = AssertFail "page == last_page".
Proof.
  intros HMAX Hsizeof Hlength Hrem.
  assert (Hbs : 0 < 2 ^ (MAX - 1)) by (apply Z.pow_pos_nonneg; lia).
  set (bs := 2 ^ (MAX - 1)) in *.
  pose proof (Z.div_mod pages_count bs ltac:(lia)) as Hdm.
  pose proof (Z.mod_pos_bound pages_count bs Hbs) as Hr.
  set (q := pages_count / bs) in *. set (r := pages_count mod bs) in *.
  assert (Hq0 : 0 ≤ q) by (apply Z.div_pos; lia).
  unfold buddy_system_init.
  set (i0 := mk_instance name bbpage_offset pages_stride pages_count
                         pages_start (free_area instance0)
                         (free_pages_cache_list instance0)
                         (free_pages_cache_size instance0)).
  destruct (init_pages_spec (Z.to_nat pages_count) i0 0)
    as (i1 & Hinit & Harea1 & Hcache1 & Hcsize1 & Hsize1 & Hstride1 & Hlen1
        & _); [lia | simpl; lia |].
  rewrite Hinit, bind_Ok_l.
  set (i2 := with_free_area i1 (replicate (Z.to_nat MAX) (mk_area [] 0))).
  rewrite shiftl_1_uint32 by lia. fold bs.
  assert (Ha2 : load_area MAX i2 (MAX - 1) = Ok (mk_area [] 0)).
  { apply load_area_Ok. split; [lia|]. unfold i2. simpl.
    apply lookup_replicate. split; [done | lia]. }
  assert (Hstride2 : pgs_size i2 = pages_stride) by (unfold i2; simpl; by rewrite Hstride1).
  assert (Hsize2 : size i2 = pages_count) by (unfold i2; simpl; by rewrite Hsize1).
  assert (Hlen2 : length (pages i2) = length pages_start).
  { unfold i2. simpl. by rewrite Hlen1. }
  assert (Hblocks : ∃ m i3,
            init_blocks MAX sizeof_bb_page_t (S (Z.to_nat pages_count)) i2 0
                        (__get_page_from_base 0 (size i2)) (MAX - 1) bs
              = Ok (i3, 0 + Z.of_nat m * bs) ∧
            0 + Z.of_nat m * bs ≠ pages_count).
  { destruct (decide ((0 + q * bs) * pages_stride + bs * sizeof_bb_page_t
                      ≤ pages_count * pages_stride)) as [Hmore|Hstop].
    - destruct (init_blocks_spec (S (Z.to_nat q)) (S (Z.to_nat pages_count)) i2 0
                  (__get_page_from_base 0 (size i2)) bs (mk_area [] 0))
        as (i3 & Hblocks & _); [nia | done | done | | | | done |].
      + intros i Hi. rewrite Hstride2, Hsize2. unfold __get_page_from_base.
        destruct (decide (i = Z.to_nat q)) as [->|Hne].
        * rewrite Z2Nat.id by done. lia.
        * apply block_fits; [done | done | lia | nia].
      + rewrite Hstride2, Hsize2. unfold __get_page_from_base.
        apply block_does_not_fit; [done | lia | lia | nia].
      + intros i Hi. rewrite Hlen2. nia.
      + exists (S (Z.to_nat q)), i3. split; [done | nia].
    - destruct (init_blocks_spec (Z.to_nat q) (S (Z.to_nat pages_count)) i2 0
                  (__get_page_from_base 0 (size i2)) bs (mk_area [] 0))
        as (i3 & Hblocks & _); [nia | done | done | | | | done |].
      + intros i Hi. rewrite Hstride2, Hsize2. unfold __get_page_from_base.
        apply block_fits; [done | done | lia | nia].
      + rewrite Hstride2, Hsize2. unfold __get_page_from_base.
        rewrite Z2Nat.id by done. exact Hstop.
      + intros i Hi. rewrite Hlen2. nia.
      + exists (Z.to_nat q), i3. split; [done | nia]. }
  destruct Hblocks as (m & i3 & Hblocks & Hne).
  rewrite Hblocks, bind_Ok_l. cbn beta iota.
  replace (0 + Z.of_nat m * bs =? __get_page_from_base 0 (size i2)) with false.
  - done.
  - symmetry. apply Z.eqb_neq. unfold __get_page_from_base. lia.
Qed.

(** ** Arithmetic of the 32-bit registers *)

Lemma same32_refl (x : Z) : same32 x x.
Proof. done. Qed.

Lemma same32_trans (x y z : Z) : same32 x y → same32 y z → same32 x z.
Proof. unfold same32. congruence. Qed.

Lemma same32_uint32 (x : Z) : same32 (uint32 x) x.
Proof. unfold same32, uint32. apply Z.mod_mod. lia. Qed.

Lemma same32_int32 (x : Z) : same32 (int32 x) x.
Proof.
  unfold same32, int32, uint32. rewrite Zminus_mod_idemp_l. f_equal. lia.
Qed.

Lemma same32_add (a b c d : Z) :
  same32 a b → same32 c d → same32 (a + c) (b + d).
Proof.
  unfold same32, uint32. intros Hab Hcd.
  rewrite (Zplus_mod a c), (Zplus_mod b d), Hab, Hcd. done.
Qed.

Lemma same32_mul (a b c d : Z) :
  same32 a b → same32 c d → same32 (a * c) (b * d).
Proof.
  unfold same32, uint32. intros Hab Hcd.
  rewrite (Zmult_mod a c), (Zmult_mod b d), Hab, Hcd. done.
Qed.

(** The free pages counted after the counters moved by [δ]: [T] is the
    total of [δ k * 2^k] from an order on. *)
Lemma counted_pages_moved (δ T : Z → Z) (l : list bb_free_area_t) :
  ∀ (l' : list bb_free_area_t) (k0 : Z),
    length l' = length l →
    (∀ i a a', l !! i = Some a → l' !! i = Some a' →
               same32 (nr_free a') (nr_free a + δ (k0 + Z.of_nat i))) →
    (∀ k, k0 ≤ k → T k = δ k * 2 ^ k + T (k + 1)) →
    T (k0 + Z.of_nat (length l)) = 0 →
    same32 (counted_pages l' k0) (counted_pages l k0 + T k0).
Proof.
  induction l as [|a l IH]; intros [|a' l'] k0 Hlen Hpoint HT Hend;
    try discriminate; simpl in *.
  - rewrite Z.add_0_r in Hend. rewrite Hend. done.
  - rewrite (HT k0) by lia.
    replace (nr_free a * 2 ^ k0 + counted_pages l (k0 + 1)
             + (δ k0 * 2 ^ k0 + T (k0 + 1)))
      with ((nr_free a + δ k0) * 2 ^ k0 + (counted_pages l (k0 + 1) + T (k0 + 1)))
      by lia.
    apply same32_add.
    + apply same32_mul; [|done].
      specialize (Hpoint 0%nat a a' eq_refl eq_refl).
      by rewrite Z.add_0_r in Hpoint.
    + apply IH; [lia | | |].
      * intros i b b' Hb Hb'. specialize (Hpoint (S i) b b' Hb Hb').
        replace (k0 + 1 + Z.of_nat i) with (k0 + Z.of_nat (S i)) by lia. done.
      * intros k Hk. apply HT. lia.
      * rewrite <- Hend. f_equal. lia.
Qed.

(** ** The value of [buddy_system_get_free_space] *)

Section Space.

Variable PAGE_SIZE : Z.

Lemma free_space_loop_sum (n : nat) :
  ∀ (instance : bb_instance_t) (order acc : Z),
    0 ≤ order → order + Z.of_nat n ≤ MAX →
    (Z.to_nat order + n ≤ length (free_area instance))%nat →
    ∃ v, free_space_loop MAX PAGE_SIZE n instance order acc = Ok v ∧
         same32 v (acc + counted_pages
                           (take n (drop (Z.to_nat order) (free_area instance)))
                           order * PAGE_SIZE).
Proof.
  induction n as [|n IH]; intros instance order acc Horder Hmax Hlen; simpl.
  - exists acc. split; [done|]. rewrite Z.add_0_r. done.
  - destruct (lookup_lt_is_Some_2 (free_area instance) (Z.to_nat order))
      as [a Ha]; [lia|].
    assert (Hload : load_area MAX instance order = Ok a)
      by (apply load_area_Ok; split; [lia | done]).
    rewrite Hload, bind_Ok_l.
    destruct (IH instance (order + 1)
                (uint32 (acc + uint32 (uint32 (nr_free a * uint32 (Z.shiftl 1 order))
                                       * PAGE_SIZE))))
      as (v & Hv & Hsame); [lia | lia | lia |].
    exists v. split; [done|]. eapply same32_trans; [exact Hsame|].
    rewrite (drop_S _ _ _ Ha). simpl.
    replace (Z.to_nat (order + 1)) with (S (Z.to_nat order)) by lia.
    set (rest := counted_pages
                   (take n (drop (S (Z.to_nat order)) (free_area instance)))
                   (order + 1)).
    replace (acc + (nr_free a * 2 ^ order + rest) * PAGE_SIZE)
      with (acc + nr_free a * 2 ^ order * PAGE_SIZE + rest * PAGE_SIZE) by lia.
    apply same32_add; [|done].
    eapply same32_trans; [apply same32_uint32|].
    apply same32_add; [done|].
    eapply same32_trans; [apply same32_uint32|].
    apply same32_mul; [|done].
    eapply same32_trans; [apply same32_uint32|].
    apply same32_mul; [done|].
    rewrite Z.shiftl_1_l. apply same32_uint32.
Qed.

Lemma uint32_idem (x : Z) : uint32 (uint32 x) = uint32 x.
Proof. apply same32_uint32. Qed.

Lemma free_space_loop_uint32 (n : nat) :
  ∀ (instance : bb_instance_t) (order acc v : Z),
    free_space_loop MAX PAGE_SIZE n instance order (uint32 acc) = Ok v →
    uint32 v = v.
Proof.
  induction n as [|n IH]; intros instance order acc v H; simpl in H.
  - inversion H. apply uint32_idem.
  - bind_inv H as a Ha. by apply IH in H.
Qed.

Lemma free_space_value (instance : bb_instance_t) :
  0 ≤ MAX →
  areas_present MAX instance →
  buddy_system_get_free_space MAX PAGE_SIZE instance
    = Ok (uint32 (counted_pages (free_area instance) 0 * PAGE_SIZE)).
Proof.
  intros HMAX Hareas. unfold buddy_system_get_free_space.
  destruct (free_space_loop_sum (Z.to_nat MAX) instance 0 0)
    as (v & Hv & Hsame); [lia | lia | |].
  { unfold areas_present in Hareas. rewrite Hareas. simpl. lia. }
  rewrite Hv. f_equal.
  change 0 with (uint32 0) in Hv at 2. apply free_space_loop_uint32 in Hv.
  rewrite <- Hv. rewrite Hsame. f_equal. simpl.
  rewrite drop_0, <- Hareas, firstn_all. done.
Qed.

(** [buddy_system_get_free_space] returns, on an instance with its free
    areas, the free pages its counters stand for times the page size, as a
    32-bit value: the truncations of the intermediate products and sums do
    not show in the result. *)
Theorem buddy_system_get_free_space_eq (instance : bb_instance_t) :
  0 ≤ MAX →
  areas_present MAX instance →
  buddy_system_get_free_space MAX PAGE_SIZE instance
    = Ok (uint32 (counted_pages (free_area instance) 0 * PAGE_SIZE)).
Proof. apply free_space_value. Qed.

End Space.

(** ** The free areas after an allocation *)

Lemma find_block_first (n : nat) :
  ∀ (instance : bb_instance_t) (order current_order : Z),
    find_block MAX instance n order = Ok (Some current_order) →
    ∀ k a, order ≤ k < current_order →
           free_area instance !! Z.to_nat k = Some a → free_list a = [].
Proof.
  induction n as [|n IH]; intros instance order current_order H k a Hk Hka;
    simpl in H; [discriminate|].
  bind_inv H as a0 Ha0. destruct (free_list a0) as [|page l] eqn:Hl; simpl in H.
  - destruct (decide (k = order)) as [->|Hne].
    + apply load_area_Ok in Ha0 as [_ Ha0]. congruence.
    + eapply IH; [exact H | | exact Hka]. lia.
  - inversion H; subst. lia.
Qed.

Lemma split_block_areas (n : nat) :
  ∀ (instance instance' : bb_instance_t) (page current_order size : Z),
    split_block MAX n instance page current_order size = Ok instance' →
    free_pages_cache_list instance' = free_pages_cache_list instance ∧
    free_pages_cache_size instance' = free_pages_cache_size instance ∧
    Buddy.size instance' = Buddy.size instance ∧
    length (free_area instance') = length (free_area instance) ∧
    ∀ k a, 0 ≤ k → free_area instance !! Z.to_nat k = Some a →
           free_area instance' !! Z.to_nat k
           = Some (if bool_decide (current_order - Z.of_nat n ≤ k < current_order)
                   then mk_area ((page + size / 2 ^ (current_order - k))
                                   :: free_list a)
                                (int32 (nr_free a + 1))
                   else a).
Proof.
  induction n as [|n IH]; intros instance instance' page co size H;
    cbn [split_block] in H.
  - inversion H; subst. split; [done|]. split; [done|]. split; [done|].
    split; [done|].
    intros k a Hk Ha. rewrite bool_decide_eq_false_2 by lia. done.
  - bind_inv H as b Hb. bind_inv H as u Hu. bind_inv H as area Harea.
    apply load_area_Ok in Harea as [Hco Harea].
    apply IH in H as (Hcache & Hcsize & Hsize & Hlen & Hareas).
    split; [done|]. split; [done|]. split; [done|].
    split; [rewrite Hlen; unfold store_area; simpl; by rewrite length_insert|].
    intros k a Hk Ha.
    destruct (decide (k = co - 1)) as [->|Hne].
    + rewrite (Hareas (co - 1) (mk_area (list_head_insert_after
                 (__get_page_from_base page (size / 2)) (free_list area))
                 (int32 (nr_free area + 1)))); [|lia|].
      * rewrite bool_decide_eq_false_2 by lia.
        rewrite bool_decide_eq_true_2 by lia.
        simpl in Harea. rewrite Ha in Harea. inversion Harea; subst area.
        replace (co - (co - 1)) with 1 by lia. done.
      * unfold store_area. simpl. apply list_lookup_insert_eq.
        by eapply lookup_lt_Some.
    + rewrite (Hareas k a); [|lia|].
      * case_bool_decide as H1; case_bool_decide as H2; try lia; [|done].
        do 3 f_equal. rewrite Z.div_div by (try apply Z.pow_pos_nonneg; lia).
        f_equal. replace (co - k) with (Z.succ (co - 1 - k)) by lia.
        rewrite Z.pow_succ_r by lia. done.
      * unfold store_area. simpl. rewrite list_lookup_insert_ne by lia. done.
Qed.

Lemma pow2_div (a b : Z) : 0 ≤ b ≤ a → 2 ^ a / 2 ^ (a - b) = 2 ^ b.
Proof.
  intros H. replace a with (b + (a - b)) at 1 by lia.
  rewrite Z.pow_add_r by lia. apply Z.div_mul.
  apply Z.pow_nonzero; lia.
Qed.

Lemma bb_alloc_pages_areas (instance instance' : bb_instance_t)
    (order page : Z) :
  MAX ≤ 32 → 0 ≤ order →
  bb_alloc_pages MAX instance order = Ok (Some page, instance') →
  ∃ current_order,
    order ≤ current_order < MAX ∧
    (∀ k a, order ≤ k < current_order →
            free_area instance !! Z.to_nat k = Some a → free_list a = []) ∧
    (∃ a l, free_area instance !! Z.to_nat current_order = Some a ∧
            free_list a = page :: l) ∧
    free_pages_cache_list instance' = free_pages_cache_list instance ∧
    free_pages_cache_size instance' = free_pages_cache_size instance ∧
    Buddy.size instance' = Buddy.size instance ∧
    length (free_area instance') = length (free_area instance) ∧
    ∀ k a, 0 ≤ k → free_area instance !! Z.to_nat k = Some a →
      ∃ a', free_area instance' !! Z.to_nat k = Some a' ∧
            ((order ≤ k < current_order ∧
              a' = mk_area [page + 2 ^ k] (int32 (nr_free a + 1))) ∨
             (k = current_order ∧
              a' = mk_area (unlink page (free_list a)) (int32 (nr_free a - 1))) ∨
             ((k < order ∨ current_order < k) ∧
              a' = mk_area (unlink page (free_list a)) (nr_free a))).
Proof.
  intros HMAX Horder H. unfold bb_alloc_pages in H.
  bind_inv H as found Hfound. destruct found as [co|]; [|by inversion H].
  pose proof (find_block_first _ _ _ _ Hfound) as Hfirst.
  apply find_block_Some in Hfound as (Hrange & a0 & page0 & l & Ha0 & Hl0).
  rewrite Ha0, bind_Ok_l, Hl0 in H.
  bind_inv H as a1 Ha1. bind_inv H as d0 Hd0. bind_inv H as u Hu.
  bind_inv H as i3 Hsplit. bind_inv H as d3 Hd3.
  inversion H; subst page0 instance'; clear H.
  apply load_area_Ok in Ha0 as [Hco Ha0]. apply load_area_Ok in Ha1 as [_ Ha1].
  rewrite shiftl_1_uint32 in Hsplit by lia.
  apply split_block_areas in Hsplit as (Hcache & Hcsize & Hsize & Hlen & Hareas).
  exists co. split; [lia|]. split; [done|]. split; [by exists a0, l|].
  split; [done|]. split; [done|]. split; [done|].
  split.
  { simpl. rewrite Hlen. simpl. by rewrite length_insert, length_fmap. }
  intros k a Hk Ha. simpl.
  unfold list_head_remove in Ha1. simpl in Ha1.
  rewrite list_lookup_fmap, Ha0 in Ha1. simpl in Ha1.
  inversion Ha1; subst a1; clear Ha1. simpl in Hareas.
  destruct (decide (k = co)) as [->|Hne].
  - eexists. split.
    + apply Hareas; [lia|]. apply list_lookup_insert_eq.
      rewrite length_fmap. by eapply lookup_lt_Some.
    + rewrite bool_decide_eq_false_2 by lia.
      right. left. split; [done|]. rewrite Ha0 in Ha. by inversion Ha.
  - eexists. split.
    + apply Hareas; [lia|]. rewrite list_lookup_insert_ne by lia.
      rewrite list_lookup_fmap, Ha. done.
    + case_bool_decide as Hin; simpl.
      * left. split; [lia|]. rewrite (Hfirst k a) by (done || lia). simpl.
        rewrite pow2_div by lia. done.
      * right. right. split; [lia | done].
Qed.

(** What [bb_alloc_pages] does to the free areas. A call that returns a
    block took the first block of the smallest non-empty order
    [current_order] from the requested one on ([MAX_BUDDYSYSTEM_GFP_ORDER]
    at most 32). It decrements the counter of that area; in every area from
    the requested order up to [current_order - 1], which were empty, it
    links the upper half [page + 2^k] split off at order [k] and increments
    the counter; the other areas keep their counters; and the cache, the
    size of the zone and the number of areas are untouched. *)
Theorem bb_alloc_pages_accounting (instance instance' : bb_instance_t)
    (order page : Z) :
  MAX ≤ 32 → 0 ≤ order →
  bb_alloc_pages MAX instance order = Ok (Some page, instance') →
  ∃ current_order,
    order ≤ current_order < MAX ∧
    (∀ k a, order ≤ k < current_order →
            free_area instance !! Z.to_nat k = Some a → free_list a = []) ∧
    (∃ a l, free_area instance !! Z.to_nat current_order = Some a ∧
            free_list a = page :: l) ∧
    free_pages_cache_list instance' = free_pages_cache_list instance ∧
    free_pages_cache_size instance' = free_pages_cache_size instance ∧
    Buddy.size instance' = Buddy.size instance ∧
    length (free_area instance') = length (free_area instance) ∧
    ∀ k a, 0 ≤ k → free_area instance !! Z.to_nat k = Some a →
      ∃ a', free_area instance' !! Z.to_nat k = Some a' ∧
            ((order ≤ k < current_order ∧
              a' = mk_area [page + 2 ^ k] (int32 (nr_free a + 1))) ∨
             (k = current_order ∧
              a' = mk_area (unlink page (free_list a)) (int32 (nr_free a - 1))) ∨
             ((k < order ∨ current_order < k) ∧
              a' = mk_area (unlink page (free_list a)) (nr_free a))).
Proof. apply bb_alloc_pages_areas. Qed.

Section SpaceAfter.

Variable PAGE_SIZE : Z.

Lemma free_space_after_alloc (instance instance' : bb_instance_t)
    (order page : Z) :
  MAX ≤ 32 → 0 ≤ order →
  areas_present MAX instance →
  bb_alloc_pages MAX instance order = Ok (Some page, instance') →
  ∃ before after,
    buddy_system_get_free_space MAX PAGE_SIZE instance = Ok before ∧
    buddy_system_get_free_space MAX PAGE_SIZE instance' = Ok after ∧
    after = uint32 (before - 2 ^ order * PAGE_SIZE).
Proof.
  intros HMAX Horder Hpresent H.
  destruct (bb_alloc_pages_areas _ _ _ _ HMAX Horder H)
    as (co & Hco & _ & _ & _ & _ & _ & Hlen & Hmoves).
  assert (Hpresent' : areas_present MAX instance')
    by (unfold areas_present in *; congruence).
  rewrite !free_space_value by (done || lia).
  eexists _, _. split; [done|]. split; [done|].
  apply (same32_trans _ ((counted_pages (free_area instance) 0 - 2 ^ order)
                         * PAGE_SIZE)).
  - apply same32_mul; [|done].
    set (δ := λ k, if bool_decide (k = co) then -1
                   else if bool_decide (order ≤ k < co) then 1 else 0).
    set (T := λ k, if bool_decide (k ≤ order) then - 2 ^ order
                   else if bool_decide (k ≤ co) then - 2 ^ k else 0).
    replace (counted_pages (free_area instance) 0 - 2 ^ order)
      with (counted_pages (free_area instance) 0 + T 0).
    2:{ unfold T. rewrite bool_decide_eq_true_2 by lia. lia. }
    apply (counted_pages_moved δ T); [done | | |].
    + intros i a a' Ha Ha'. rewrite Z.add_0_l.
      destruct (Hmoves (Z.of_nat i) a) as (a'' & Ha'' & Hcase);
        [lia | by rewrite Nat2Z.id |].
      rewrite Nat2Z.id in Ha''. rewrite Ha' in Ha''.
      inversion Ha''; subst a''; clear Ha''. unfold δ.
      destruct Hcase as [[Hk ->]|[[Hk ->]|[Hk ->]]].
      * rewrite bool_decide_eq_false_2, bool_decide_eq_true_2 by lia.
        apply same32_int32.
      * rewrite bool_decide_eq_true_2 by lia. apply same32_int32.
      * rewrite !bool_decide_eq_false_2 by lia. by rewrite Z.add_0_r.
    + intros k Hk. unfold T, δ.
      assert (H2 : 2 ^ (k + 1) = 2 * 2 ^ k) by (apply Z.pow_succ_r; lia).
      assert (H3 : k = order → 2 ^ k = 2 ^ order) by (by intros ->).
      repeat case_bool_decide; lia.
    + unfold T. unfold areas_present in Hpresent. rewrite Hpresent.
      rewrite !bool_decide_eq_false_2 by lia. done.
  - replace ((counted_pages (free_area instance) 0 - 2 ^ order) * PAGE_SIZE)
      with (counted_pages (free_area instance) 0 * PAGE_SIZE
            + - (2 ^ order * PAGE_SIZE)) by lia.
    apply same32_add; [|done]. unfold same32. by rewrite uint32_idem.
Qed.

(** An allocation of order [order] that returns a block takes exactly
    [2^order] pages off the free space reported: on an instance with its
    free areas ([MAX_BUDDYSYSTEM_GFP_ORDER] at most 32),
    [buddy_system_get_free_space] after the call is its value before minus
    [2^order * PAGE_SIZE], as a 32-bit value. *)
Theorem bb_alloc_pages_takes_free_space (instance instance' : bb_instance_t)
    (order page : Z) :
  MAX ≤ 32 → 0 ≤ order →
  areas_present MAX instance →
  bb_alloc_pages MAX instance order = Ok (Some page, instance') →
  ∃ before after,
    buddy_system_get_free_space MAX PAGE_SIZE instance = Ok before ∧
    buddy_system_get_free_space MAX PAGE_SIZE instance' = Ok after ∧
    after = uint32 (before - 2 ^ order * PAGE_SIZE).
Proof. apply free_space_after_alloc. Qed.

End SpaceAfter.

(** ** The free areas after a deallocation *)

Lemma merge_blocks_areas (n : nat) :
  ∀ (instance instance' : bb_instance_t) (page_idx order page_idx' order' : Z),
    merge_blocks MAX n instance page_idx order
      = Ok (instance', page_idx', order') →
    order ≤ order' ≤ order + Z.of_nat n ∧
    (order < order' → 0 ≤ order) ∧
    free_pages_cache_list instance' = free_pages_cache_list instance ∧
    free_pages_cache_size instance' = free_pages_cache_size instance ∧
    Buddy.size instance' = Buddy.size instance ∧
    length (free_area instance') = length (free_area instance) ∧
    ∀ k a, 0 ≤ k → free_area instance !! Z.to_nat k = Some a →
      ∃ a', free_area instance' !! Z.to_nat k = Some a' ∧
            nr_free a' = (if bool_decide (order ≤ k < order')
                          then int32 (nr_free a - 1) else nr_free a).
Proof.
  induction n as [|n IH];
    intros instance instance' page_idx order page_idx' order' H;
    cbn [merge_blocks] in H.
  - inversion H; subst. split; [lia|]. split; [lia|].
    split; [done|]. split; [done|]. split; [done|]. split; [done|].
    intros k a Hk Ha. exists a. split; [done|].
    rewrite bool_decide_eq_false_2 by lia. done.
  - bind_inv H as b Hb.
    destruct (negb (__page_is_buddy b order)).
    { inversion H; subst. split; [lia|]. split; [lia|].
      split; [done|]. split; [done|]. split; [done|]. split; [done|].
      intros k a Hk Ha. exists a. split; [done|].
      rewrite bool_decide_eq_false_2 by lia. done. }
    bind_inv H as area Harea. bind_inv H as b' Hb'. bind_inv H as p' Hp'.
    apply load_area_Ok in Harea as [Horder Harea].
    apply IH in H as (Hle & _ & Hcache & Hcsize & Hsize & Hlen & Hareas).
    split; [lia|]. split; [lia|].
    split; [done|]. split; [done|]. split; [done|].
    split.
    { rewrite Hlen. simpl. by rewrite length_insert, length_fmap. }
    intros k a Hk Ha. simpl in Hareas, Harea.
    destruct (decide (k = order)) as [->|Hne].
    + rewrite list_lookup_fmap, Ha in Harea. simpl in Harea.
      inversion Harea; subst area; clear Harea.
      destruct (Hareas order (mk_area (unlink (__get_page_from_base 0
                   (__get_buddy_at_index page_idx order)) (free_list a))
                   (int32 (nr_free a - 1)))) as (a' & Ha' & Hnr); [lia | |].
      { apply list_lookup_insert_eq. rewrite length_fmap.
        by eapply lookup_lt_Some. }
      exists a'. split; [done|]. rewrite Hnr.
      rewrite bool_decide_eq_false_2 by lia.
      rewrite bool_decide_eq_true_2 by lia. done.
    + destruct (Hareas k (mk_area (unlink (__get_page_from_base 0
                   (__get_buddy_at_index page_idx order)) (free_list a))
                   (nr_free a))) as (a' & Ha' & Hnr); [lia | |].
      { rewrite list_lookup_insert_ne by lia.
        rewrite list_lookup_fmap, Ha. done. }
      exists a'. split; [done|]. rewrite Hnr. simpl.
      repeat case_bool_decide; (done || lia).
Qed.

Lemma bb_free_pages_areas (instance instance' : bb_instance_t) (page : Z)
    (d : bb_page_t) :
  load_page instance page = Ok d →
  bb_free_pages MAX instance page = Ok instance' →
  ∃ final_order head,
    Buddy.order d ≤ final_order < MAX ∧ 0 ≤ Buddy.order d ∧
    free_pages_cache_list instance' = free_pages_cache_list instance ∧
    free_pages_cache_size instance' = free_pages_cache_size instance ∧
    Buddy.size instance' = Buddy.size instance ∧
    length (free_area instance') = length (free_area instance) ∧
    (∃ a' l, free_area instance' !! Z.to_nat final_order = Some a' ∧
             free_list a' = head :: l) ∧
    ∀ k a, 0 ≤ k → free_area instance !! Z.to_nat k = Some a →
      ∃ a', free_area instance' !! Z.to_nat k = Some a' ∧
            nr_free a' = (if bool_decide (Buddy.order d ≤ k < final_order)
                          then int32 (nr_free a - 1) else nr_free a).
Proof.
  intros Hd H. unfold bb_free_pages in H. rewrite Hd, bind_Ok_l in H.
  destruct (__bb_test_flag d FREE_PAGE || negb (__bb_test_flag d ROOT_PAGE));
    [discriminate|].
  bind_inv H as r Hmerge. destruct r as [[i2 page_idx] final_order].
  bind_inv H as d2 Hd2. bind_inv H as area Harea.
  inversion H; subst instance'; clear H.
  apply load_area_Ok in Harea as [Hfinal Harea]. simpl in Harea.
  apply merge_blocks_areas in Hmerge
    as (Hle & Hpos & Hcache & Hcsize & Hsize & Hlen & Hareas).
  exists final_order, (__get_page_from_base 0 page_idx).
  split; [lia|]. split; [lia|].
  split; [done|]. split; [done|]. split; [done|].
  split.
  { simpl. by rewrite length_insert, Hlen. }
  split.
  { eexists _, _. split.
    - simpl. apply list_lookup_insert_eq. by eapply lookup_lt_Some.
    - done. }
  intros k a Hk Ha. destruct (Hareas k a Hk Ha) as (a' & Ha' & Hnr). simpl.
  destruct (decide (k = final_order)) as [->|Hne].
  - eexists. split.
    + apply list_lookup_insert_eq. by eapply lookup_lt_Some.
    + simpl. rewrite Ha' in Harea. inversion Harea; subst area. done.
  - exists a'. split; [|done]. rewrite list_lookup_insert_ne by lia. done.
Qed.

(** The coalescing step keeps the lower of the block and its buddy: it
    clears bit [order] of the index. *)
Lemma merged_index_bits (page_idx order b : Z) :
  0 ≤ order < 32 → 0 ≤ b →
  Z.testbit (Z.land page_idx (__get_buddy_at_index page_idx order)) b
  = Z.testbit page_idx b && negb (b =? order).
Proof.
  intros Horder Hb. unfold __get_buddy_at_index.
  rewrite shiftl_1_uint32 by done.
  rewrite Z.land_spec, Z.lxor_spec, Z.pow2_bits_eqb by lia.
  destruct (Z.testbit page_idx b), (Z.eqb_spec order b), (Z.eqb_spec b order);
    (done || lia).
Qed.

Lemma merged_index_cases (page_idx order : Z) :
  0 ≤ order < 32 →
  Z.land page_idx (__get_buddy_at_index page_idx order) = page_idx ∨
  Z.land page_idx (__get_buddy_at_index page_idx order)
    = __get_buddy_at_index page_idx order.
Proof.
  intros Horder. destruct (Z.testbit page_idx order) eqn:Hbit; [right | left];
    apply Z.bits_inj'; intros b Hb; rewrite merged_index_bits by done.
  - unfold __get_buddy_at_index. rewrite shiftl_1_uint32 by done.
    rewrite Z.lxor_spec, Z.pow2_bits_eqb by lia.
    destruct (Z.eqb_spec b order) as [->|Hne].
    + rewrite Hbit, Z.eqb_refl. done.
    + destruct (Z.eqb_spec order b); [lia|].
      by destruct (Z.testbit page_idx b).
  - destruct (Z.eqb_spec b order) as [->|Hne].
    + rewrite Hbit. done.
    + by destruct (Z.testbit page_idx b).
Qed.

(** The index the coalescing loop ends with is the index it started with,
    with the bits of the orders it went through cleared; its descriptor is
    FREE when that of the starting index was. *)
Lemma merge_blocks_head (n : nat) :
  ∀ (instance instance' : bb_instance_t) (page_idx order page_idx' order' : Z),
    MAX ≤ 32 →
    merge_blocks MAX n instance page_idx order
      = Ok (instance', page_idx', order') →
    (∀ b, 0 ≤ b →
          Z.testbit page_idx' b
          = Z.testbit page_idx b && negb ((order <=? b) && (b <? order'))) ∧
    (is_free instance (__get_page_from_base 0 page_idx) →
     is_free instance' (__get_page_from_base 0 page_idx')).
Proof.
  induction n as [|n IH];
    intros instance instance' page_idx order page_idx' order' HMAX H.
  - cbn [merge_blocks] in H. inversion H; subst. split; [|done].
    intros b Hb. destruct (Z.leb_spec order' b), (Z.ltb_spec b order');
      simpl; try lia; by rewrite andb_true_r.
  - pose proof (merge_blocks_areas _ _ _ _ _ _ _ H) as (Hle & _).
    cbn [merge_blocks] in H. bind_inv H as b0 Hb0.
    destruct (__page_is_buddy b0 order) eqn:Hbuddy; simpl in H.
    2:{ inversion H; subst. split; [|done].
        intros b Hb. destruct (Z.leb_spec order' b), (Z.ltb_spec b order');
          simpl; try lia; by rewrite andb_true_r. }
    bind_inv H as area Harea. bind_inv H as b' Hb'. bind_inv H as p' Hp'.
    apply load_area_Ok in Harea as [Horder _].
    pose proof (merge_blocks_areas _ _ _ _ _ _ _ H) as (Hle' & _).
    apply IH in H as [Hbits Hfree]; [|done]. split.
    + intros b Hb. rewrite Hbits, merged_index_bits by (done || lia).
      destruct (Z.testbit page_idx b); simpl; [|done].
      destruct (Z.eqb_spec b order), (Z.leb_spec (order + 1) b),
        (Z.leb_spec order b), (Z.ltb_spec b order'); simpl; (done || lia).
    + intros Hpage. apply Hfree.
      set (i1 := store_area (list_head_remove instance
                   (__get_page_from_base 0 (__get_buddy_at_index page_idx order)))
                   order (mk_area (free_list area) (int32 (nr_free area - 1))))
        in *.
      assert (Hbuddy_free : is_free i1
                (__get_page_from_base 0 (__get_buddy_at_index page_idx order))).
      { exists b0. split; [exact Hb0|].
        unfold __page_is_buddy in Hbuddy.
        by apply andb_true_iff in Hbuddy as [? _]. }
      assert (Hpage1 : is_free i1 (__get_page_from_base 0 page_idx))
        by exact Hpage.
      assert (Hkeep : ∀ q, is_free i1 q →
                is_free (store_page
                           (store_page i1
                              (__get_page_from_base 0
                                 (__get_buddy_at_index page_idx order))
                              (__bb_clear_flag b' ROOT_PAGE))
                           (__get_page_from_base 0 page_idx)
                           (__bb_clear_flag p' ROOT_PAGE)) q).
      { intros q Hq.
        eapply is_free_store; [|exact Hp'|by apply test_clear_other].
        eapply is_free_store; [|exact Hb'|by apply test_clear_other].
        exact Hq. }
      destruct (merged_index_cases page_idx order) as [-> | ->];
        [lia | by apply Hkeep | by apply Hkeep].
Qed.

Lemma merge_blocks_lists (n : nat) :
  ∀ (instance instance' : bb_instance_t) (page_idx order page_idx' order' : Z),
    merge_blocks MAX n instance page_idx order
      = Ok (instance', page_idx', order') →
    ∀ (k : nat) a', free_area instance' !! k = Some a' →
      ∃ a, free_area instance !! k = Some a ∧
           ∀ x, x ∈ free_list a' → x ∈ free_list a.
Proof.
  induction n as [|n IH];
    intros instance instance' page_idx order page_idx' order' H k a' Ha';
    cbn [merge_blocks] in H.
  - inversion H; subst. by exists a'.
  - bind_inv H as b0 Hb0.
    destruct (negb (__page_is_buddy b0 order)).
    { inversion H; subst. by exists a'. }
    bind_inv H as area Harea. bind_inv H as b' Hb'. bind_inv H as p' Hp'.
    apply load_area_Ok in Harea as [Horder Harea].
    destruct (IH _ _ _ _ _ _ H k a' Ha') as (a1 & Ha1 & Hsub).
    simpl in Ha1, Harea. rewrite list_lookup_fmap in Harea.
    rewrite list_lookup_insert, list_lookup_fmap in Ha1.
    destruct (free_area instance !! Z.to_nat order) as [a0|] eqn:Ha0;
      [|discriminate].
    simpl in Harea. inversion Harea; subst area; clear Harea.
    case_decide as Hk.
    + destruct Hk as [<- _]. inversion Ha1; subst a1; clear Ha1.
      exists a0. split; [done|]. intros x Hx. apply Hsub in Hx. simpl in Hx.
      unfold unlink in Hx. by apply list_elem_of_filter in Hx as [_ ?].
    + destruct (free_area instance !! k) as [a|] eqn:Ha; [|discriminate].
      simpl in Ha1. inversion Ha1; subst a1; clear Ha1.
      exists a. split; [done|]. intros x Hx. apply Hsub in Hx. simpl in Hx.
      unfold unlink in Hx. by apply list_elem_of_filter in Hx as [_ ?].
Qed.

(** What [bb_free_pages] does to the free areas
    ([MAX_BUDDYSYSTEM_GFP_ORDER] at most 32). A call that returns has
    coalesced the block of order [order] up to some order [final_order].
    The head of the coalesced block is [page] with the bits [order] to
    [final_order - 1] cleared; its descriptor is left FREE and ROOT with the
    order [final_order], and it is linked first in the list of that order,
    before blocks that were in that list already. The call has decremented
    the counter of every order it coalesced through and has incremented
    none: the counter of [final_order] and of every other order is what it
    was. The cache, the size of the zone and the number of areas are
    untouched. *)
Theorem bb_free_pages_never_increments (instance instance' : bb_instance_t)
    (page : Z) (d : bb_page_t) :
  MAX ≤ 32 →
  load_page instance page = Ok d →
  bb_free_pages MAX instance page = Ok instance' →
  ∃ final_order head,
    Buddy.order d ≤ final_order < MAX ∧ 0 ≤ Buddy.order d ∧
    (∀ b, 0 ≤ b →
          Z.testbit head b
          = Z.testbit page b
            && negb ((Buddy.order d <=? b) && (b <? final_order))) ∧
    (∃ dh, load_page instance' head = Ok dh ∧
           __bb_test_flag dh FREE_PAGE = true ∧
           __bb_test_flag dh ROOT_PAGE = true ∧
           Buddy.order dh = final_order) ∧
    (∃ a a' l, free_area instance !! Z.to_nat final_order = Some a ∧
               free_area instance' !! Z.to_nat final_order = Some a' ∧
               free_list a' = head :: l ∧
               ∀ x, x ∈ l → x ∈ free_list a) ∧
    free_pages_cache_list instance' = free_pages_cache_list instance ∧
    free_pages_cache_size instance' = free_pages_cache_size instance ∧
    Buddy.size instance' = Buddy.size instance ∧
    length (free_area instance') = length (free_area instance) ∧
    ∀ k a, 0 ≤ k → free_area instance !! Z.to_nat k = Some a →
      ∃ a', free_area instance' !! Z.to_nat k = Some a' ∧
            nr_free a' = (if bool_decide (Buddy.order d ≤ k < final_order)
                          then int32 (nr_free a - 1) else nr_free a).
Proof.
  intros HMAX Hd H. unfold bb_free_pages in H.
  rewrite Hd, bind_Ok_l in H.
  destruct (__bb_test_flag d FREE_PAGE || negb (__bb_test_flag d ROOT_PAGE));
    [discriminate|].
  bind_inv H as r Hmerge. destruct r as [[i2 page_idx] final_order].
  bind_inv H as d2 Hd2. bind_inv H as area Harea.
  inversion H; subst instance'; clear H.
  apply load_area_Ok in Harea as [Hfinal Harea]. simpl in Harea.
  destruct (merge_blocks_head _ _ _ _ _ _ _ HMAX Hmerge) as [Hbits Hhead].
  pose proof (merge_blocks_lists _ _ _ _ _ _ _ Hmerge) as Hlists.
  apply merge_blocks_areas in Hmerge
    as (Hle & Hpos & Hcache & Hcsize & Hsize & Hlen & Hareas).
  exists final_order, (__get_page_from_base 0 page_idx).
  split; [lia|]. split; [lia|]. split.
  { intros b Hb. unfold __get_page_from_base. rewrite Z.add_0_l. by apply Hbits. }
  split.
  { assert (Hwas : is_free i2 (__get_page_from_base 0 page_idx)).
    { apply Hhead. exists (__bb_set_flag d FREE_PAGE). split.
      - by eapply load_store_same.
      - by apply test_set_same. }
    destruct Hwas as (dh & Hdh & Hdh_free). rewrite Hd2 in Hdh.
    inversion Hdh; subst dh; clear Hdh.
    eexists. split; [rewrite load_page_store_area; by eapply load_store_same|].
    rewrite !test_set_order. split; [|split; [by apply test_set_same | done]].
    by rewrite !test_set_other. }
  split.
  { destruct (Hlists (Z.to_nat final_order) area Harea) as (a & Ha & Hsub).
    simpl in Ha. exists a. eexists _, _. split; [exact Ha|]. split.
    - simpl. apply list_lookup_insert_eq. by eapply lookup_lt_Some.
    - split; [done|]. exact Hsub. }
  split; [done|]. split; [done|]. split; [done|].
  split.
  { simpl. by rewrite length_insert, Hlen. }
  intros k a Hk Ha. destruct (Hareas k a Hk Ha) as (a' & Ha' & Hnr). simpl.
  destruct (decide (k = final_order)) as [->|Hne].
  - eexists. split.
    + apply list_lookup_insert_eq. by eapply lookup_lt_Some.
    + simpl. rewrite Ha' in Harea. inversion Harea; subst area. done.
  - exists a'. split; [|done]. rewrite list_lookup_insert_ne by lia. done.
Qed.

Section SpaceBack.

Variable PAGE_SIZE : Z.

Lemma free_space_after_free (instance instance' : bb_instance_t)
    (page : Z) (d : bb_page_t) :
  areas_present MAX instance →
  load_page instance page = Ok d →
  bb_free_pages MAX instance page = Ok instance' →
  ∃ final_order before after,
    Buddy.order d ≤ final_order < MAX ∧
    buddy_system_get_free_space MAX PAGE_SIZE instance = Ok before ∧
    buddy_system_get_free_space MAX PAGE_SIZE instance' = Ok after ∧
    after = uint32 (before
                    - (2 ^ final_order - 2 ^ Buddy.order d) * PAGE_SIZE).
Proof.
  intros Hpresent Hd H.
  destruct (bb_free_pages_areas _ _ _ _ Hd H)
    as (f & _ & Hf & Horder & _ & _ & _ & Hlen & _ & Hmoves).
  set (order := Buddy.order d) in *.
  assert (Hpresent' : areas_present MAX instance')
    by (unfold areas_present in *; congruence).
  rewrite !free_space_value by (done || lia).
  exists f. eexists _, _. split; [done|]. split; [done|]. split; [done|].
  apply (same32_trans _ ((counted_pages (free_area instance) 0
                          - (2 ^ f - 2 ^ order)) * PAGE_SIZE)).
  - apply same32_mul; [|done].
    set (δ := λ k, if bool_decide (order ≤ k < f) then -1 else 0).
    set (T := λ k, if bool_decide (k ≤ order) then - (2 ^ f - 2 ^ order)
                   else if bool_decide (k < f) then - (2 ^ f - 2 ^ k) else 0).
    replace (counted_pages (free_area instance) 0 - (2 ^ f - 2 ^ order))
      with (counted_pages (free_area instance) 0 + T 0).
    2:{ unfold T. rewrite bool_decide_eq_true_2 by lia. lia. }
    apply (counted_pages_moved δ T); [done | | |].
    + intros i a a' Ha Ha'. rewrite Z.add_0_l.
      destruct (Hmoves (Z.of_nat i) a) as (a'' & Ha'' & Hnr);
        [lia | by rewrite Nat2Z.id |].
      rewrite Nat2Z.id in Ha''. rewrite Ha' in Ha''.
      inversion Ha''; subst a''; clear Ha''. unfold δ. rewrite Hnr.
      case_bool_decide; [apply same32_int32 | by rewrite Z.add_0_r].
    + intros k Hk. unfold T, δ.
      assert (H2 : 2 ^ (k + 1) = 2 * 2 ^ k) by (apply Z.pow_succ_r; lia).
      assert (H3 : k = order → 2 ^ k = 2 ^ order) by (by intros ->).
      assert (H4 : k + 1 = f → 2 ^ f = 2 ^ (k + 1)) by (by intros <-).
      assert (H5 : order = f → 2 ^ f = 2 ^ order) by (by intros ->).
      repeat case_bool_decide; lia.
    + unfold T. unfold areas_present in Hpresent. rewrite Hpresent.
      assert (H5 : order = f → 2 ^ f = 2 ^ order) by (by intros ->).
      repeat case_bool_decide; lia.
  - replace ((counted_pages (free_area instance) 0 - (2 ^ f - 2 ^ order))
             * PAGE_SIZE)
      with (counted_pages (free_area instance) 0 * PAGE_SIZE
            + - ((2 ^ f - 2 ^ order) * PAGE_SIZE)) by lia.
    apply same32_add; [|done]. unfold same32. by rewrite uint32_idem.
Qed.

(** A deallocation gives nothing back to the free space reported. On an
    instance with its free areas, after [bb_free_pages] returned for a
    block of order [order] that it coalesced up to [final_order],
    [buddy_system_get_free_space] is its value before the call minus
    [(2^final_order - 2^order) * PAGE_SIZE], as a 32-bit value: unchanged
    when no buddy was free, smaller otherwise, and never the value before
    plus the [2^order] pages freed. *)
Theorem bb_free_pages_gives_no_space_back (instance instance' : bb_instance_t)
    (page : Z) (d : bb_page_t) :
  areas_present MAX instance →
  load_page instance page = Ok d →
  bb_free_pages MAX instance page = Ok instance' →
  ∃ final_order before after,
    Buddy.order d ≤ final_order < MAX ∧
    buddy_system_get_free_space MAX PAGE_SIZE instance = Ok before ∧
    buddy_system_get_free_space MAX PAGE_SIZE instance' = Ok after ∧
    after = uint32 (before
                    - (2 ^ final_order - 2 ^ Buddy.order d) * PAGE_SIZE).
Proof. apply free_space_after_free. Qed.

End SpaceBack.

(** ** The page cache *)

(** The descriptors around an allocation: the block returned was FREE, a
    descriptor that was not FREE is not written, and no descriptor becomes
    FREE. *)
Lemma bb_alloc_pages_descriptors (instance instance' : bb_instance_t)
    (order page : Z) :
  bb_alloc_pages MAX instance order = Ok (Some page, instance') →
  is_free instance page ∧
  (∃ d, load_page instance' page = Ok d ∧
        __bb_test_flag d FREE_PAGE = false ∧ __bb_test_flag d ROOT_PAGE = true ∧
        Buddy.order d = order) ∧
  (∀ q dq, load_page instance q = Ok dq →
           __bb_test_flag dq FREE_PAGE = false →
           load_page instance' q = Ok dq) ∧
  (∀ q, is_free instance' q → is_free instance q).
Proof.
  unfold bb_alloc_pages. intros H. bind_inv H as found Hfound.
  destruct found as [current_order|]; [|by inversion H].
  apply find_block_Some in Hfound as (Hrange & a & page0 & l & Harea & Hlist).
  rewrite Harea, bind_Ok_l, Hlist in H.
  bind_inv H as a1 Ha1. bind_inv H as d0 Hd0. bind_inv H as u Hu.
  apply assert_Ok in Hu. apply andb_true_iff in Hu as [Hfree Hroot].
  bind_inv H as i3 Hsplit. bind_inv H as d3 Hd3.
  inversion H; subst page0 instance'; clear H.
  set (i1 := store_area (list_head_remove instance page) current_order
               (mk_area (free_list a1) (int32 (nr_free a1 - 1)))) in *.
  assert (Hi1 : ∀ q, load_page i1 q = load_page instance q) by done.
  set (i2 := store_page i1 page (__bb_clear_flag d0 FREE_PAGE)) in *.
  assert (Hsize : 0 ≤ uint32 (Z.shiftl 1 current_order))
    by (apply Z.mod_pos_bound; lia).
  pose proof (split_block_frame _ _ _ _ _ _ _ Hsize Hsplit) as Hframe.
  assert (Hhead : load_page i3 page = Ok (__bb_clear_flag d0 FREE_PAGE)).
  { destruct (Hframe page) as [-> | (_ & d & Hd & Hf & _)].
    - by eapply load_store_same.
    - unfold i2 in Hd. rewrite (load_store_same _ _ _ _ Hd0) in Hd.
      inversion Hd; subst. by rewrite test_clear_same in Hf. }
  rewrite Hhead in Hd3. inversion Hd3; subst d3; clear Hd3.
  assert (Hi2 : ∀ q, q ≠ page → load_page i2 q = load_page instance q).
  { intros q Hq. unfold i2. rewrite (load_store _ _ _ _ _ Hd0).
    destruct (decide (page = q)); [congruence | apply Hi1]. }
  split; [exists d0; by rewrite <- Hi1|]. split.
  { eexists. split; [by eapply load_store_same|].
    rewrite !test_set_order, test_clear_same, test_clear_other by done. done. }
  split.
  - intros q dq Hq Hqfree.
    assert (Hne : q ≠ page).
    { intros ->. rewrite <- Hi1, Hd0 in Hq. inversion Hq; subst. congruence. }
    rewrite (load_store _ _ _ _ _ Hhead).
    destruct (decide (page = q)); [congruence|].
    destruct (Hframe q) as [Heq | (_ & d & Hd & Hf & _)].
    + by rewrite Heq, Hi2.
    + rewrite Hi2, Hq in Hd by done. inversion Hd; subst. congruence.
  - intros q (dq & Hq & Hqfree).
    rewrite (load_store _ _ _ _ _ Hhead) in Hq.
    destruct (decide (page = q)) as [<-|Hne].
    { inversion Hq; subst dq.
      by rewrite test_set_order, test_clear_same in Hqfree. }
    destruct (Hframe q) as [Heq | (_ & d & Hd & Hf & _)].
    + exists dq. split; [|done]. by rewrite <- Hi2, <- Heq.
    + exists d. split; [|done]. by rewrite <- Hi2.
Qed.

Lemma bb_alloc_pages_cache (instance instance' : bb_instance_t)
    (order : Z) (page : option Z) :
  bb_alloc_pages MAX instance order = Ok (page, instance') →
  free_pages_cache_list instance' = free_pages_cache_list instance ∧
  free_pages_cache_size instance' = free_pages_cache_size instance.
Proof.
  unfold bb_alloc_pages. intros H. bind_inv H as found Hfound.
  destruct found as [current_order|]; [|by inversion H].
  bind_inv H as a Ha. destruct (free_list a) as [|page0 l]; [discriminate|].
  bind_inv H as a1 Ha1. bind_inv H as d0 Hd0. bind_inv H as u Hu.
  bind_inv H as i3 Hsplit. bind_inv H as d3 Hd3.
  inversion H; subst; clear H.
  apply split_block_areas in Hsplit as (Hcache & Hcsize & _). done.
Qed.

Lemma __cache_extend_loop_spec (n : nat) :
  ∀ (instance instance' : bb_instance_t),
    __cache_extend_loop MAX n instance = Ok instance' →
    ∃ got,
      length got = n ∧
      free_pages_cache_list instance' = got ++ free_pages_cache_list instance ∧
      same32 (free_pages_cache_size instance')
             (free_pages_cache_size instance + Z.of_nat n) ∧
      NoDup got ∧
      (∀ p, p ∈ got →
            is_free instance p ∧
            ∃ d, load_page instance' p = Ok d ∧
                 __bb_test_flag d FREE_PAGE = false ∧
                 __bb_test_flag d ROOT_PAGE = true ∧ Buddy.order d = 0) ∧
      (∀ q dq, load_page instance q = Ok dq →
               __bb_test_flag dq FREE_PAGE = false →
               load_page instance' q = Ok dq) ∧
      (∀ q, is_free instance' q → is_free instance q).
Proof.
  induction n as [|n IH]; intros instance instance' H; cbn [__cache_extend_loop] in H.
  - inversion H; subst. exists []. split; [done|]. split; [done|].
    split; [by rewrite Z.add_0_r|]. split; [constructor|].
    split; [by intros p Hp%elem_of_nil|]. done.
  - bind_inv H as r Halloc. destruct r as [[page|] i1]; [|discriminate].
    bind_inv H as d1 Hd1.
    destruct (bb_alloc_pages_cache _ _ _ _ Halloc) as [Hcache1 Hcsize1].
    apply bb_alloc_pages_descriptors in Halloc
      as (Hwasfree & (d & Hd & Hfree & Hroot & Horder) & Hkeeps & Hnofree).
    apply IH in H
      as (got & Hlen & Hcache & Hsize & Hnodup & Hgot & Hkeeps' & Hnofree').
    simpl in Hcache, Hsize.
    exists (got ++ [page]). split; [rewrite length_app; simpl; lia|].
    split.
    { rewrite Hcache, <- app_assoc, Hcache1. done. }
    split.
    { eapply same32_trans; [exact Hsize|]. rewrite Hcsize1.
      replace (free_pages_cache_size instance + Z.of_nat (S n))
        with (free_pages_cache_size instance + 1 + Z.of_nat n) by lia.
      apply same32_add; [apply same32_uint32 | done]. }
    split.
    { apply NoDup_app. split; [done|]. split; [|apply NoDup_singleton].
      intros p Hp Hp1. apply list_elem_of_singleton in Hp1 as ->.
      destruct (Hgot page Hp) as [(dp & Hdp & Hpfree) _].
      change (load_page i1 page = Ok dp) in Hdp. congruence. }
    split.
    { intros p [Hp|Hp]%elem_of_app.
      - destruct (Hgot p Hp) as [Hpfree Hpd]. split; [|done].
        apply Hnofree. exact Hpfree.
      - apply list_elem_of_singleton in Hp as ->. split; [done|].
        exists d. split; [|done]. apply Hkeeps'; done. }
    split.
    { intros q dq Hq Hqfree. apply Hkeeps'; [|done]. apply Hkeeps; done. }
    intros q Hq. apply Hnofree, Hnofree', Hq.
Qed.

(** [__cache_extend] refills the cache from the free pool. A call that
    returns has pushed [count] pages on the cache list, the last one
    allocated first in the list, and added [count] to
    [free_pages_cache_size] (a 32-bit counter); the pages are pairwise
    distinct, each was FREE before the call and is after it an allocated
    block of order 0: not FREE, ROOT. *)
Theorem __cache_extend_takes_free_pages (instance instance' : bb_instance_t)
    (count : Z) :
  __cache_extend MAX instance count = Ok instance' →
  ∃ got,
    length got = Z.to_nat count ∧
    free_pages_cache_list instance' = got ++ free_pages_cache_list instance ∧
    same32 (free_pages_cache_size instance')
           (free_pages_cache_size instance + Z.of_nat (length got)) ∧
    NoDup got ∧
    ∀ p, p ∈ got →
         is_free instance p ∧
         ∃ d, load_page instance' p = Ok d ∧
              __bb_test_flag d FREE_PAGE = false ∧
              __bb_test_flag d ROOT_PAGE = true ∧ Buddy.order d = 0.
Proof.
  unfold __cache_extend. intros H.
  apply __cache_extend_loop_spec in H
    as (got & Hlen & Hcache & Hsize & Hnodup & Hgot & _).
  exists got. rewrite Hlen. done.
Qed.

(** Below the low watermark a cached allocation needs the buddy system:
    when no free area holds a block, [bb_alloc_page_cached] dereferences the
    null pointer that [bb_alloc_pages] returned to [__cache_extend], whether
    or not the cache list still holds pages. *)
Theorem bb_alloc_page_cached_faults_when_exhausted (instance : bb_instance_t) :
  0 ≤ free_pages_cache_size instance < LOW_WATERMARK_LEVEL →
  (∀ k, 0 ≤ k < MAX →
        ∃ a, free_area instance !! Z.to_nat k = Some a ∧ free_list a = []) →
  bb_alloc_page_cached MAX instance = Fault "null page descriptor".
Proof.
  intros Hsize Hempty. unfold bb_alloc_page_cached, __cached_alloc.
  destruct (Z.ltb_spec (free_pages_cache_size instance) LOW_WATERMARK_LEVEL)
    as [_|?]; [|lia].
  unfold __cache_extend.
  change MID_WATERMARK_LEVEL with 40. change LOW_WATERMARK_LEVEL with 10 in Hsize.
  assert (Hcount : int32 (uint32 (40 - free_pages_cache_size instance))
                   = 40 - free_pages_cache_size instance).
  { unfold int32, uint32. rewrite (Z.mod_small (40 - _)) by lia.
    rewrite Z.mod_small by lia. lia. }
  rewrite Hcount.
  destruct (Z.to_nat (40 - free_pages_cache_size instance)) as [|n] eqn:Hn;
    [lia|].
  cbn [__cache_extend_loop]. unfold bb_alloc_pages.
  rewrite find_block_None; [done | done |].
  intros k Hk. split; [lia|]. apply Hempty. lia.
Qed.

Lemma bb_free_pages_cache (instance instance' : bb_instance_t) (page : Z) :
  bb_free_pages MAX instance page = Ok instance' →
  free_pages_cache_list instance' = free_pages_cache_list instance ∧
  free_pages_cache_size instance' = free_pages_cache_size instance.
Proof.
  intros H. pose proof H as H'. unfold bb_free_pages in H'.
  bind_inv H' as d Hd.
  destruct (bb_free_pages_areas _ _ _ _ Hd H)
    as (f & head & _ & _ & Hcache & Hcsize & _). done.
Qed.

Lemma bb_free_pages_keeps_free (instance instance' : bb_instance_t)
    (page q : Z) :
  bb_free_pages MAX instance page = Ok instance' →
  is_free instance q → is_free instance' q.
Proof.
  unfold bb_free_pages. intros H Hq. bind_inv H as d0 Hd0.
  destruct (__bb_test_flag d0 FREE_PAGE || negb (__bb_test_flag d0 ROOT_PAGE));
    [discriminate|].
  bind_inv H as merged Hmerged. destruct merged as [[instance1 page_idx] order1].
  bind_inv H as d1 Hd1. bind_inv H as area Harea. inversion H; subst; clear H.
  assert (Hfree : is_free instance1 q).
  { eapply merge_blocks_is_free; [|exact Hmerged].
    destruct Hq as (dq & Hdq & Hf). unfold is_free.
    rewrite (load_store _ _ _ _ _ Hd0).
    destruct (decide (page = q)); [|eauto].
    eexists. split; [done|]. by apply test_set_same. }
  unfold store_area.
  destruct (is_free_store instance1 q (__get_page_from_base 0 page_idx) d1
              (set_order (__bb_set_flag (__bb_set_flag d1 ROOT_PAGE) ROOT_PAGE)
                         order1)
              Hfree Hd1) as (d & Hd & Hf).
  { rewrite test_set_order, !test_set_other; done. }
  exists d. split; [exact Hd | exact Hf].
Qed.

Lemma __cache_shrink_loop_spec (n : nat) :
  ∀ (instance instance' : bb_instance_t),
    __cache_shrink_loop MAX n instance = Ok instance' →
    (n ≤ length (free_pages_cache_list instance))%nat ∧
    free_pages_cache_list instance' = drop n (free_pages_cache_list instance) ∧
    same32 (free_pages_cache_size instance')
           (free_pages_cache_size instance - Z.of_nat n) ∧
    (∀ p, p ∈ take n (free_pages_cache_list instance) → is_free instance' p) ∧
    (∀ q, is_free instance q → is_free instance' q).
Proof.
  induction n as [|n IH]; intros instance instance' H;
    cbn [__cache_shrink_loop] in H.
  - inversion H; subst. split; [lia|]. split; [done|].
    split; [by rewrite Z.sub_0_r|]. split; [by intros p Hp%elem_of_nil | done].
  - destruct (free_pages_cache_list instance) as [|page rest] eqn:Hlist;
      simpl in H; [discriminate|].
    bind_inv H as i2 Hfree.
    destruct (bb_free_pages_cache _ _ _ Hfree) as [Hcache2 Hcsize2].
    simpl in Hcache2, Hcsize2.
    apply IH in H as (Hlen & Hcache & Hsize & Htaken & Hkeeps).
    simpl in Hlen, Hcache, Hsize, Htaken.
    rewrite Hcache2 in Hlen, Hcache, Htaken. rewrite Hcsize2 in Hsize.
    split; [simpl; lia|]. split; [done|].
    split.
    { eapply same32_trans; [exact Hsize|].
      replace (free_pages_cache_size instance - Z.of_nat (S n))
        with (free_pages_cache_size instance - 1 + - Z.of_nat n) by lia.
      apply same32_add; [apply same32_uint32 | done]. }
    split.
    + intros p Hp. simpl in Hp. apply elem_of_cons in Hp as [->|Hp].
      * apply Hkeeps. apply (bb_free_pages_is_free _ _ _ _ Hfree).
      * by apply Htaken.
    + intros q Hq. apply Hkeeps.
      apply (bb_free_pages_keeps_free _ _ _ _ Hfree). exact Hq.
Qed.

(** [__cache_shrink] drains the cache into the free pool. A call that
    returns found at least [count] pages on the cache list, has popped the
    first [count] of them, subtracted [count] from [free_pages_cache_size]
    (a 32-bit counter) and left every one of them FREE; a page that was
    FREE stays FREE. *)
Theorem __cache_shrink_returns_pages (instance instance' : bb_instance_t)
    (count : Z) :
  __cache_shrink MAX instance count = Ok instance' →
  (Z.to_nat count ≤ length (free_pages_cache_list instance))%nat ∧
  free_pages_cache_list instance'
    = drop (Z.to_nat count) (free_pages_cache_list instance) ∧
  same32 (free_pages_cache_size instance')
         (free_pages_cache_size instance - Z.of_nat (Z.to_nat count)) ∧
  (∀ p, p ∈ take (Z.to_nat count) (free_pages_cache_list instance) →
        is_free instance' p) ∧
  (∀ q, is_free instance q → is_free instance' q).
Proof. unfold __cache_shrink. apply __cache_shrink_loop_spec. Qed.

(** ** An allocation followed by the deallocation *)

Lemma split_block_length (n : nat) :
  ∀ (instance instance' : bb_instance_t) (page current_order size : Z),
    split_block MAX n instance page current_order size = Ok instance' →
    length (pages instance') = length (pages instance).
Proof.
  induction n as [|n IH]; intros instance instance' page co size H;
    cbn [split_block] in H.
  - by inversion H.
  - bind_inv H as b Hb. bind_inv H as u Hu. bind_inv H as area Harea.
    apply IH in H. rewrite H. simpl. by rewrite length_insert.
Qed.

Lemma bb_alloc_pages_length (instance instance' : bb_instance_t)
    (order : Z) (page : option Z) :
  bb_alloc_pages MAX instance order = Ok (page, instance') →
  length (pages instance') = length (pages instance).
Proof.
  unfold bb_alloc_pages. intros H. bind_inv H as found Hfound.
  destruct found as [current_order|]; [|by inversion H].
  bind_inv H as a Ha. destruct (free_list a) as [|page0 l]; [discriminate|].
  bind_inv H as a1 Ha1. bind_inv H as d0 Hd0. bind_inv H as u Hu.
  bind_inv H as i3 Hsplit. bind_inv H as d3 Hd3.
  inversion H; subst; clear H.
  apply split_block_length in Hsplit. simpl. rewrite length_insert, Hsplit.
  simpl. by rewrite length_insert.
Qed.

Section RoundTrip.

Variable PAGE_SIZE : Z.

(** A block returned by [bb_alloc_pages] can be given back: on an instance
    with its free areas and an aligned descriptor array
    ([MAX_BUDDYSYSTEM_GFP_ORDER] between 1 and 32), [bb_free_pages] on the
    block returns and leaves its head FREE. The round trip does not restore
    the free space reported: with [final_order] the order the block was
    coalesced to, [buddy_system_get_free_space] ends at its value before the
    allocation minus [2^final_order * PAGE_SIZE], as a 32-bit value. *)
Theorem alloc_free_round_trip (instance instance' : bb_instance_t)
    (order page : Z) :
  1 ≤ MAX ≤ 32 → 0 ≤ order →
  areas_present MAX instance → pages_aligned MAX instance →
  bb_alloc_pages MAX instance order = Ok (Some page, instance') →
  ∃ instance'' final_order before after,
    bb_free_pages MAX instance' page = Ok instance'' ∧
    is_free instance'' page ∧
    order ≤ final_order < MAX ∧
    buddy_system_get_free_space MAX PAGE_SIZE instance = Ok before ∧
    buddy_system_get_free_space MAX PAGE_SIZE instance'' = Ok after ∧
    after = uint32 (before - 2 ^ final_order * PAGE_SIZE).
Proof.
  intros HMAX Horder Hpresent Haligned Halloc.
  destruct (bb_alloc_pages_areas _ _ _ _ (proj2 HMAX) Horder Halloc)
    as (co & Hco & _ & _ & _ & _ & _ & Hlen & _).
  pose proof (bb_alloc_pages_length _ _ _ _ Halloc) as Hpages.
  destruct (bb_alloc_pages_descriptors _ _ _ _ Halloc)
    as (_ & (d & Hd & Hfree & Hroot & Hd_order) & _).
  assert (Hpresent' : areas_present MAX instance')
    by (unfold areas_present in *; congruence).
  assert (Haligned' : pages_aligned MAX instance')
    by (unfold pages_aligned in *; by rewrite Hpages).
  destruct (bb_free_pages_returns MAX instance' page d)
    as [instance'' Hback]; [done | done | done | done | done | done | lia |].
  destruct (free_space_after_alloc PAGE_SIZE _ _ _ _ (proj2 HMAX) Horder
              Hpresent Halloc) as (before & mid & Hbefore & Hmid & Hmid_eq).
  destruct (free_space_after_free PAGE_SIZE _ _ _ _ Hpresent' Hd Hback)
    as (f & mid' & after & Hf & Hmid' & Hafter & Hafter_eq).
  rewrite Hmid in Hmid'. inversion Hmid'; subst mid'; clear Hmid'.
  rewrite Hd_order in Hf, Hafter_eq.
  exists instance'', f, before, after.
  split; [done|]. split; [by eapply bb_free_pages_is_free|].
  split; [done|]. split; [done|]. split; [done|].
  rewrite Hafter_eq, Hmid_eq.
  apply (same32_trans _ (before - 2 ^ order * PAGE_SIZE
                         + - ((2 ^ f - 2 ^ order) * PAGE_SIZE))).
  - apply same32_add; [apply same32_uint32 | done].
  - replace (before - 2 ^ order * PAGE_SIZE + - ((2 ^ f - 2 ^ order) * PAGE_SIZE))
      with (before - 2 ^ f * PAGE_SIZE) by lia.
    done.
Qed.

End RoundTrip.

End Proofs.

(** ** The properties on the scenarios *)

(** A zone of 16 zeroed descriptors with 4 orders, initialised over an
    instance whose cache holds three pages: two blocks of order 3, and the
    cache as it was. *)
Lemma buddy_system_init_establishes_invariants_witness :
  ∃ instance,
    buddy_system_init 4 16 S1_refilled "zone" (zeroed 16) 0 32 16
      = Ok instance ∧
    free_pages_cache_list instance = [2; 1; 0] ∧
    free_pages_cache_size instance = 3 ∧
    counters instance = [0; 0; 0; 2] ∧
    free_lists instance = [[]; []; []; [0; 8]] ∧
    free_heads_flagged 4 instance ∧ free_lists_wf 4 instance.
Proof.
  destruct (buddy_system_init_establishes_invariants 4 16 S1_refilled "zone"
              (zeroed 16) 0 32 16)
    as (instance & Hinit & _ & Hcache & Hcsize & Hlists & Hcounters & _ & _
        & Hflags & Hwf);
    [lia | lia | reflexivity | exists 2; reflexivity | reflexivity |].
  exists instance.
  split; [exact Hinit|]. split; [exact Hcache|]. split; [exact Hcsize|].
  split; [exact Hcounters|]. split; [exact Hlists|].
  split; [exact Hflags | exact Hwf].
Defined.

(** A zone of 12 descriptors is not a multiple of the 8 of order 3. *)
Lemma buddy_system_init_rejects_unaligned_witness :
  buddy_system_init 4 16 empty_cache_instance "zone" (zeroed 12) 0 32 12
    = AssertFail "page == last_page".
Proof.
  apply (buddy_system_init_rejects_unaligned 4 16 empty_cache_instance "zone"
           (zeroed 12) 0 32 12);
    [lia | lia | simpl; lia | vm_compute; discriminate].
Defined.

(** Scenario S1 after an allocation of order 0: one block each of the
    orders 0, 1 and 2, seven pages of 4096 bytes. *)
Lemma buddy_system_get_free_space_eq_witness :
  buddy_system_get_free_space 4 4096 S1_allocated = Ok 28672.
Proof.
  apply (buddy_system_get_free_space_eq 4 4096 S1_allocated);
    [lia | reflexivity].
Defined.

Lemma bb_alloc_pages_accounting_witness :
  ∃ current_order,
    0 ≤ current_order < 4 ∧
    (∃ a l, free_area S1_fresh !! Z.to_nat current_order = Some a ∧
            free_list a = 0 :: l) ∧
    length (free_area S1_allocated) = length (free_area S1_fresh).
Proof.
  destruct (bb_alloc_pages_accounting 4 S1_fresh S1_allocated 0 0)
    as (current_order & Hrange & _ & Hhead & _ & _ & _ & Hlen & _);
    [lia | lia | vm_compute; reflexivity |].
  exists current_order. split; [exact Hrange|]. split; [exact Hhead | exact Hlen].
Defined.

Lemma bb_alloc_pages_takes_free_space_witness :
  ∃ before after,
    buddy_system_get_free_space 4 4096 S1_fresh = Ok before ∧
    buddy_system_get_free_space 4 4096 S1_allocated = Ok after ∧
    after = uint32 (before - 2 ^ 0 * 4096).
Proof.
  apply (bb_alloc_pages_takes_free_space 4 4096 S1_fresh S1_allocated 0 0);
    [lia | lia | reflexivity | vm_compute; reflexivity].
Defined.

(** Scenario S1: freeing the block of order 0 at descriptor 0 links the
    coalesced block, whose head is descriptor 0, in an area whose counter
    stays as it was. *)
Lemma bb_free_pages_never_increments_witness :
  ∃ final_order head,
    0 ≤ final_order < 4 ∧ head = 0 ∧
    (∃ dh, load_page S1_freed head = Ok dh ∧
           __bb_test_flag dh ROOT_PAGE = true ∧
           Buddy.order dh = final_order) ∧
    ∃ a a' l, free_area S1_allocated !! Z.to_nat final_order = Some a ∧
              free_area S1_freed !! Z.to_nat final_order = Some a' ∧
              free_list a' = head :: l ∧ nr_free a' = nr_free a.
Proof.
  destruct (bb_free_pages_never_increments 4 S1_allocated S1_freed 0
              (mk_page 2 0))
    as (final_order & head & Hrange & _ & Hbits & (dh & Hdh & _ & Hroot & Horder)
        & (a & a' & l & Ha & Ha' & Hl & _) & _ & _ & _ & _ & Hcounters);
    [lia | reflexivity | vm_compute; reflexivity |].
  simpl in Hrange.
  exists final_order, head. split; [exact Hrange|]. split.
  { apply Z.bits_inj'. intros b Hb. rewrite (Hbits b Hb), Z.testbit_0_l.
    reflexivity. }
  split; [exists dh; exact (conj Hdh (conj Hroot Horder))|].
  exists a, a', l. split; [exact Ha|]. split; [exact Ha'|]. split; [exact Hl|].
  destruct (Hcounters final_order a) as (a'' & Ha'' & Hnr); [lia | exact Ha |].
  rewrite Ha' in Ha''. injection Ha'' as <-. rewrite Hnr.
  rewrite bool_decide_eq_false_2 by lia. reflexivity.
Defined.

Lemma bb_free_pages_gives_no_space_back_witness :
  ∃ final_order before after,
    0 ≤ final_order < 4 ∧
    buddy_system_get_free_space 4 4096 S1_allocated = Ok before ∧
    buddy_system_get_free_space 4 4096 S1_freed = Ok after ∧
    after = uint32 (before - (2 ^ final_order - 2 ^ 0) * 4096).
Proof.
  apply (bb_free_pages_gives_no_space_back 4 4096 S1_allocated S1_freed 0
           (mk_page 2 0));
    [reflexivity | reflexivity | vm_compute; reflexivity].
Defined.

(** Scenario S1: the block of order 0 is coalesced back to order 3, and
    the free space ends 8 pages below its value on the fresh instance. *)
Lemma alloc_free_round_trip_witness :
  ∃ instance'' final_order before after,
    bb_free_pages 4 S1_allocated 0 = Ok instance'' ∧
    0 ≤ final_order < 4 ∧
    buddy_system_get_free_space 4 4096 S1_fresh = Ok before ∧
    buddy_system_get_free_space 4 4096 instance'' = Ok after ∧
    after = uint32 (before - 2 ^ final_order * 4096).
Proof.
  destruct (alloc_free_round_trip 4 4096 S1_fresh S1_allocated 0 0)
    as (instance'' & final_order & before & after & Hback & _ & Hrange
        & Hbefore & Hafter & Heq);
    [lia | lia | reflexivity | exists 1; reflexivity | vm_compute; reflexivity |].
  exists instance'', final_order, before, after.
  split; [exact Hback|]. split; [exact Hrange|]. split; [exact Hbefore|].
  split; [exact Hafter | exact Heq].
Defined.

(** A refill of three pages on scenario S1. *)
Lemma __cache_extend_takes_free_pages_witness :
  ∃ got,
    length got = 3%nat ∧
    free_pages_cache_list S1_refilled = got ++ [] ∧ NoDup got ∧
    ∀ p, p ∈ got → is_free S1_fresh p.
Proof.
  destruct (__cache_extend_takes_free_pages 4 S1_fresh S1_refilled 3)
    as (got & Hlen & Hcache & _ & Hnodup & Hgot); [vm_compute; reflexivity|].
  exists got.
  split; [exact Hlen|]. split; [exact Hcache|]. split; [exact Hnodup|].
  intros p Hp. exact (proj1 (Hgot p Hp)).
Defined.

Lemma bb_alloc_page_cached_faults_when_exhausted_witness :
  bb_alloc_pages 4 S1_fresh 3 = Ok (Some 0, S1_exhausted) ∧
  bb_alloc_page_cached 4 S1_exhausted = Fault "null page descriptor".
Proof.
  split; [vm_compute; reflexivity|].
  apply (bb_alloc_page_cached_faults_when_exhausted 4 S1_exhausted).
  - unfold LOW_WATERMARK_LEVEL. simpl. lia.
  - intros k Hk. exists (mk_area [] 0).
    assert (Hcases : k = 0 ∨ k = 1 ∨ k = 2 ∨ k = 3) by lia.
    destruct Hcases as [->|[->|[->| ->]]]; split; reflexivity.
Defined.

(** Two of the three pages of the refill are drained again. *)
Lemma __cache_shrink_returns_pages_witness :
  free_pages_cache_list S1_drained = drop 2 (free_pages_cache_list S1_refilled) ∧
  ∀ p, p ∈ take 2 (free_pages_cache_list S1_refilled) → is_free S1_drained p.
Proof.
  destruct (__cache_shrink_returns_pages 4 S1_refilled S1_drained 2)
    as (_ & Hcache & _ & Hfree & _); [vm_compute; reflexivity|].
  split; [exact Hcache | exact Hfree].
Defined.

End BuddyMore.

(** * Part VI: further properties of the scheduling policies *)

Module SchedMore.
Import Sched SchedSpec.

Section Policies.

Variable TASK_RUNNING : Z.

Local Abbreviation eligible := (Sched.eligible TASK_RUNNING).

(** ** Round-Robin *)

Lemma rr_loop_spec (skip_periodic : bool) (l : list task_struct) :
  ∀ it,
    match rr_loop TASK_RUNNING skip_periodic l it with
    | Some n =>
        ∃ k t, n = (it + k)%nat ∧ l !! k = Some t ∧
               eligible skip_periodic t = true ∧
               ∀ k' t', (k' < k)%nat → l !! k' = Some t' →
                        eligible skip_periodic t' = false
    | None => ∀ k t, l !! k = Some t → eligible skip_periodic t = false
    end.
Proof.
  induction l as [|entry l IH]; intros it; simpl; [by intros k t Hk|].
  unfold Sched.eligible in *.
  destruct (state entry =? TASK_RUNNING) eqn:Hstate; simpl.
  - destruct (__is_periodic_task entry && skip_periodic) eqn:Hskip; simpl.
    + specialize (IH (S it)).
      destruct (rr_loop TASK_RUNNING skip_periodic l (S it)) as [n|].
      * destruct IH as (k & t & -> & Hk & Ht & Hbefore).
        exists (S k), t. split; [lia|]. split; [done|]. split; [done|].
        intros [|k'] t' Hlt Hk'; simpl in Hk'.
        -- inversion Hk'; subst. by rewrite Hstate, Hskip.
        -- apply (Hbefore k'); [lia | done].
      * intros [|k] t Hk; simpl in Hk.
        -- inversion Hk; subst. by rewrite Hstate, Hskip.
        -- by apply (IH k).
    + exists 0%nat, entry. split; [lia|]. split; [done|].
      rewrite Hstate, Hskip. split; [done|]. intros k' t' Hlt. lia.
  - specialize (IH (S it)).
    destruct (rr_loop TASK_RUNNING skip_periodic l (S it)) as [n|].
    + destruct IH as (k & t & -> & Hk & Ht & Hbefore).
      exists (S k), t. split; [lia|]. split; [done|]. split; [done|].
      intros [|k'] t' Hlt Hk'; simpl in Hk'.
      * inversion Hk'; subst. by rewrite Hstate.
      * apply (Hbefore k'); [lia | done].
    + intros [|k] t Hk; simpl in Hk.
      * inversion Hk; subst. by rewrite Hstate.
      * by apply (IH k).
Qed.

(** With more than one task linked, [__scheduler_rr] returns the first
    eligible task met after [curr] in the circular order of the queue: the
    task returned is not [curr], it is RUNNING and not a skipped periodic
    task, and every task visited before it is not eligible. It returns a
    task whenever a task other than [curr] is eligible. *)
Theorem rr_returns_next_eligible (runqueue : runqueue_t)
    (skip_periodic : bool) :
  (curr runqueue < length (queue runqueue))%nat →
  (1 < length (queue runqueue))%nat →
  (∀ n, __scheduler_rr TASK_RUNNING runqueue skip_periodic = Some n →
        n ≠ curr runqueue ∧
        (∃ t, queue runqueue !! n = Some t ∧ eligible skip_periodic t = true) ∧
        ∀ j t, circ_between (curr runqueue) j n →
               queue runqueue !! j = Some t →
               eligible skip_periodic t = false) ∧
  ((∃ j t, j ≠ curr runqueue ∧ queue runqueue !! j = Some t ∧
           eligible skip_periodic t = true) →
   ∃ n, __scheduler_rr TASK_RUNNING runqueue skip_periodic = Some n).
Proof.
  intros Hcurr Hmany. unfold __scheduler_rr.
  rewrite list_head_size_linked by done.
  destruct (Nat.leb_spec (length (queue runqueue)) 1) as [|_]; [lia|].
  pose proof (rr_loop_spec skip_periodic (after_curr runqueue)
                (S (curr runqueue))) as Hafter.
  pose proof (rr_loop_spec skip_periodic (before_curr runqueue) 0) as Hbefore.
  unfold after_curr, before_curr in *.
  destruct (rr_loop TASK_RUNNING skip_periodic
              (drop (S (curr runqueue)) (queue runqueue)) (S (curr runqueue)))
    as [n1|].
  - destruct Hafter as (k & t & -> & Hk & Ht & Hearlier).
    rewrite lookup_drop in Hk. split; [|by eexists].
    intros n [= <-]. split; [lia|]. split; [by eexists|].
    intros j tj [Hj | [Hj _]] Hjt; [|lia].
    apply (Hearlier (j - S (curr runqueue))%nat); [lia|].
    rewrite lookup_drop. by replace (S (curr runqueue) + (j - S (curr runqueue)))%nat
      with j by lia.
  - destruct (rr_loop TASK_RUNNING skip_periodic
                (take (curr runqueue) (queue runqueue)) 0) as [n2|].
    + destruct Hbefore as (k & t & -> & Hk & Ht & Hearlier).
      apply lookup_take_Some in Hk as [Hk Hlt]. split; [|by eexists].
      intros n [= <-]. simpl. split; [lia|]. split; [by eexists|].
      intros j tj [Hj | [_ [Hj | Hj]]] Hjt; [lia | |].
      * apply (Hafter (j - S (curr runqueue))%nat). rewrite lookup_drop.
        by replace (S (curr runqueue) + (j - S (curr runqueue)))%nat
          with j by lia.
      * apply (Hearlier j); [lia|]. apply lookup_take_Some. split; [done | lia].
    + split; [discriminate|]. intros (j & t & Hj & Hjt & Ht).
      destruct (decide (j < curr runqueue)%nat).
      * rewrite (Hbefore j t) in Ht; [done|].
        apply lookup_take_Some. split; [done | lia].
      * rewrite (Hafter (j - S (curr runqueue))%nat t) in Ht; [done|].
        rewrite lookup_drop.
        by replace (S (curr runqueue) + (j - S (curr runqueue)))%nat
          with j by lia.
Qed.

(** ** CFS *)

Lemma cfs_loop_spec (skip_periodic : bool) (l : list task_struct) :
  ∀ it next min next' min',
    cfs_loop TASK_RUNNING skip_periodic l it next min = (next', min') →
    min' ≤ min ∧
    (∀ k t, l !! k = Some t → eligible skip_periodic t = true →
            min' ≤ vruntime (se t)) ∧
    ((next' = next ∧ min' = min) ∨
     ∃ k t, next' = (it + k)%nat ∧ l !! k = Some t ∧
            eligible skip_periodic t = true ∧ vruntime (se t) = min' ∧
            min' < min ∧
            ∀ k' t', (k' < k)%nat → l !! k' = Some t' →
                     eligible skip_periodic t' = true →
                     min' < vruntime (se t')).
Proof.
  induction l as [|entry l IH]; intros it next min next' min' H; simpl in H.
  - inversion H; subst. split; [lia|]. split; [by intros k t Hk | by left].
  - assert (Hstep : ∀ next0 min0,
              cfs_loop TASK_RUNNING skip_periodic l (S it) next0 min0
                = (next', min') →
              min0 ≤ min →
              (eligible skip_periodic entry = true →
               min0 ≤ vruntime (se entry)) →
              ((next0 = next ∧ min0 = min) ∨
               (next0 = it ∧ min0 = vruntime (se entry) ∧ min0 < min ∧
                eligible skip_periodic entry = true)) →
              min' ≤ min ∧
              (∀ k t, (entry :: l) !! k = Some t →
                      eligible skip_periodic t = true →
                      min' ≤ vruntime (se t)) ∧
              ((next' = next ∧ min' = min) ∨
               ∃ k t, next' = (it + k)%nat ∧ (entry :: l) !! k = Some t ∧
                      eligible skip_periodic t = true ∧
                      vruntime (se t) = min' ∧ min' < min ∧
                      ∀ k' t', (k' < k)%nat → (entry :: l) !! k' = Some t' →
                               eligible skip_periodic t' = true →
                               min' < vruntime (se t'))).
    { intros next0 min0 Hrec Hle Hentry Hnext0.
      destruct (IH _ _ _ _ _ Hrec) as (Hmin & Hall & Hres).
      split; [lia|]. split.
      - intros [|k] t Hk Ht; simpl in Hk.
        + inversion Hk; subst. specialize (Hentry Ht). lia.
        + by apply (Hall k).
      - destruct Hres as [[-> ->] | (k & t & -> & Hk & Ht & Hvr & Hlt & Hties)].
        + destruct Hnext0 as [[-> ->] | (-> & -> & Hlt & He)]; [by left|].
          right. exists 0%nat, entry. split; [lia|].
          split; [done|]. split; [done|]. split; [done|]. split; [done|].
          intros k' t' Hk'. lia.
        + right. exists (S k), t. split; [lia|].
          split; [done|]. split; [done|]. split; [done|]. split; [lia|].
          intros [|k'] t' Hk' Ht' Helig; simpl in Ht'.
          * inversion Ht'; subst t'. specialize (Hentry Helig). lia.
          * apply (Hties k'); [lia | done | done]. }
    unfold Sched.eligible in Hstep at 1 3.
    destruct (state entry =? TASK_RUNNING) eqn:Hstate; simpl in H.
    + destruct (__is_periodic_task entry && skip_periodic) eqn:Hskip;
        simpl in H.
      * apply (Hstep next min H); [lia | done | by left].
      * destruct (Z.ltb_spec (vruntime (se entry)) min).
        -- apply (Hstep it (vruntime (se entry)) H); [lia | lia |].
           right. unfold Sched.eligible. rewrite Hstate, Hskip. done.
        -- apply (Hstep next min H); [lia | intros _; lia | by left].
    + apply (Hstep next min H); [lia | done | by left].
Qed.

Lemma cfs_result (runqueue : runqueue_t)
    (skip_periodic : bool) :
  (curr runqueue < length (queue runqueue))%nat →
  (1 < length (queue runqueue))%nat →
  ∃ n t first,
    __scheduler_cfs TASK_RUNNING runqueue skip_periodic = Some n ∧
    queue runqueue !! 0%nat = Some first ∧
    queue runqueue !! n = Some t ∧
    vruntime (se t) ≤ vruntime (se first) ∧
    (∀ j tj, j ≠ curr runqueue → queue runqueue !! j = Some tj →
             eligible skip_periodic tj = true →
             vruntime (se t) ≤ vruntime (se tj)) ∧
    (n = 0%nat ∨
     (n ≠ curr runqueue ∧ eligible skip_periodic t = true ∧
      vruntime (se t) < vruntime (se first) ∧
      ∀ j tj, circ_between (curr runqueue) j n →
              queue runqueue !! j = Some tj →
              eligible skip_periodic tj = true →
              vruntime (se t) < vruntime (se tj))).
Proof.
  intros Hcurr Hmany. unfold __scheduler_cfs.
  destruct (queue runqueue) as [|first q] eqn:Hq; [simpl in Hmany; lia|].
  rewrite list_head_size_linked by (by rewrite Hq).
  rewrite Hq. destruct (Nat.leb_spec (length (first :: q)) 1) as [|_]; [lia|].
  unfold after_curr, before_curr. rewrite Hq.
  destruct (cfs_loop TASK_RUNNING skip_periodic
              (drop (S (curr runqueue)) (first :: q)) (S (curr runqueue)) 0
              (vruntime (se first))) as [n1 m1] eqn:H1.
  destruct (cfs_loop TASK_RUNNING skip_periodic
              (take (curr runqueue) (first :: q)) 0 n1 m1) as [n2 m2] eqn:H2.
  apply cfs_loop_spec in H1 as (Hle1 & Hall1 & Hres1).
  apply cfs_loop_spec in H2 as (Hle2 & Hall2 & Hres2).
  assert (Hafter : ∀ j tj, (curr runqueue < j)%nat →
            (first :: q) !! j = Some tj →
            eligible skip_periodic tj = true → m1 ≤ vruntime (se tj)).
  { intros j tj Hj Hjt Helig.
    apply (Hall1 (j - S (curr runqueue))%nat); [|done]. rewrite lookup_drop.
    by replace (S (curr runqueue) + (j - S (curr runqueue)))%nat with j by lia. }
  assert (Hn1 : ∃ t1, (first :: q) !! n1 = Some t1 ∧ vruntime (se t1) = m1 ∧
            (n1 = 0%nat ∨
             (n1 ≠ curr runqueue ∧ eligible skip_periodic t1 = true ∧
              (curr runqueue < n1)%nat ∧ m1 < vruntime (se first) ∧
              ∀ j tj, (curr runqueue < j < n1)%nat →
                      (first :: q) !! j = Some tj →
                      eligible skip_periodic tj = true →
                      m1 < vruntime (se tj)))).
  { destruct Hres1 as [[-> ->] | (k & t & -> & Hk & Ht & Hvr & Hlt & Hties)].
    - exists first. split; [done|]. split; [done | by left].
    - rewrite lookup_drop in Hk. exists t. split; [done|]. split; [done|].
      right. split; [lia|]. split; [done|]. split; [lia|]. split; [done|].
      intros j tj Hj Hjt Helig.
      apply (Hties (j - S (curr runqueue))%nat tj); [lia | | done].
      rewrite lookup_drop.
      by replace (S (curr runqueue) + (j - S (curr runqueue)))%nat with j by lia. }
  destruct Hn1 as (t1 & Ht1 & Hvr1 & Hwhich1).
  assert (Hall : ∀ j tj, j ≠ curr runqueue → (first :: q) !! j = Some tj →
            eligible skip_periodic tj = true → m2 ≤ vruntime (se tj)).
  { intros j tj Hj Hjt Helig. destruct (decide (j < curr runqueue)%nat).
    - apply (Hall2 j); [|done]. apply lookup_take_Some. split; [done | lia].
    - assert (m1 ≤ vruntime (se tj)); [|lia]. apply (Hafter j); [lia | done | done]. }
  destruct Hres2 as [[-> ->] | (k & t & -> & Hk & Ht & Hvr & Hlt & Hties)].
  - exists n1, t1, first. split; [done|]. split; [done|]. split; [done|].
    split; [lia|]. split; [by rewrite Hvr1|].
    destruct Hwhich1 as [->|(Hne & Helig1 & Hgt & Hfirst & Hties1)]; [by left|].
    right. split; [done|]. split; [done|]. split; [lia|].
    intros j tj [Hj|Hj] Hjt Helig; [|lia].
    rewrite Hvr1. apply (Hties1 j tj); [lia | done | done].
  - apply lookup_take_Some in Hk as [Hk Hklt]. simpl.
    exists k, t, first. split; [done|]. split; [done|]. split; [done|].
    split; [lia|]. split; [by rewrite Hvr|].
    right. split; [lia|]. split; [done|]. split; [lia|].
    intros j tj [Hj|[_ [Hj|Hj]]] Hjt Helig; [lia | |].
    + assert (m1 ≤ vruntime (se tj)); [|lia]. by apply (Hafter j).
    + rewrite Hvr. apply (Hties j tj); [done | | done].
      apply lookup_take_Some. split; [done | lia].
Qed.

(** With more than one task linked, [__scheduler_cfs] always returns a
    task. Its virtual runtime is not above that of the first task of the
    queue, nor above that of any eligible task other than [curr]. The task
    returned is the first task of the queue, whatever its state, unless an
    eligible task other than [curr] has a strictly smaller virtual runtime;
    it is then such a task, and the first one of smallest virtual runtime in
    the circular order after [curr]. *)
Theorem cfs_returns_smallest_vruntime (runqueue : runqueue_t)
    (skip_periodic : bool) :
  (curr runqueue < length (queue runqueue))%nat →
  (1 < length (queue runqueue))%nat →
  ∃ n t first,
    __scheduler_cfs TASK_RUNNING runqueue skip_periodic = Some n ∧
    queue runqueue !! 0%nat = Some first ∧
    queue runqueue !! n = Some t ∧
    vruntime (se t) ≤ vruntime (se first) ∧
    (∀ j tj, j ≠ curr runqueue → queue runqueue !! j = Some tj →
             eligible skip_periodic tj = true →
             vruntime (se t) ≤ vruntime (se tj)) ∧
    (n = 0%nat ∨
     (n ≠ curr runqueue ∧ eligible skip_periodic t = true ∧
      vruntime (se t) < vruntime (se first) ∧
      ∀ j tj, circ_between (curr runqueue) j n →
              queue runqueue !! j = Some tj →
              eligible skip_periodic tj = true →
              vruntime (se t) < vruntime (se tj))).
Proof. apply cfs_result. Qed.

(** ** Static priority *)

Lemma priority_loop_spec (skip_periodic : bool) (l : list task_struct) :
  ∀ it next min next' min',
    priority_loop TASK_RUNNING skip_periodic l it next min = (next', min') →
    min' ≤ min ∧
    (∀ k t, l !! k = Some t → eligible skip_periodic t = true →
            min' ≤ uint32 (prio (se t))) ∧
    ((next' = next ∧ min' = min ∧
      ∀ k t, l !! k = Some t → eligible skip_periodic t = true →
             min < uint32 (prio (se t))) ∨
     ∃ k t, next' = (it + k)%nat ∧ l !! k = Some t ∧
            eligible skip_periodic t = true ∧ uint32 (prio (se t)) = min' ∧
            ∀ k' t', (k < k')%nat → l !! k' = Some t' →
                     eligible skip_periodic t' = true →
                     min' < uint32 (prio (se t'))).
Proof.
  induction l as [|entry l IH]; intros it next min next' min' H; simpl in H.
  - inversion H; subst. split; [lia|]. split; [by intros k t Hk|].
    left. split; [done|]. split; [done|]. by intros k t Hk.
  - assert (Hstep : ∀ next0 min0,
              priority_loop TASK_RUNNING skip_periodic l (S it) next0 min0
                = (next', min') →
              min0 ≤ min →
              (eligible skip_periodic entry = true →
               min0 ≤ uint32 (prio (se entry))) →
              ((next0 = next ∧ min0 = min ∧
                (eligible skip_periodic entry = true →
                 min < uint32 (prio (se entry)))) ∨
               (next0 = it ∧ min0 = uint32 (prio (se entry)) ∧
                eligible skip_periodic entry = true)) →
              min' ≤ min ∧
              (∀ k t, (entry :: l) !! k = Some t →
                      eligible skip_periodic t = true →
                      min' ≤ uint32 (prio (se t))) ∧
              ((next' = next ∧ min' = min ∧
                ∀ k t, (entry :: l) !! k = Some t →
                       eligible skip_periodic t = true →
                       min < uint32 (prio (se t))) ∨
               ∃ k t, next' = (it + k)%nat ∧ (entry :: l) !! k = Some t ∧
                      eligible skip_periodic t = true ∧
                      uint32 (prio (se t)) = min' ∧
                      ∀ k' t', (k < k')%nat → (entry :: l) !! k' = Some t' →
                               eligible skip_periodic t' = true →
                               min' < uint32 (prio (se t')))).
    { intros next0 min0 Hrec Hle Hentry Hnext0.
      destruct (IH _ _ _ _ _ Hrec) as (Hmin & Hall & Hres).
      split; [lia|]. split.
      - intros [|k] t Hk Ht; simpl in Hk.
        + inversion Hk; subst. specialize (Hentry Ht). lia.
        + by apply (Hall k).
      - destruct Hres as [(-> & -> & Hrest) | (k & t & -> & Hk & Ht & Hvr & Hties)].
        + destruct Hnext0 as [(-> & -> & Hstrict) | (-> & -> & He)].
          * left. split; [done|]. split; [done|].
            intros [|k] t Hk Ht; simpl in Hk.
            -- inversion Hk; subst. by apply Hstrict.
            -- by apply (Hrest k).
          * right. exists 0%nat, entry. split; [lia|].
            split; [done|]. split; [done|]. split; [done|].
            intros [|k'] t' Hk' Ht' Helig; [lia|]. simpl in Ht'.
            by apply (Hrest k').
        + right. exists (S k), t. split; [lia|].
          split; [done|]. split; [done|]. split; [done|].
          intros [|k'] t' Hk' Ht' Helig; [lia|]. simpl in Ht'.
          apply (Hties k'); [lia | done | done]. }
    unfold Sched.eligible in Hstep at 1 2 3.
    destruct (state entry =? TASK_RUNNING) eqn:Hstate; simpl in H.
    + destruct (__is_periodic_task entry && skip_periodic) eqn:Hskip;
        simpl in H.
      * apply (Hstep next min H); [lia | done | by left].
      * destruct (Z.leb_spec (uint32 (prio (se entry))) min).
        -- apply (Hstep it (uint32 (prio (se entry))) H); [lia | lia |].
           by right.
        -- apply (Hstep next min H); [lia | intros _; lia |].
           left. split; [done|]. split; [done|]. intros _. lia.
    + apply (Hstep next min H); [lia | done | by left].
Qed.

Lemma priority_result (runqueue : runqueue_t)
    (skip_periodic : bool) :
  (curr runqueue < length (queue runqueue))%nat →
  (1 < length (queue runqueue))%nat →
  ∃ n t first,
    __scheduler_priority TASK_RUNNING SCHEDULER_PRIORITY runqueue skip_periodic = Some n ∧
    queue runqueue !! 0%nat = Some first ∧
    queue runqueue !! n = Some t ∧
    uint32 (prio (se t)) ≤ uint32 (prio (se first)) ∧
    (∀ j tj, j ≠ curr runqueue → queue runqueue !! j = Some tj →
             eligible skip_periodic tj = true →
             uint32 (prio (se t)) ≤ uint32 (prio (se tj))) ∧
    ((n = 0%nat ∧
      ∀ j tj, j ≠ curr runqueue → queue runqueue !! j = Some tj →
              eligible skip_periodic tj = true →
              uint32 (prio (se first)) < uint32 (prio (se tj))) ∨
     (n ≠ curr runqueue ∧ eligible skip_periodic t = true ∧
      ∀ j tj, circ_between n j (curr runqueue) →
              queue runqueue !! j = Some tj →
              eligible skip_periodic tj = true →
              uint32 (prio (se t)) < uint32 (prio (se tj)))).
Proof.
  intros Hcurr Hmany. unfold __scheduler_priority.
  destruct (queue runqueue) as [|first q] eqn:Hq; [simpl in Hmany; lia|].
  rewrite list_head_size_linked by (by rewrite Hq).
  rewrite Hq. destruct (Nat.leb_spec (length (first :: q)) 1) as [|_]; [lia|].
  unfold after_curr, before_curr. rewrite Hq.
  destruct (priority_loop TASK_RUNNING skip_periodic
              (drop (S (curr runqueue)) (first :: q)) (S (curr runqueue)) 0
              (uint32 (prio (se first)))) as [n1 m1] eqn:H1.
  destruct (priority_loop TASK_RUNNING skip_periodic
              (take (curr runqueue) (first :: q)) 0 n1 m1) as [n2 m2] eqn:H2.
  apply priority_loop_spec in H1 as (Hle1 & Hall1 & Hres1).
  apply priority_loop_spec in H2 as (Hle2 & Hall2 & Hres2).
  assert (Hdrop : ∀ j tj, (curr runqueue < j)%nat →
            (first :: q) !! j = Some tj →
            drop (S (curr runqueue)) (first :: q)
              !! (j - S (curr runqueue))%nat = Some tj).
  { intros j tj Hj Hjt. rewrite lookup_drop.
    by replace (S (curr runqueue) + (j - S (curr runqueue)))%nat with j by lia. }
  assert (Htake : ∀ j tj, (j < curr runqueue)%nat →
            (first :: q) !! j = Some tj →
            take (curr runqueue) (first :: q) !! j = Some tj).
  { intros j tj Hj Hjt. apply lookup_take_Some. split; [done | lia]. }
  assert (Hall : ∀ j tj, j ≠ curr runqueue → (first :: q) !! j = Some tj →
            eligible skip_periodic tj = true → m2 ≤ uint32 (prio (se tj))).
  { intros j tj Hj Hjt Helig. destruct (decide (j < curr runqueue)%nat).
    - apply (Hall2 j); [by apply Htake | done].
    - assert (m1 ≤ uint32 (prio (se tj))); [|lia].
      apply (Hall1 (j - S (curr runqueue))%nat); [apply Hdrop; [lia | done] | done]. }
  destruct Hres2 as [(-> & -> & Hbefore) | (k & t & -> & Hk & Ht & Hvr & Hties)].
  - destruct Hres1 as [(-> & -> & Hafter) | (k & t & -> & Hk & Ht & Hvr & Hties)].
    + exists 0%nat, first, first. split; [done|]. split; [done|]. split; [done|].
      split; [lia|]. split; [done|]. left. split; [done|].
      intros j tj Hj Hjt Helig. destruct (decide (j < curr runqueue)%nat).
      * apply (Hbefore j); [by apply Htake | done].
      * apply (Hafter (j - S (curr runqueue))%nat);
          [apply Hdrop; [lia | done] | done].
    + rewrite lookup_drop in Hk.
      exists (S (curr runqueue) + k)%nat, t, first.
      split; [done|]. split; [done|]. split; [done|].
      split; [lia|]. split; [by rewrite Hvr|].
      right. split; [lia|]. split; [done|].
      intros j tj [Hj|[_ [Hj|Hj]]] Hjt Helig; [lia | |].
      * rewrite Hvr. apply (Hties (j - S (curr runqueue))%nat tj);
          [lia | apply Hdrop; [lia | done] | done].
      * rewrite Hvr. apply (Hbefore j); [by apply Htake | done].
  - apply lookup_take_Some in Hk as [Hk Hklt]. simpl.
    exists k, t, first. split; [done|]. split; [done|]. split; [done|].
    split; [lia|]. split; [by rewrite Hvr|].
    right. split; [lia|]. split; [done|].
    intros j tj [Hj|Hj] Hjt Helig; [|lia].
    rewrite Hvr. apply (Hties j tj); [lia | apply Htake; [lia | done] | done].
Qed.

(** With [SCHEDULER_PRIORITY] defined and more than one task linked,
    [__scheduler_priority] always returns a task. Its priority value, read
    as an unsigned number, is not above that of the first task of the queue,
    nor above that of any eligible task other than [curr]. The task returned
    is the first task of the queue, whatever its state, when every eligible
    task other than [curr] has a strictly larger value; otherwise it is an
    eligible task other than [curr], and the last one of smallest value in
    the circular order after [curr]. *)
Theorem priority_returns_smallest_prio (runqueue : runqueue_t)
    (skip_periodic : bool) :
  (curr runqueue < length (queue runqueue))%nat →
  (1 < length (queue runqueue))%nat →
  ∃ n t first,
    __scheduler_priority TASK_RUNNING SCHEDULER_PRIORITY runqueue skip_periodic = Some n ∧
    queue runqueue !! 0%nat = Some first ∧
    queue runqueue !! n = Some t ∧
    uint32 (prio (se t)) ≤ uint32 (prio (se first)) ∧
    (∀ j tj, j ≠ curr runqueue → queue runqueue !! j = Some tj →
             eligible skip_periodic tj = true →
             uint32 (prio (se t)) ≤ uint32 (prio (se tj))) ∧
    ((n = 0%nat ∧
      ∀ j tj, j ≠ curr runqueue → queue runqueue !! j = Some tj →
              eligible skip_periodic tj = true →
              uint32 (prio (se first)) < uint32 (prio (se tj))) ∨
     (n ≠ curr runqueue ∧ eligible skip_periodic t = true ∧
      ∀ j tj, circ_between n j (curr runqueue) →
              queue runqueue !! j = Some tj →
              eligible skip_periodic tj = true →
              uint32 (prio (se t)) < uint32 (prio (se tj)))).
Proof. apply priority_result. Qed.

(** ** EDF, RM and LLF *)

Lemma edf_loop_rt (ticks : Z) (l : list task_struct) :
  ∀ it next min,
    edf_loop ticks l it next min
    = rt_loop (λ t, deadline (se t)) ticks l it next min.
Proof.
  induction l as [|entry l IH]; intros it next min; simpl; [done|].
  by rewrite !IH.
Qed.

Lemma rm_loop_rt (ticks : Z) (l : list task_struct) :
  ∀ it next min,
    rm_loop ticks l it next min
    = rt_loop (λ t, next_period (se t)) ticks l it next min.
Proof.
  induction l as [|entry l IH]; intros it next min; simpl; [done|].
  by rewrite !IH.
Qed.

Lemma llf_loop_rt (ticks : Z) (l : list task_struct) :
  ∀ it next min,
    llf_loop ticks l it next min
    = rt_loop (λ t, uint32 (this_lax ticks t)) ticks l it next min.
Proof.
  induction l as [|entry l IH]; intros it next min; simpl; [done|].
  rewrite !IH. destruct (negb (executed (se entry))); simpl; [|done].
  by destruct (uint32 (this_lax ticks entry) <? min).
Qed.

Lemma rt_loop_snd (key : task_struct → Z) (ticks : Z) (l : list task_struct) :
  ∀ it next min, snd (rt_loop key ticks l it next min) = roll ticks <$> l.
Proof.
  intros it next min.
  pose proof (edf_loop_snd ticks l it next min) as Hsnd. revert it next min Hsnd.
  induction l as [|entry l IH]; intros it next min _; simpl; [done|].
  destruct (negb (is_periodic (se entry)) || is_under_analysis (se entry)) eqn:Hskip.
  - specialize (IH (S it) next min (edf_loop_snd _ _ _ _ _)).
    destruct (rt_loop key ticks l (S it) next min). simpl in *.
    by rewrite roll_skipped, IH.
  - rewrite roll_periodic by done.
    destruct (executed (se entry) && (next_period (se entry) <=? ticks)).
    + specialize (IH (S it) next min (edf_loop_snd _ _ _ _ _)).
      destruct (rt_loop key ticks l (S it) next min). simpl in *. by rewrite IH.
    + destruct (negb (executed (se entry)) && (key entry <? min)).
      * specialize (IH (S it) (Some it) (key entry) (edf_loop_snd _ _ _ _ _)).
        destruct (rt_loop key ticks l (S it) (Some it) (key entry)).
        simpl in *. by rewrite IH.
      * specialize (IH (S it) next min (edf_loop_snd _ _ _ _ _)).
        destruct (rt_loop key ticks l (S it) next min). simpl in *. by rewrite IH.
Qed.

Lemma rt_candidate_tests (entry : task_struct) :
  rt_candidate entry =
    negb (negb (is_periodic (se entry)) || is_under_analysis (se entry))
    && negb (executed (se entry)).
Proof.
  unfold rt_candidate, __is_periodic_task.
  by destruct (is_periodic (se entry)), (is_under_analysis (se entry)).
Qed.

(** The candidate the loop ends with: either the one it started with, and
    then no task compared has a key below the starting minimum, or the first
    task of smallest key among the tasks compared. *)
Lemma rt_loop_fst (key : task_struct → Z) (ticks : Z) (l : list task_struct) :
  ∀ it next min,
    (fst (rt_loop key ticks l it next min) = next ∧
     ∀ k t, l !! k = Some t → rt_candidate t = true → min ≤ key t) ∨
    (∃ k t, fst (rt_loop key ticks l it next min) = Some (it + k)%nat ∧
            l !! k = Some t ∧ rt_candidate t = true ∧ key t < min ∧
            (∀ k' t', l !! k' = Some t' → rt_candidate t' = true →
                      key t ≤ key t') ∧
            (∀ k' t', (k' < k)%nat → l !! k' = Some t' →
                      rt_candidate t' = true → key t < key t')).
Proof.
  induction l as [|entry l IH]; intros it next min; simpl.
  - left. split; [done|]. by intros k t Hk.
  - pose proof (rt_candidate_tests entry) as Hcand.
    assert (Hkeep : ∀ (e' : task_struct),
              (rt_candidate entry = true → min ≤ key entry) →
              (fst (let '(next0, l') := rt_loop key ticks l (S it) next min in
                    (next0, e' :: l')) = next ∧
               ∀ k t, (entry :: l) !! k = Some t → rt_candidate t = true →
                      min ≤ key t) ∨
              (∃ k t,
                 fst (let '(next0, l') := rt_loop key ticks l (S it) next min in
                      (next0, e' :: l')) = Some (it + k)%nat ∧
                 (entry :: l) !! k = Some t ∧ rt_candidate t = true ∧
                 key t < min ∧
                 (∀ k' t', (entry :: l) !! k' = Some t' →
                           rt_candidate t' = true → key t ≤ key t') ∧
                 (∀ k' t', (k' < k)%nat → (entry :: l) !! k' = Some t' →
                           rt_candidate t' = true → key t < key t'))).
    { intros e' Hentry. specialize (IH (S it) next min).
      destruct (rt_loop key ticks l (S it) next min) as [r l']. simpl in *.
      destruct IH as [[-> Hall] | (k & t & -> & Hk & Ht & Hlt & Hmin & Hfirst)].
      - left. split; [done|]. intros [|k] t Hk Ht; simpl in Hk.
        + inversion Hk; subst. by apply Hentry.
        + by apply (Hall k).
      - right. exists (S k), t. split; [f_equal; lia|]. split; [done|].
        split; [done|]. split; [done|]. split.
        + intros [|k'] t' Hk' Ht'; simpl in Hk'.
          * inversion Hk'; subst. specialize (Hentry Ht'). lia.
          * by apply (Hmin k').
        + intros [|k'] t' Hlt' Hk' Ht'; simpl in Hk'.
          * inversion Hk'; subst. specialize (Hentry Ht'). lia.
          * apply (Hfirst k'); [lia | done | done]. }
    destruct (negb (is_periodic (se entry)) || is_under_analysis (se entry));
      simpl in Hcand.
    { apply Hkeep. by rewrite Hcand. }
    destruct (executed (se entry)) eqn:Hexe; simpl in Hcand.
    { simpl. destruct (next_period (se entry) <=? ticks);
        apply Hkeep; by rewrite Hcand. }
    simpl. destruct (Z.ltb_spec (key entry) min) as [Hlt | Hge].
    + specialize (IH (S it) (Some it) (key entry)).
      destruct (rt_loop key ticks l (S it) (Some it) (key entry)) as [r l'].
      simpl in *. right.
      destruct IH as [[-> Hall] | (k & t & -> & Hk & Ht & Hlt' & Hmin & Hfirst)].
      * exists 0%nat, entry. split; [f_equal; lia|]. split; [done|].
        split; [done|]. split; [done|]. split.
        -- intros [|k'] t' Hk' Ht'; simpl in Hk'.
           ++ inversion Hk'; subst. lia.
           ++ by apply (Hall k').
        -- intros k' t' Hk'. lia.
      * exists (S k), t. split; [f_equal; lia|]. split; [done|].
        split; [done|]. split; [lia|]. split.
        -- intros [|k'] t' Hk' Ht'; simpl in Hk'.
           ++ inversion Hk'; subst. lia.
           ++ by apply (Hmin k').
        -- intros [|k'] t' Hlt'' Hk' Ht'; simpl in Hk'.
           ++ inversion Hk'; subst. lia.
           ++ apply (Hfirst k'); [lia | done | done].
    + apply Hkeep. intros _. lia.
Qed.

(** The task a real-time policy returns when a periodic task, not under
    analysis and not executed, has a key below [UINT_MAX]. *)
Lemma rt_policy_picks (key : task_struct → Z) (ticks : Z)
    (runqueue : runqueue_t) :
  (∃ j t, queue runqueue !! j = Some t ∧ rt_candidate t = true ∧
          key t < UINT_MAX) →
  ∃ n t,
    fst (rt_loop key ticks (queue runqueue) 0 None UINT_MAX) = Some n ∧
    queue runqueue !! n = Some t ∧
    queue (rolled ticks runqueue) !! n = Some t ∧
    rt_candidate t = true ∧
    (∀ j tj, queue runqueue !! j = Some tj → rt_candidate tj = true →
             key t ≤ key tj) ∧
    (∀ j tj, (j < n)%nat → queue runqueue !! j = Some tj →
             rt_candidate tj = true → key t < key tj).
Proof.
  intros (j & tj & Hj & Hcand & Hkey).
  destruct (rt_loop_fst key ticks (queue runqueue) 0 None UINT_MAX)
    as [[_ Hall] | (k & t & Hfst & Hk & Ht & Hlt & Hmin & Hfirst)].
  - specialize (Hall j tj Hj Hcand). lia.
  - exists k, t. split; [done|]. split; [done|]. split; [|done].
    unfold rolled. simpl. rewrite list_lookup_fmap, Hk. simpl. f_equal.
    unfold roll, rolls_over. unfold rt_candidate in Ht.
    apply andb_true_iff in Ht as [-> Hexe]. apply negb_true_iff in Hexe.
    by rewrite Hexe.
Qed.

(** EDF ordering: when some periodic task, not under analysis and not
    executed, has a deadline below [UINT_MAX], [__scheduler_edf] returns
    such a task of smallest deadline, the first in queue order among equals;
    the call leaves that task as it found it. *)
Theorem edf_returns_earliest_deadline (ticks : Z) (runqueue : runqueue_t) :
  (∃ j t, queue runqueue !! j = Some t ∧ rt_candidate t = true ∧
          deadline (se t) < UINT_MAX) →
  ∃ n t,
    __scheduler_edf TASK_RUNNING ticks runqueue
      = (Some n, rolled ticks runqueue) ∧
    queue runqueue !! n = Some t ∧
    queue (rolled ticks runqueue) !! n = Some t ∧
    rt_candidate t = true ∧
    (∀ j tj, queue runqueue !! j = Some tj → rt_candidate tj = true →
             deadline (se t) ≤ deadline (se tj)) ∧
    (∀ j tj, (j < n)%nat → queue runqueue !! j = Some tj →
             rt_candidate tj = true → deadline (se t) < deadline (se tj)).
Proof.
  intros Hsome.
  destruct (rt_policy_picks (λ t, deadline (se t)) ticks runqueue Hsome)
    as (n & t & Hfst & Hrest).
  exists n, t. split; [|exact Hrest].
  unfold __scheduler_edf. rewrite edf_loop_rt.
  pose proof (rt_loop_snd (λ t, deadline (se t)) ticks (queue runqueue)
                0 None UINT_MAX) as Hsnd.
  destruct (rt_loop _ ticks (queue runqueue) 0 None UINT_MAX) as [r q'].
  simpl in *. by subst.
Qed.

(** RM ordering: when some periodic task, not under analysis and not
    executed, has a [next_period] below [UINT_MAX], [__scheduler_rm] returns
    such a task of smallest [next_period], the first in queue order among
    equals; the call leaves that task as it found it. *)
Theorem rm_returns_earliest_next_period (ticks : Z) (runqueue : runqueue_t) :
  (∃ j t, queue runqueue !! j = Some t ∧ rt_candidate t = true ∧
          next_period (se t) < UINT_MAX) →
  ∃ n t,
    __scheduler_rm TASK_RUNNING ticks runqueue
      = (Some n, rolled ticks runqueue) ∧
    queue runqueue !! n = Some t ∧
    queue (rolled ticks runqueue) !! n = Some t ∧
    rt_candidate t = true ∧
    (∀ j tj, queue runqueue !! j = Some tj → rt_candidate tj = true →
             next_period (se t) ≤ next_period (se tj)) ∧
    (∀ j tj, (j < n)%nat → queue runqueue !! j = Some tj →
             rt_candidate tj = true →
             next_period (se t) < next_period (se tj)).
Proof.
  intros Hsome.
  destruct (rt_policy_picks (λ t, next_period (se t)) ticks runqueue Hsome)
    as (n & t & Hfst & Hrest).
  exists n, t. split; [|exact Hrest].
  unfold __scheduler_rm. rewrite rm_loop_rt.
  pose proof (rt_loop_snd (λ t, next_period (se t)) ticks (queue runqueue)
                0 None UINT_MAX) as Hsnd.
  destruct (rt_loop _ ticks (queue runqueue) 0 None UINT_MAX) as [r q'].
  simpl in *. by subst.
Qed.

(** LLF ordering: the key is the laxity converted to unsigned, as the
    comparison with [min_lax] reads it. When some periodic task, not under
    analysis and not executed, has such a key below [UINT_MAX],
    [__scheduler_llf] returns a task of smallest key, the first in queue
    order among equals; the call leaves that task as it found it. *)
Theorem llf_returns_least_unsigned_laxity (ticks : Z) (runqueue : runqueue_t) :
  (∃ j t, queue runqueue !! j = Some t ∧ rt_candidate t = true ∧
          uint32 (this_lax ticks t) < UINT_MAX) →
  ∃ n t,
    __scheduler_llf TASK_RUNNING ticks runqueue
      = (Some n, rolled ticks runqueue) ∧
    queue runqueue !! n = Some t ∧
    queue (rolled ticks runqueue) !! n = Some t ∧
    rt_candidate t = true ∧
    (∀ j tj, queue runqueue !! j = Some tj → rt_candidate tj = true →
             uint32 (this_lax ticks t) ≤ uint32 (this_lax ticks tj)) ∧
    (∀ j tj, (j < n)%nat → queue runqueue !! j = Some tj →
             rt_candidate tj = true →
             uint32 (this_lax ticks t) < uint32 (this_lax ticks tj)).
Proof.
  intros Hsome.
  destruct (rt_policy_picks (λ t, uint32 (this_lax ticks t)) ticks runqueue Hsome)
    as (n & t & Hfst & Hrest).
  exists n, t. split; [|exact Hrest].
  unfold __scheduler_llf. rewrite llf_loop_rt.
  pose proof (rt_loop_snd (λ t, uint32 (this_lax ticks t)) ticks
                (queue runqueue) 0 None UINT_MAX) as Hsnd.
  destruct (rt_loop _ ticks (queue runqueue) 0 None UINT_MAX) as [r q'].
  simpl in *. by subst.
Qed.

(** Real-time fallback: when no periodic task, not under analysis and not
    executed, has a key below [UINT_MAX], each of EDF, RM and LLF returns
    the task [__scheduler_cfs] selects, with [skip_periodic] set, on the run
    queue as the rollover leaves it. *)
Theorem rt_policies_fall_back_to_cfs (ticks : Z) (runqueue : runqueue_t) :
  ((∀ j t, queue runqueue !! j = Some t → rt_candidate t = true →
           UINT_MAX ≤ deadline (se t)) →
   __scheduler_edf TASK_RUNNING ticks runqueue
     = (__scheduler_cfs TASK_RUNNING (rolled ticks runqueue) true,
        rolled ticks runqueue)) ∧
  ((∀ j t, queue runqueue !! j = Some t → rt_candidate t = true →
           UINT_MAX ≤ next_period (se t)) →
   __scheduler_rm TASK_RUNNING ticks runqueue
     = (__scheduler_cfs TASK_RUNNING (rolled ticks runqueue) true,
        rolled ticks runqueue)) ∧
  ((∀ j t, queue runqueue !! j = Some t → rt_candidate t = true →
           UINT_MAX ≤ uint32 (this_lax ticks t)) →
   __scheduler_llf TASK_RUNNING ticks runqueue
     = (__scheduler_cfs TASK_RUNNING (rolled ticks runqueue) true,
        rolled ticks runqueue)).
Proof.
  assert (Hnone : ∀ key,
            (∀ j t, queue runqueue !! j = Some t → rt_candidate t = true →
                    UINT_MAX ≤ key t) →
            rt_loop key ticks (queue runqueue) 0 None UINT_MAX
              = (None, roll ticks <$> queue runqueue)).
  { intros key Hall.
    pose proof (rt_loop_snd key ticks (queue runqueue) 0 None UINT_MAX) as Hsnd.
    destruct (rt_loop_fst key ticks (queue runqueue) 0 None UINT_MAX)
      as [[Hfst _] | (k & t & _ & Hk & Ht & Hlt & _)].
    - destruct (rt_loop key ticks (queue runqueue) 0 None UINT_MAX).
      simpl in *. by subst.
    - specialize (Hall k t Hk Ht). lia. }
  split; [|split]; intros Hall.
  - unfold __scheduler_edf. by rewrite edf_loop_rt, (Hnone _ Hall).
  - unfold __scheduler_rm. by rewrite rm_loop_rt, (Hnone _ Hall).
  - unfold __scheduler_llf. by rewrite llf_loop_rt, (Hnone _ Hall).
Qed.

(** ** AEDF *)

Lemma aedf_loop_spec (l : list task_struct) :
  ∀ it next next_dl,
    (aedf_loop l it next next_dl = next ∧
     ∀ k t, l !! k = Some t → deadline (se t) ≠ 0 → next_dl < deadline (se t)) ∨
    (∃ k t, aedf_loop l it next next_dl = Some (it + k)%nat ∧
            l !! k = Some t ∧ deadline (se t) ≠ 0 ∧ deadline (se t) ≤ next_dl ∧
            (∀ k' t', l !! k' = Some t' → deadline (se t') ≠ 0 →
                      deadline (se t) ≤ deadline (se t')) ∧
            (∀ k' t', (k < k')%nat → l !! k' = Some t' →
                      deadline (se t') ≠ 0 →
                      deadline (se t) < deadline (se t'))).
Proof.
  induction l as [|entry l IH]; intros it next next_dl; simpl.
  - left. split; [done|]. by intros k t Hk.
  - assert (Hkeep : (deadline (se entry) ≠ 0 → next_dl < deadline (se entry)) →
              (aedf_loop l (S it) next next_dl = next ∧
               ∀ k t, (entry :: l) !! k = Some t → deadline (se t) ≠ 0 →
                      next_dl < deadline (se t)) ∨
              (∃ k t, aedf_loop l (S it) next next_dl = Some (it + k)%nat ∧
                      (entry :: l) !! k = Some t ∧ deadline (se t) ≠ 0 ∧
                      deadline (se t) ≤ next_dl ∧
                      (∀ k' t', (entry :: l) !! k' = Some t' →
                                deadline (se t') ≠ 0 →
                                deadline (se t) ≤ deadline (se t')) ∧
                      (∀ k' t', (k < k')%nat → (entry :: l) !! k' = Some t' →
                                deadline (se t') ≠ 0 →
                                deadline (se t) < deadline (se t')))).
    { intros Hentry.
      destruct (IH (S it) next next_dl)
        as [[-> Hall] | (k & t & -> & Hk & Ht & Hle & Hmin & Hlast)].
      - left. split; [done|]. intros [|k] t Hk Ht; simpl in Hk.
        + inversion Hk; subst. by apply Hentry.
        + by apply (Hall k).
      - right. exists (S k), t. split; [f_equal; lia|]. split; [done|].
        split; [done|]. split; [done|]. split.
        + intros [|k'] t' Hk' Ht'; simpl in Hk'.
          * inversion Hk'; subst. specialize (Hentry Ht'). lia.
          * by apply (Hmin k').
        + intros [|k'] t' Hlt' Hk' Ht'; [lia|]. simpl in Hk'.
          apply (Hlast k'); [lia | done | done]. }
    destruct (Z.eqb_spec (deadline (se entry)) 0) as [Hzero | Hnonzero]; simpl.
    { apply Hkeep. intros Hne. by destruct Hne. }
    destruct (Z.leb_spec (deadline (se entry)) next_dl) as [Hle | Hgt].
    + right.
      destruct (IH (S it) (Some it) (deadline (se entry)))
        as [[-> Hall] | (k & t & -> & Hk & Ht & Hle' & Hmin & Hlast)].
      * exists 0%nat, entry. split; [f_equal; lia|]. split; [done|].
        split; [done|]. split; [done|]. split.
        -- intros [|k'] t' Hk' Ht'; simpl in Hk'.
           ++ inversion Hk'; subst. lia.
           ++ specialize (Hall k' t' Hk' Ht'). lia.
        -- intros [|k'] t' Hlt' Hk' Ht'; [lia|]. simpl in Hk'.
           by apply (Hall k').
      * exists (S k), t. split; [f_equal; lia|]. split; [done|].
        split; [done|]. split; [lia|]. split.
        -- intros [|k'] t' Hk' Ht'; simpl in Hk'.
           ++ inversion Hk'; subst. lia.
           ++ by apply (Hmin k').
        -- intros [|k'] t' Hlt' Hk' Ht'; [lia|]. simpl in Hk'.
           apply (Hlast k'); [lia | done | done].
    + apply Hkeep. intros _. lia.
Qed.

(** AEDF ordering: when some task has a deadline other than 0 (and not
    above [UINT_MAX]), [__scheduler_aedf] returns a task of smallest
    non-zero deadline, the last in queue order among equals, whatever the
    state and the periodicity of the tasks. When every deadline is 0 it
    returns the task [__scheduler_cfs] selects with [skip_periodic] set. *)
Theorem aedf_returns_earliest_deadline (runqueue : runqueue_t) :
  ((∃ j t, queue runqueue !! j = Some t ∧ deadline (se t) ≠ 0 ∧
           deadline (se t) ≤ UINT_MAX) →
   ∃ n t,
     __scheduler_aedf TASK_RUNNING runqueue = Some n ∧
     queue runqueue !! n = Some t ∧ deadline (se t) ≠ 0 ∧
     (∀ j tj, queue runqueue !! j = Some tj → deadline (se tj) ≠ 0 →
              deadline (se t) ≤ deadline (se tj)) ∧
     (∀ j tj, (n < j)%nat → queue runqueue !! j = Some tj →
              deadline (se tj) ≠ 0 → deadline (se t) < deadline (se tj))) ∧
  ((∀ j t, queue runqueue !! j = Some t → deadline (se t) = 0) →
   __scheduler_aedf TASK_RUNNING runqueue
     = __scheduler_cfs TASK_RUNNING runqueue true).
Proof.
  unfold __scheduler_aedf.
  destruct (aedf_loop_spec (queue runqueue) 0 None UINT_MAX)
    as [[-> Hall] | (k & t & -> & Hk & Ht & Hle & Hmin & Hlast)].
  - split; [|done]. intros (j & t & Hj & Ht & Hle).
    specialize (Hall j t Hj Ht). lia.
  - split.
    + intros _. exists k, t. done.
    + intros Hzero. by specialize (Hzero k t Hk).
Qed.

(** ** The picker *)

Lemma cfs_in_range (runqueue : runqueue_t) (skip_periodic : bool) :
  (curr runqueue < length (queue runqueue))%nat →
  ∃ n, __scheduler_cfs TASK_RUNNING runqueue skip_periodic = Some n ∧
       (n < length (queue runqueue))%nat.
Proof.
  intros Hcurr.
  destruct (decide (1 < length (queue runqueue))%nat) as [Hmany | Hone].
  - destruct (cfs_result runqueue skip_periodic Hcurr Hmany)
      as (n & t & first & Hcfs & _ & Hn & _).
    exists n. split; [done|]. by eapply lookup_lt_Some.
  - unfold __scheduler_cfs.
    destruct (queue runqueue) as [|first q] eqn:Hq; [simpl in Hcurr; lia|].
    rewrite list_head_size_linked by (by rewrite Hq). rewrite Hq.
    destruct (Nat.leb_spec (length (first :: q)) 1); [|lia]. by eexists.
Qed.

Lemma priority_in_range (runqueue : runqueue_t) (skip_periodic : bool) :
  (curr runqueue < length (queue runqueue))%nat →
  ∃ n, __scheduler_priority TASK_RUNNING SCHEDULER_PRIORITY runqueue
         skip_periodic = Some n ∧
       (n < length (queue runqueue))%nat.
Proof.
  intros Hcurr.
  destruct (decide (1 < length (queue runqueue))%nat) as [Hmany | Hone].
  - destruct (priority_result runqueue skip_periodic Hcurr Hmany)
      as (n & t & first & Hcfs & _ & Hn & _).
    exists n. split; [done|]. by eapply lookup_lt_Some.
  - unfold __scheduler_priority.
    destruct (queue runqueue) as [|first q] eqn:Hq; [simpl in Hcurr; lia|].
    rewrite list_head_size_linked by (by rewrite Hq). rewrite Hq.
    destruct (Nat.leb_spec (length (first :: q)) 1); [|lia]. by eexists.
Qed.

Lemma rt_in_range (key : task_struct → Z) (ticks : Z) (runqueue : runqueue_t) :
  (curr runqueue < length (queue runqueue))%nat →
  ∃ n,
    match fst (rt_loop key ticks (queue runqueue) 0 None UINT_MAX) with
    | Some next => Some next
    | None => __scheduler_cfs TASK_RUNNING (rolled ticks runqueue) true
    end = Some n ∧
    (n < length (queue runqueue))%nat.
Proof.
  intros Hcurr.
  destruct (rt_loop_fst key ticks (queue runqueue) 0 None UINT_MAX)
    as [[-> _] | (k & t & -> & Hk & _)].
  - destruct (cfs_in_range (rolled ticks runqueue) true) as (n & Hn & Hlt).
    + unfold rolled. simpl. by rewrite length_fmap.
    + exists n. split; [done|]. unfold rolled in Hlt. simpl in Hlt.
      by rewrite length_fmap in Hlt.
  - exists k. split; [done|]. by eapply lookup_lt_Some.
Qed.

(** Only Round-Robin can leave the picker without a task: under every
    other policy, with [curr] linked in the run queue,
    [scheduler_pick_next_task] returns a task of the run queue and does not
    stop on its assertion. *)
Theorem picker_returns_unless_rr (NICE_0_LOAD : Z) (GET_WEIGHT : Z → Z)
    (update_process_profiling_timer : task_struct → task_struct)
    (weighted_exec_runtime : Z → Z → Z)
    (defined : policy) (ticks : Z) (runqueue : runqueue_t) :
  defined ≠ SCHEDULER_RR →
  (curr runqueue < length (queue runqueue))%nat →
  ∃ next runqueue',
    scheduler_pick_next_task TASK_RUNNING NICE_0_LOAD GET_WEIGHT
      update_process_profiling_timer weighted_exec_runtime
      defined ticks runqueue = Ok (next, runqueue') ∧
    (next < length (queue runqueue))%nat ∧
    length (queue runqueue') = length (queue runqueue).
Proof.
  intros Hrr Hcurr. unfold scheduler_pick_next_task.
  destruct (lookup_lt_is_Some_2 (queue runqueue) (curr runqueue) Hcurr)
    as [task Htask].
  set (rq1 := if updates_statistics defined then
                mk_rq (<[curr runqueue :=
                           __update_task_statistics NICE_0_LOAD GET_WEIGHT
                             update_process_profiling_timer
                             weighted_exec_runtime ticks task]>
                         (queue runqueue)) (curr runqueue)
              else runqueue).
  assert (Hstats :
    (if updates_statistics defined then
       match queue runqueue !! curr runqueue with
       | Some task =>
           Ok (mk_rq (<[curr runqueue :=
                          __update_task_statistics NICE_0_LOAD GET_WEIGHT
                            update_process_profiling_timer
                            weighted_exec_runtime ticks task]>
                        (queue runqueue)) (curr runqueue))
       | None => AssertFail "Current task is not valid."
       end
     else Ok runqueue) = Ok rq1).
  { unfold rq1. rewrite Htask. by destruct (updates_statistics defined). }
  rewrite Hstats, bind_Ok_l.
  assert (Hlen1 : length (queue rq1) = length (queue runqueue)).
  { unfold rq1. destruct (updates_statistics defined); [|done].
    simpl. by rewrite length_insert. }
  assert (Hcurr1 : (curr rq1 < length (queue rq1))%nat).
  { rewrite Hlen1. unfold rq1. by destruct (updates_statistics defined). }
  clearbody rq1. clear Hstats.
  assert (Hpolicy : ∃ n rq2,
    match defined with
    | SCHEDULER_RR => (__scheduler_rr TASK_RUNNING rq1 false, rq1)
    | SCHEDULER_PRIORITY =>
        (__scheduler_priority TASK_RUNNING defined rq1 false, rq1)
    | SCHEDULER_CFS => (__scheduler_cfs TASK_RUNNING rq1 false, rq1)
    | SCHEDULER_EDF => __scheduler_edf TASK_RUNNING ticks rq1
    | SCHEDULER_RM => __scheduler_rm TASK_RUNNING ticks rq1
    | SCHEDULER_AEDF => (__scheduler_aedf TASK_RUNNING rq1, rq1)
    | SCHEDULER_LLF => __scheduler_llf TASK_RUNNING ticks rq1
    end = (Some n, rq2) ∧
    (n < length (queue rq1))%nat ∧
    length (queue rq2) = length (queue rq1)).
  { destruct defined; [done| | | | | |].
    - destruct (priority_in_range rq1 false Hcurr1) as (n & -> & Hn).
      by exists n, rq1.
    - destruct (cfs_in_range rq1 false Hcurr1) as (n & -> & Hn).
      by exists n, rq1.
    - destruct (rt_in_range (λ t, deadline (se t)) ticks rq1 Hcurr1)
        as (n & Hn & Hlt).
      unfold __scheduler_edf. rewrite edf_loop_rt.
      pose proof (rt_loop_snd (λ t, deadline (se t)) ticks (queue rq1)
                    0 None UINT_MAX) as Hsnd.
      destruct (rt_loop _ ticks (queue rq1) 0 None UINT_MAX) as [r q'].
      simpl in *. subst q'. exists n, (rolled ticks rq1).
      split; [|split; [done | unfold rolled; simpl; by rewrite length_fmap]].
      destruct r as [r|]; [by inversion Hn; subst | by rewrite <- Hn].
    - destruct (rt_in_range (λ t, next_period (se t)) ticks rq1 Hcurr1)
        as (n & Hn & Hlt).
      unfold __scheduler_rm. rewrite rm_loop_rt.
      pose proof (rt_loop_snd (λ t, next_period (se t)) ticks (queue rq1)
                    0 None UINT_MAX) as Hsnd.
      destruct (rt_loop _ ticks (queue rq1) 0 None UINT_MAX) as [r q'].
      simpl in *. subst q'. exists n, (rolled ticks rq1).
      split; [|split; [done | unfold rolled; simpl; by rewrite length_fmap]].
      destruct r as [r|]; [by inversion Hn; subst | by rewrite <- Hn].
    - unfold __scheduler_aedf.
      destruct (aedf_loop_spec (queue rq1) 0 None UINT_MAX)
        as [[-> _] | (k & t & -> & Hk & _)].
      + destruct (cfs_in_range rq1 true Hcurr1) as (n & -> & Hn).
        by exists n, rq1.
      + exists k, rq1. split; [done|]. split; [|done].
        by eapply lookup_lt_Some.
    - destruct (rt_in_range (λ t, uint32 (this_lax ticks t)) ticks rq1 Hcurr1)
        as (n & Hn & Hlt).
      unfold __scheduler_llf. rewrite llf_loop_rt.
      pose proof (rt_loop_snd (λ t, uint32 (this_lax ticks t)) ticks
                    (queue rq1) 0 None UINT_MAX) as Hsnd.
      destruct (rt_loop _ ticks (queue rq1) 0 None UINT_MAX) as [r q'].
      simpl in *. subst q'. exists n, (rolled ticks rq1).
      split; [|split; [done | unfold rolled; simpl; by rewrite length_fmap]].
      destruct r as [r|]; [by inversion Hn; subst | by rewrite <- Hn]. }
  destruct Hpolicy as (n & rq2 & -> & Hn & Hlen2).
  destruct (lookup_lt_is_Some_2 (queue rq2) n) as [chosen Hchosen]; [lia|].
  rewrite Hchosen. eexists _, _. split; [done|]. split; [lia|].
  simpl. rewrite length_insert. lia.
Qed.

(** ** The rollover of scenario S4 *)

Lemma edf_result (ticks : Z) (runqueue : runqueue_t) :
  __scheduler_edf TASK_RUNNING ticks runqueue
  = (match fst (rt_loop (λ t, deadline (se t)) ticks (queue runqueue)
                        0 None UINT_MAX) with
     | Some n => Some n
     | None => __scheduler_cfs TASK_RUNNING (rolled ticks runqueue) true
     end,
     rolled ticks runqueue).
Proof.
  unfold __scheduler_edf. rewrite edf_loop_rt.
  pose proof (rt_loop_snd (λ t, deadline (se t)) ticks (queue runqueue)
                0 None UINT_MAX) as Hsnd.
  destruct (rt_loop _ ticks (queue runqueue) 0 None UINT_MAX) as [[n|] q'];
    simpl in *; by subst.
Qed.

(** C5 (as amended): scenario S4 on the code. T is periodic and not under
    analysis, with period 100, deadline 150, next_period 100 and executed
    set, in any run queue; [ticks] is 105. One call of [__scheduler_edf]
    clears [executed] and moves the deadline to 250 and the next period to
    200. T is not compared in that call: when some periodic task, not under
    analysis, was not executed before the call (with a deadline below
    [UINT_MAX]), the task returned is such a task of smallest deadline, and
    it is not T; when there is none, the task returned is the one
    [__scheduler_cfs] selects with [skip_periodic] set. T is the candidate
    returned by the next call of [__scheduler_edf], at any tick, when no
    other periodic task that is then compared has an earlier deadline, an
    equal deadline counting as earlier for a task linked before T. *)
Theorem C5_edf_rollover_candidate_at_next_call (runqueue : runqueue_t)
    (i : nat) (T : task_struct) (ticks' : Z) :
  queue runqueue !! i = Some T →
  is_periodic (se T) = true →
  is_under_analysis (se T) = false →
  executed (se T) = true →
  period (se T) = 100 →
  deadline (se T) = 150 →
  next_period (se T) = 100 →
  ∃ T',
    snd (__scheduler_edf TASK_RUNNING 105 runqueue) = rolled 105 runqueue ∧
    queue (rolled 105 runqueue) !! i = Some T' ∧
    T' = start_next_period T ∧
    executed (se T') = false ∧
    deadline (se T') = 250 ∧
    next_period (se T') = 200 ∧
    ((∃ j t, queue runqueue !! j = Some t ∧ rt_candidate t = true ∧
             deadline (se t) < UINT_MAX) →
     ∃ n t,
       fst (__scheduler_edf TASK_RUNNING 105 runqueue) = Some n ∧
       n ≠ i ∧
       queue runqueue !! n = Some t ∧ rt_candidate t = true ∧
       ∀ j tj, queue runqueue !! j = Some tj → rt_candidate tj = true →
               deadline (se t) ≤ deadline (se tj)) ∧
    ((∀ j t, queue runqueue !! j = Some t → rt_candidate t = true →
             UINT_MAX ≤ deadline (se t)) →
     fst (__scheduler_edf TASK_RUNNING 105 runqueue)
       = __scheduler_cfs TASK_RUNNING (rolled 105 runqueue) true) ∧
    ((∀ j t, j ≠ i → queue (rolled 105 runqueue) !! j = Some t →
             rt_candidate t = true →
             250 < deadline (se t) ∨ ((i < j)%nat ∧ 250 ≤ deadline (se t))) →
     fst (__scheduler_edf TASK_RUNNING ticks' (rolled 105 runqueue)) = Some i).
Proof.
  intros HT Hper Hana Hexe Hperiod Hdl Hnp.
  assert (HT' : queue (rolled 105 runqueue) !! i = Some (start_next_period T)).
  { unfold rolled. simpl. rewrite list_lookup_fmap, HT. simpl. f_equal.
    unfold roll, rolls_over, __is_periodic_task.
    rewrite Hper, Hana, Hexe, Hnp. done. }
  assert (Hcand' : rt_candidate (start_next_period T) = true).
  { unfold rt_candidate, __is_periodic_task. simpl. by rewrite Hper, Hana. }
  assert (Hdl' : deadline (se (start_next_period T)) = 250).
  { simpl. by rewrite Hdl, Hperiod. }
  assert (Hnot : rt_candidate T = false).
  { unfold rt_candidate. rewrite Hexe. apply andb_false_r. }
  exists (start_next_period T).
  split; [by rewrite edf_result|]. split; [exact HT'|]. split; [done|].
  split; [done|]. split; [exact Hdl'|].
  split; [simpl; by rewrite Hnp, Hperiod|].
  split; [|split].
  - intros Hsome.
    destruct (rt_policy_picks (λ t, deadline (se t)) 105 runqueue Hsome)
      as (n & t & Hfst & Hn & _ & Hcand & Hmin & _).
    exists n, t. rewrite edf_result. simpl. rewrite Hfst.
    split; [done|]. split; [|done].
    intros ->. rewrite HT in Hn. inversion Hn; subst t. congruence.
  - intros Hnone. rewrite edf_result. simpl.
    destruct (rt_loop_fst (λ t, deadline (se t)) 105 (queue runqueue)
                0 None UINT_MAX)
      as [[-> _] | (k & t & _ & Hk & Ht & Hlt & _)]; [done|].
    specialize (Hnone k t Hk Ht). simpl in Hlt. lia.
  - intros Hothers.
    destruct (rt_policy_picks (λ t, deadline (se t)) ticks'
                (rolled 105 runqueue))
      as (n & t & Hfst & Hn & _ & Hcand & Hmin & Hfirst).
    { exists i, (start_next_period T). split; [done|]. split; [done|].
      rewrite Hdl'. unfold UINT_MAX. lia. }
    rewrite edf_result. cbn [fst]. rewrite Hfst. f_equal.
    destruct (decide (n = i)) as [|Hne]; [done|]. exfalso.
    pose proof (Hmin i _ HT' Hcand') as Hle. cbv beta in Hle.
    rewrite Hdl' in Hle.
    destruct (Hothers n t Hne Hn Hcand) as [Hlater | [Hafter Hsame]]; [lia|].
    pose proof (Hfirst i _ Hafter HT' Hcand') as Hlt. cbv beta in Hlt.
    rewrite Hdl' in Hlt. lia.
Qed.

End Policies.

(** ** The policies on the scenarios *)

Lemma rr_returns_next_eligible_witness :
  (∀ n, __scheduler_rr RUNNING sleeper_first false = Some n → n ≠ 1%nat) ∧
  ∃ n, __scheduler_rr RUNNING sleeper_first false = Some n.
Proof.
  destruct (rr_returns_next_eligible RUNNING sleeper_first false)
    as [Hfirst Hsome]; [simpl; lia | simpl; lia |].
  split.
  - intros n Hn. exact (proj1 (Hfirst n Hn)).
  - apply Hsome. exists 2%nat, (aperiodic RUNNING 120 20).
    split; [simpl; lia|]. split; reflexivity.
Defined.

Lemma cfs_returns_smallest_vruntime_witness :
  ∃ n t,
    __scheduler_cfs RUNNING sleeper_first false = Some n ∧
    queue sleeper_first !! n = Some t ∧
    vruntime (se t) ≤ 0.
Proof.
  destruct (cfs_returns_smallest_vruntime RUNNING sleeper_first false)
    as (n & t & first & Hcfs & Hfirst & Ht & Hle & _);
    [simpl; lia | simpl; lia |].
  exists n, t. split; [exact Hcfs|]. split; [exact Ht|].
  injection Hfirst as <-. exact Hle.
Defined.

Lemma priority_returns_smallest_prio_witness :
  ∃ n t,
    __scheduler_priority RUNNING SCHEDULER_PRIORITY sleeper_first false = Some n ∧
    queue sleeper_first !! n = Some t ∧
    uint32 (prio (se t)) ≤ 100.
Proof.
  destruct (priority_returns_smallest_prio RUNNING sleeper_first false)
    as (n & t & first & Hprio & Hfirst & Ht & Hle & _);
    [simpl; lia | simpl; lia |].
  exists n, t. split; [exact Hprio|]. split; [exact Ht|].
  injection Hfirst as <-. exact Hle.
Defined.

Lemma edf_returns_earliest_deadline_witness :
  ∃ n t,
    __scheduler_edf RUNNING 10 periodic_sleeper_first
      = (Some n, rolled 10 periodic_sleeper_first) ∧
    queue periodic_sleeper_first !! n = Some t ∧ rt_candidate t = true.
Proof.
  destruct (edf_returns_earliest_deadline RUNNING 10 periodic_sleeper_first)
    as (n & t & Hedf & Ht & _ & Hcandidate & _).
  - exists 0%nat, (periodic SLEEPING 1000 50 40 0 false).
    split; [reflexivity|]. split; [reflexivity|]. unfold UINT_MAX. simpl. lia.
  - exists n, t. split; [exact Hedf|]. split; [exact Ht | exact Hcandidate].
Defined.

Lemma rm_returns_earliest_next_period_witness :
  ∃ n t,
    __scheduler_rm RUNNING 10 periodic_sleeper_first
      = (Some n, rolled 10 periodic_sleeper_first) ∧
    queue periodic_sleeper_first !! n = Some t ∧ rt_candidate t = true.
Proof.
  destruct (rm_returns_earliest_next_period RUNNING 10 periodic_sleeper_first)
    as (n & t & Hrm & Ht & _ & Hcandidate & _).
  - exists 0%nat, (periodic SLEEPING 1000 50 40 0 false).
    split; [reflexivity|]. split; [reflexivity|]. unfold UINT_MAX. simpl. lia.
  - exists n, t. split; [exact Hrm|]. split; [exact Ht | exact Hcandidate].
Defined.

Lemma llf_returns_least_unsigned_laxity_witness :
  ∃ n t,
    __scheduler_llf RUNNING 100 (mk_rq [lax_minus_10; lax_70] 0)
      = (Some n, rolled 100 (mk_rq [lax_minus_10; lax_70] 0)) ∧
    [lax_minus_10; lax_70] !! n = Some t ∧
    uint32 (this_lax 100 t) ≤ uint32 (this_lax 100 lax_70).
Proof.
  destruct (llf_returns_least_unsigned_laxity RUNNING 100
              (mk_rq [lax_minus_10; lax_70] 0))
    as (n & t & Hllf & Ht & _ & _ & Hleast & _).
  - exists 1%nat, lax_70.
    split; [reflexivity|]. split; [reflexivity|]. vm_compute. reflexivity.
  - exists n, t. split; [exact Hllf|]. split; [exact Ht|].
    apply (Hleast 1%nat lax_70); reflexivity.
Defined.

(** On scenario S4 the only periodic task is executed: no task is
    compared, and the three policies return what CFS selects. *)
Lemma rt_policies_fall_back_to_cfs_witness :
  __scheduler_edf RUNNING 105 S4_runqueue
    = (__scheduler_cfs RUNNING (rolled 105 S4_runqueue) true,
       rolled 105 S4_runqueue) ∧
  __scheduler_rm RUNNING 105 S4_runqueue
    = (__scheduler_cfs RUNNING (rolled 105 S4_runqueue) true,
       rolled 105 S4_runqueue) ∧
  __scheduler_llf RUNNING 105 S4_runqueue
    = (__scheduler_cfs RUNNING (rolled 105 S4_runqueue) true,
       rolled 105 S4_runqueue).
Proof.
  assert (Hnone : ∀ (j : nat) (t : task_struct),
            queue S4_runqueue !! j = Some t → rt_candidate t = false).
  { intros [|[|j]] t Ht; simpl in Ht; try discriminate;
      injection Ht as <-; reflexivity. }
  destruct (rt_policies_fall_back_to_cfs RUNNING 105 S4_runqueue)
    as (Hedf & Hrm & Hllf).
  split; [|split].
  - apply Hedf. intros j t Ht Hc. rewrite (Hnone j t Ht) in Hc. discriminate.
  - apply Hrm. intros j t Ht Hc. rewrite (Hnone j t Ht) in Hc. discriminate.
  - apply Hllf. intros j t Ht Hc. rewrite (Hnone j t Ht) in Hc. discriminate.
Defined.

Lemma aedf_returns_earliest_deadline_witness :
  (∃ n t, __scheduler_aedf RUNNING periodic_sleeper_first = Some n ∧
          queue periodic_sleeper_first !! n = Some t ∧
          deadline (se t) ≤ 50) ∧
  __scheduler_aedf RUNNING sleeper_first
    = __scheduler_cfs RUNNING sleeper_first true.
Proof.
  split.
  - destruct (proj1 (aedf_returns_earliest_deadline RUNNING
                       periodic_sleeper_first))
      as (n & t & Haedf & Ht & _ & Hleast & _).
    + exists 0%nat, (periodic SLEEPING 1000 50 40 0 false).
      split; [reflexivity|]. split; [discriminate|]. unfold UINT_MAX. simpl. lia.
    + exists n, t. split; [exact Haedf|]. split; [exact Ht|].
      apply (Hleast 0%nat (periodic SLEEPING 1000 50 40 0 false));
        [reflexivity | discriminate].
  - apply (proj2 (aedf_returns_earliest_deadline RUNNING sleeper_first)).
    intros [|[|[|j]]] t Ht; simpl in Ht; try discriminate;
      injection Ht as <-; reflexivity.
Defined.

Lemma picker_returns_unless_rr_witness :
  ∃ next runqueue',
    pick_next_task SCHEDULER_CFS 5 sleeper_first = Ok (next, runqueue') ∧
    (next < 3)%nat.
Proof.
  destruct (picker_returns_unless_rr RUNNING NICE_0_LOAD GET_WEIGHT
              no_profiling weighted SCHEDULER_CFS 5 sleeper_first)
    as (next & runqueue' & Hpick & Hnext & _);
    [discriminate | simpl; lia |].
  exists next, runqueue'. split; [exact Hpick | exact Hnext].
Defined.

(** C5 (as amended) on scenario S4, where T is the only periodic task,
    and with the task U of later deadline linked after T: the first call
    returns U and the next call, at [ticks = 106], returns T. *)
Lemma C5_edf_rollover_candidate_at_next_call_witness :
  (∃ T',
     queue (rolled 105 S4_runqueue) !! 1%nat = Some T' ∧
     executed (se T') = false ∧ deadline (se T') = 250 ∧
     next_period (se T') = 200 ∧
     fst (__scheduler_edf RUNNING 105 S4_runqueue)
       = __scheduler_cfs RUNNING (rolled 105 S4_runqueue) true ∧
     fst (__scheduler_edf RUNNING 106 (rolled 105 S4_runqueue)) = Some 1%nat) ∧
  (∃ n, fst (__scheduler_edf RUNNING 105 S4_with_U) = Some n ∧ n ≠ 1%nat) ∧
  fst (__scheduler_edf RUNNING 106 (rolled 105 S4_with_U)) = Some 1%nat.
Proof.
  split; [|split].
  - destruct (C5_edf_rollover_candidate_at_next_call RUNNING S4_runqueue 1
                S4_T 106)
      as (T' & _ & HT' & _ & Hexe & Hdl & Hnp & _ & Hfallback & Hnext);
      [reflexivity..|].
    exists T'. split; [exact HT'|]. split; [exact Hexe|]. split; [exact Hdl|].
    split; [exact Hnp|]. split.
    + apply Hfallback. intros [|[|j]] t Ht Hc; simpl in Ht; try discriminate;
        injection Ht as <-; discriminate Hc.
    + apply Hnext. intros [|[|j]] t Hj Ht Hc; simpl in Ht; try discriminate;
        [injection Ht as <-; discriminate Hc | lia].
  - destruct (C5_edf_rollover_candidate_at_next_call RUNNING S4_with_U 1
                S4_T 106)
      as (T' & _ & _ & _ & _ & _ & _ & Hother & _); [reflexivity..|].
    destruct Hother as (n & t & Hn & Hne & _).
    + exists 2%nat, S4_U. split; [reflexivity|]. split; [reflexivity|].
      unfold UINT_MAX. simpl. lia.
    + exists n. exact (conj Hn Hne).
  - destruct (C5_edf_rollover_candidate_at_next_call RUNNING S4_with_U 1
                S4_T 106)
      as (T' & _ & _ & _ & _ & _ & _ & _ & _ & Hnext); [reflexivity..|].
    apply Hnext. intros [|[|[|j]]] t Hj Ht Hc; simpl in Ht; try discriminate.
    + injection Ht as <-. discriminate Hc.
    + lia.
    + injection Ht as <-. right. split; [lia|]. simpl. lia.
Defined.

End SchedMore.
